(** * NFPA fire detection BOQ and layout tool: coverage engine and ledger

    A shallow embedding of [fire_design_app.py]: the spacing rule
    [calculate_detector_quantity], the grid generator
    [generate_detector_grid], the rows and entities written by [generate_boq]
    and [generate_dxf], the equipment library with the dropdown filled from
    it, and the ledger operations [add_item] and [generate_outputs] of
    [FireDesignApp].

    Python's [float] is IEEE 754 binary64; it is modelled by Rocq's primitive
    [float], whose operations are specified through [Prim2SF] by the
    [SpecFloat] functions.  Python's [int] is modelled by [Z].  Exceptions are
    modelled by the [result] type. *)

From Stdlib Require Import ZArith Lia Floats QArith Qabs Qpower.
From Stdlib Require Uint63.
From stdpp Require Import base option list strings.

Set Default Proof Using "Type".
Local Open Scope Z_scope.

(** ** The fragment of the Python runtime the program uses *)

Module Py.

(** The built-in exceptions the arithmetic of the program can raise. *)
Inductive exn : Set :=
  | ZeroDivisionError
  | OverflowError
  | ValueError.

Inductive result (A : Type) : Type :=
  | Ok (a : A)
  | Raise (e : exn).
Arguments Ok {A} a.
Arguments Raise {A} e.

Definition bind {A B} (r : result A) (k : A -> result B) : result B :=
  match r with
  | Ok a => k a
  | Raise e => Raise e
  end.

Definition is_ok {A} (r : result A) : bool :=
  match r with Ok _ => true | Raise _ => false end.

(** [for x in l: s = body(x, s)], stopping at the first exception. *)
Fixpoint for_each {A S} (l : list A) (body : A -> S -> result S) (s : S)
  : result S :=
  match l with
  | [] => Ok s
  | x :: l' => bind (body x s) (for_each l' body)
  end.

(** [range(n)]: the integers [0, 1, ..., n-1]; empty when [n <= 0]. *)
Definition range (n : Z) : list Z := map Z.of_nat (seq 0 (Z.to_nat n)).

(** [a / b] on floats: Python raises on a zero divisor (of either sign). *)
Definition truediv (a b : float) : result float :=
  if (b =? 0)%float then Raise ZeroDivisionError else Ok (a / b)%float.

(** The least integer not below [z * 2^e]. *)
Definition Zceil_scaled (z e : Z) : Z :=
  if 0 <=? e then z * 2 ^ e else - ((- z) / 2 ^ (- e)).

(** [math.ceil(x)]: [ValueError] on NaN, [OverflowError] on an infinity. *)
Definition ceil (x : float) : result Z :=
  match Prim2SF x with
  | S754_nan => Raise ValueError
  | S754_infinity _ => Raise OverflowError
  | S754_zero _ => Ok 0
  | S754_finite s m e => Ok (Zceil_scaled (cond_Zopp s (Zpos m)) e)
  end.

(** [float(i)]: the integer rounded to the nearest binary64 value, ties to
    even; [OverflowError] when the rounded value is not finite. *)
Definition float_of_int (i : Z) : result float :=
  match binary_normalize prec emax i 0 false with
  | S754_infinity _ => Raise OverflowError
  | sf => Ok (SF2Prim sf)
  end.

(** [i + y] for an [int] [i] and a [float] [y]: the integer is converted
    first. *)
Definition int_add_float (i : Z) (y : float) : result float :=
  bind (float_of_int i) (fun f => Ok (f + y)%float).

(** Truth value of [None] or a float: [None] and both zeros are false,
    everything else (NaN included) is true. *)
Definition truthy (v : option float) : bool :=
  match v with
  | None => false
  | Some f => negb (f =? 0)%float
  end.

End Py.

Import Py.
Arguments truthy : simpl never.

Notation "x <- r ;; k" := (Py.bind r (fun x => k))
  (at level 100, r at next level, right associativity,
   format "x  <-  r  ;;  '/' k").

(** The exact rational value of a finite float; [0] for the others. *)
Definition SF2Q (x : spec_float) : Q :=
  match x with
  | S754_finite s m e => (inject_Z (cond_Zopp s (Zpos m)) * Qpower 2 e)%Q
  | _ => 0%Q
  end.

Definition float_val (x : float) : Q := SF2Q (Prim2SF x).


(** ** 2. Generic equipment library *)

Record item : Type := {
  item_name : string;
  item_nfpa : string;
  default_spacing_m : option float;
  coverage_m2 : option Z;
  max_travel_distance_m : option Z
}.

Record category : Type := {
  category_name : string;
  items : list item
}.

(** 9.1, 18.0 and 15.2 as binary64 values. *)
Definition f9_1 : float := 0x1.2333333333333p+3%float.
Definition f18_0 : float := 18%float.
Definition f15_2 : float := 0x1.e666666666666p+3%float.

Definition mk_item (n : string) sp cov trav : item :=
  {| item_name := n; item_nfpa := "NFPA 72"; default_spacing_m := sp;
     coverage_m2 := cov; max_travel_distance_m := trav |}.

Definition equipment_library : list category :=
  [ {| category_name := "Smoke Detection";
       items := [ mk_item "Point Smoke Detector" (Some f9_1) None None;
                  mk_item "Beam Smoke Detector" (Some f18_0) None None ] |};
    {| category_name := "Heat Detection";
       items := [ mk_item "Fixed Temperature Heat Detector" (Some f15_2) None None;
                  mk_item "Rate-of-Rise Heat Detector" (Some f15_2) None None ] |};
    {| category_name := "Flame Detection";
       items := [ mk_item "UV Flame Detector" None (Some 400) None;
                  mk_item "IR Flame Detector" None (Some 600) None ] |};
    {| category_name := "Manual Devices";
       items := [ mk_item "Manual Call Point" None None (Some 61) ] |};
    {| category_name := "Notification";
       items := [ mk_item "Sounder" None None None;
                  mk_item "Strobe" None None None ] |} ].

(** ** 3. NFPA rules engine *)

Definition position : Type := float * float.

Definition calculate_detector_quantity (room_length room_width spacing : float)
  : result Z :=
  let area := (room_length * room_width)%float in
  let coverage_per_detector := (spacing * spacing)%float in
  q <- truediv area coverage_per_detector ;;
  ceil q.

(** The body of the inner loop: one candidate centre, appended when it lies
    inside the room. *)
Definition grid_cell (room_length room_width spacing : float) (i j : Z)
    (positions : list position) : result (list position) :=
  a <- int_add_float i 0.5 ;;
  let x := (a * spacing)%float in
  b <- int_add_float j 0.5 ;;
  let y := (b * spacing)%float in
  Ok (if (x <=? room_length)%float && (y <=? room_width)%float
      then positions ++ [(x, y)]
      else positions).

Definition generate_detector_grid (room_length room_width spacing : float)
  : result (list position) :=
  qx <- truediv room_length spacing ;;
  x_count <- ceil qx ;;
  qy <- truediv room_width spacing ;;
  y_count <- ceil qy ;;
  for_each (range x_count)
    (fun i => for_each (range y_count)
       (grid_cell room_length room_width spacing i))
    [].

(** ** 4. and 5. BOQ and line drawing generators

    The files written are modelled by their contents: the CSV rows and the
    DXF entities. *)

Record entry : Type := {
  name : string;
  quantity : Z;
  nfpa : string;
  spacing : option float
}.

(** A row under the header [Item, Quantity, NFPA Reference]. *)
Definition boq_row : Type := string * Z * string.

Definition generate_boq (selected_items : list entry) : list boq_row :=
  map (fun it => (name it, quantity it, nfpa it)) selected_items.

(** The closed polyline of the room and one circle, centre and radius, per
    detector. *)
Record dxf : Type := {
  outline : list position;
  circles : list (position * float)
}.

(** 0.2 as a binary64 value. *)
Definition circle_radius : float := 0x1.999999999999ap-3%float.

Definition generate_dxf (room_length room_width : float)
    (detector_positions : list position) : dxf :=
  {| outline := [ (0, 0); (room_length, 0); (room_length, room_width);
                  (0, room_width); (0, 0) ]%float;
     circles := map (fun p => (p, circle_radius)) detector_positions |}.

(** ** 6. The selection ledger of [FireDesignApp] *)

Definition add_item (it : item) (selected_items : list entry) : list entry :=
  selected_items ++
    [ {| name := item_name it; quantity := 1; nfpa := item_nfpa it;
         spacing := default_spacing_m it |} ].

(** [det['quantity'] = qty] *)
Definition set_quantity (qty : Z) (det : entry) : entry :=
  {| name := name det; quantity := qty; nfpa := nfpa det;
     spacing := spacing det |}.

(** [[i for i in self.selected_items if i['spacing']]].  The comprehension
    builds a list of references to the ledger's own dictionaries: a reference
    is the entry's index in the ledger, paired with its spacing, which nothing
    writes after [add_item]. *)
Fixpoint detectors_from (k : nat) (selected_items : list entry)
  : list (nat * float) :=
  match selected_items with
  | [] => []
  | it :: rest =>
      match spacing it with
      | Some s =>
          if truthy (Some s)
          then (k, s) :: detectors_from (S k) rest
          else detectors_from (S k) rest
      | None => detectors_from (S k) rest
      end
  end.

Definition detectors (selected_items : list entry) : list (nat * float) :=
  detectors_from 0 selected_items.

(** The loop over [detectors].  It writes through the references into the
    ledger, so the ledger is threaded as state and what was written before an
    exception stays written. *)
Fixpoint run_detectors (length width : float) (dets : list (nat * float))
    (selected_items : list entry) (detector_positions : list position)
  : list entry * result (list position) :=
  match dets with
  | [] => (selected_items, Ok detector_positions)
  | (d, s) :: dets' =>
      match generate_detector_grid length width s with
      | Raise e => (selected_items, Raise e)
      | Ok grid =>
          let detector_positions := detector_positions ++ grid in
          match calculate_detector_quantity length width s with
          | Raise e => (selected_items, Raise e)
          | Ok qty =>
              run_detectors length width dets'
                (alter (set_quantity qty) d selected_items)
                detector_positions
          end
      end
  end.

Record outputs : Type := {
  boq : list boq_row;
  layout : dxf
}.

(** [generate_outputs], after the two text fields are parsed: the ledger as
    the call leaves it, and the two files or the exception. *)
Definition generate_outputs (length width : float) (selected_items : list entry)
  : list entry * result outputs :=
  let '(selected_items', r) :=
    run_detectors length width (detectors selected_items) selected_items [] in
  (selected_items',
   detector_positions <- r ;;
   Ok {| boq := generate_boq selected_items';
         layout := generate_dxf length width detector_positions |}).

(** The positions drawn by a run, or its exception. *)
Definition drawn (r : result outputs) : result (list position) :=
  o <- r ;; Ok (map fst (circles (layout o))).

(** ** A functional reading of one export cycle

    Walking the ledger once, entry by entry, gives the same ledger and the
    same positions as the loop over references ([run_detectors_walk]
    below). *)
Fixpoint walk (length width : float) (selected_items : list entry)
    (detector_positions : list position)
  : list entry * result (list position) :=
  match selected_items with
  | [] => ([], Ok detector_positions)
  | it :: rest =>
      match spacing it with
      | Some s =>
          if truthy (Some s) then
            match generate_detector_grid length width s with
            | Raise e => (it :: rest, Raise e)
            | Ok grid =>
                match calculate_detector_quantity length width s with
                | Raise e => (it :: rest, Raise e)
                | Ok qty =>
                    let '(rest', r) :=
                      walk length width rest (detector_positions ++ grid) in
                    (set_quantity qty it :: rest', r)
                end
            end
          else
            let '(rest', r) := walk length width rest detector_positions in
            (it :: rest', r)
      | None =>
          let '(rest', r) := walk length width rest detector_positions in
          (it :: rest', r)
      end
  end.

(** ** The grid as the specification words it

    Columns [i] in [[0, columnCount)], rows [j] in [[0, rowCount)], columns
    outer and rows inner; the candidate of cell [(i, j)] is its centre; the
    candidates outside the room are discarded. *)

Fixpoint map_result {A B} (f : A -> result B) (l : list A) : result (list B) :=
  match l with
  | [] => Ok []
  | x :: l' => y <- f x ;; ys <- map_result f l' ;; Ok (y :: ys)
  end.

Definition candidate (spacing : float) (i j : Z) : result position :=
  a <- int_add_float i 0.5 ;;
  b <- int_add_float j 0.5 ;;
  Ok ((a * spacing)%float, (b * spacing)%float).

Definition in_room (roomLength roomWidth : float) (p : position) : bool :=
  (fst p <=? roomLength)%float && (snd p <=? roomWidth)%float.

Definition cells (columnCount rowCount : Z) : list (Z * Z) :=
  flat_map (fun i => map (pair i) (range rowCount)) (range columnCount).

Definition generateGrid (roomLength roomWidth spacing : float)
  : result (list position) :=
  qx <- truediv roomLength spacing ;;
  columnCount <- ceil qx ;;
  qy <- truediv roomWidth spacing ;;
  rowCount <- ceil qy ;;
  cs <- map_result (fun c => candidate spacing (fst c) (snd c))
          (cells columnCount rowCount) ;;
  Ok (List.filter (in_room roomLength roomWidth) cs).

(** ** Classes of floats, read on their specification *)

(** Zero of either sign, a positive finite float or plus infinity: the floats
    [x] with [0 <= x]. *)
Definition sf_nonneg (x : spec_float) : bool :=
  match x with
  | S754_zero _ | S754_infinity false | S754_finite false _ _ => true
  | _ => false
  end.

(** A positive finite float or plus infinity: the floats [x] with [0 < x]. *)
Definition sf_pos (x : spec_float) : bool :=
  match x with
  | S754_infinity false | S754_finite false _ _ => true
  | _ => false
  end.

(** Zero of either sign, a negative finite float or minus infinity: the
    floats [x] with [x <= 0]. *)
Definition sf_nonpos (x : spec_float) : bool :=
  match x with
  | S754_zero _ | S754_infinity true | S754_finite true _ _ => true
  | _ => false
  end.

(** A zero, or a finite float or an infinity of sign [sx]. *)
Definition sf_has_sign (sx : bool) (x : spec_float) : bool :=
  match x with
  | S754_zero _ => true
  | S754_infinity s | S754_finite s _ _ => Bool.eqb s sx
  | S754_nan => false
  end.

Definition sf_finite (x : spec_float) : bool :=
  match x with
  | S754_zero _ | S754_finite _ _ _ => true
  | _ => false
  end.

(** ** Named binary64 values used in the scenarios *)

(** 4.55, and 13.649999999999999, the binary64 value of [1.5 * 9.1]. *)
Definition f4_55 : float := 0x1.2333333333333p+2%float.
Definition f13_65 : float := 0x1.b4cccccccccccp+3%float.

(** [2^-600]: its square is below the least positive binary64 value. *)
Definition f2_m600 : float := 0x1p-600%float.

(** [2^1000] and [2^-1000]: their quotient is above the largest binary64
    value. *)
Definition f2_1000 : float := 0x1p+1000%float.
Definition f2_m1000 : float := 0x1p-1000%float.

(** Two and five units of the least positive binary64 value [2^-1074]. *)
Definition ulp2 : float := 0x0.0000000000002p-1022%float.
Definition ulp5 : float := 0x0.0000000000005p-1022%float.

(** The entries [add_item] creates for a point smoke detector and a sounder. *)
Definition point_smoke_detector : item :=
  mk_item "Point Smoke Detector" (Some f9_1) None None.
Definition sounder : item := mk_item "Sounder" None None None.

(** ** What one export cycle may do to an entry *)

(** The entry is as it was, or its quantity is what the spacing rule gives
    for its spacing. *)
Definition kept_or_recomputed (L W : float) (it it' : entry) : Prop :=
  it' = it \/
  exists s qty, spacing it = Some s /\ truthy (Some s) = true /\
    calculate_detector_quantity L W s = Ok qty /\ it' = set_quantity qty it.

(** The entry is as it was when its spacing is false, and has the quantity of
    the spacing rule when its spacing is true. *)
Definition recomputed (L W : float) (it it' : entry) : Prop :=
  match spacing it with
  | Some s =>
      if truthy (Some s)
      then exists qty,
        calculate_detector_quantity L W s = Ok qty /\ it' = set_quantity qty it
      else it' = it
  | None => it' = it
  end.

(** The entry with its spacing removed. *)
Definition without_spacing (it : entry) : entry :=
  {| name := name it; quantity := quantity it; nfpa := nfpa it;
     spacing := None |}.

(** ** Rounding to nearest, read on integers *)

(** The second shift of [binary_round_aux], and its final test. *)
Definition finish (sx : bool) (m2 e1 : Z) : spec_float :=
  let n2 := fexp prec emax (Zdigits2 m2 + e1) - e1 in
  let m3 := if 0 <? n2 then m2 / 2 ^ n2 else m2 in
  let e3 := if 0 <? n2 then e1 + n2 else e1 in
  match m3 with
  | Z0 => S754_zero sx
  | Z.pos p => if e3 <=? 971 then S754_finite sx p e3 else S754_infinity sx
  | Z.neg _ => S754_nan
  end.

(** [m1 * 2^e1 <= m2 * 2^e2], on integers. *)
Definition vle (m1 e1 m2 e2 : Z) : Prop :=
  m1 * 2 ^ (e1 - Z.min e1 e2) <= m2 * 2 ^ (e2 - Z.min e1 e2).

(** [r] is plus infinity or a positive finite float not below [(ms, es)] in
    the order [SFcompare] reads. *)
Definition sf_above (ms : positive) (es : Z) (r : spec_float) : Prop :=
  r = S754_infinity false \/
  exists m3 e3, r = S754_finite false m3 e3 /\
    (es < e3 \/ (e3 = es /\ Z.pos ms <= Z.pos m3)).

(** [r] is a zero or a positive finite float not above [(ms, es)] in the
    order [SFcompare] reads. *)
Definition sf_below (ms : positive) (es : Z) (r : spec_float) : Prop :=
  (exists b, r = S754_zero b) \/
  exists m3 e3, r = S754_finite false m3 e3 /\
    (e3 < es \/ (e3 = es /\ Z.pos m3 <= Z.pos ms)).

(** ** The floats 0.5 and 1 on their specification *)

Definition sf_half : spec_float := S754_finite false 4503599627370496 (-53).

Definition mantissa_one : positive := 4503599627370496.

(** ** The centre of a cell as a total function

    [float(i)] without its overflow check; inside the grid the check never
    fires ([candidate_centre] below). *)

Definition float_of_int_rounded (i : Z) : float :=
  SF2Prim (binary_normalize prec emax i 0 false).

Definition centre (spacing : float) (c : Z * Z) : position :=
  (((float_of_int_rounded (fst c) + 0.5) * spacing)%float,
   ((float_of_int_rounded (snd c) + 0.5) * spacing)%float).

(** The largest finite binary64 value, an integer. *)
Definition mantissa_max : positive := 9007199254740991.
Definition max_float_int : Z := Z.pos mantissa_max * 2 ^ 971.

(** ** Rooms and spacings of ordinary size

    [2^-250] and [2^250], about [5.5e-76] and [1.8e75]: between them no
    product or quotient of the spacing rule leaves the binary64 range. *)

Definition f2_m250 : float := 0x1p-250%float.
Definition f2_250 : float := 0x1p+250%float.

Definition ordinary (x : float) : bool :=
  ((f2_m250 <=? x) && (x <=? f2_250))%float.

(** ** The window: the dropdown and the choices made in it

    [__init__] fills the dropdown with the items of the library, category
    after category, and starts with an empty ledger. *)

Definition dropdown : list item := flat_map items equipment_library.

(** [add_item] run for each chosen item in turn. *)
Definition add_items (choices : list item) (selected_items : list entry)
  : list entry :=
  fold_left (fun l it => add_item it l) choices selected_items.

(** ** One turn of the loop of [generate_outputs] *)

(** The spacings of the entries of [detectors], in ledger order. *)
Definition true_spacings (selected_items : list entry) : list float :=
  map snd (detectors selected_items).

(** What the loop does for one entry of the ledger: nothing when its spacing
    is false; otherwise the grid first, then the quantity, then the write. *)
Definition visit (length width : float) (it : entry)
  : result (entry * list position) :=
  match spacing it with
  | Some s =>
      if truthy (Some s) then
        grid <- generate_detector_grid length width s ;;
        qty <- calculate_detector_quantity length width s ;;
        Ok (set_quantity qty it, grid)
      else Ok (it, [])
  | None => Ok (it, [])
  end.

(** Two entries that differ at most in the quantity of a detector. *)
Definition same_but_detector_quantity (a b : entry) : Prop :=
  name a = name b /\ nfpa a = nfpa b /\ spacing a = spacing b /\
  (truthy (spacing a) = false -> quantity a = quantity b).

(** The coordinate of the centre of column (or row) [i]. *)
Definition coordinate (spacing : float) (i : Z) : float :=
  ((float_of_int_rounded i + 0.5) * spacing)%float.

(** [ceil(d / spacing)]: the number of columns, or of rows. *)
Definition cell_count (d spacing : float) : result Z :=
  q <- truediv d spacing ;; ceil q.

(** The entry [add_item] appends for an item of the dropdown. *)
Definition new_entry (it : item) : entry :=
  {| name := item_name it; quantity := 1; nfpa := item_nfpa it;
     spacing := default_spacing_m it |}.

(** An entry the loop steps over, or whose spacing is of ordinary size. *)
Definition spacing_false_or_ordinary (it : entry) : Prop :=
  truthy (spacing it) = false \/
  exists s, spacing it = Some s /\ ordinary s = true.

(** What a completed run in an ordinary room leaves of an entry. *)
Definition exported (it it' : entry) : Prop :=
  same_but_detector_quantity it it' /\
  (truthy (spacing it) = true -> 1 <= quantity it').

(** * Properties *)

(** ** The ledger: references against the functional reading *)

Section Ledger.

Variables L W : float.

Lemma run_detectors_walk (l pre : list entry) (pos : list position) :
  run_detectors L W (detectors_from (length pre) l) (pre ++ l) pos =
  let '(l', r) := walk L W l pos in (pre ++ l', r).
Proof.
  revert pre pos.
  induction l as [|it rest IH]; intros pre pos; simpl.
  - reflexivity.
  - assert (Hskip :
      run_detectors L W (detectors_from (S (length pre)) rest)
        (pre ++ it :: rest) pos =
      let '(rest', r) := walk L W rest pos in (pre ++ it :: rest', r)).
    { specialize (IH (pre ++ [it]) pos).
      rewrite length_app, Nat.add_1_r, <- app_assoc in IH. simpl in IH.
      rewrite IH. destruct (walk L W rest pos) as [rest' r].
      now rewrite <- app_assoc. }
    destruct (spacing it) as [s|] eqn:Hsp.
    2: { rewrite Hskip. now destruct (walk L W rest pos). }
    destruct (truthy (Some s)).
    2: { rewrite Hskip. now destruct (walk L W rest pos). }
    simpl.
    destruct (generate_detector_grid L W s) as [grid|e]; [|reflexivity].
    destruct (calculate_detector_quantity L W s) as [qty|e]; [|reflexivity].
    replace (alter (set_quantity qty) (length pre) (pre ++ it :: rest))
      with ((pre ++ [set_quantity qty it]) ++ rest).
    2: { rewrite <- app_assoc. simpl.
         rewrite <- (Nat.add_0_r (length pre)).
         now rewrite alter_app_r. }
    specialize (IH (pre ++ [set_quantity qty it]) (pos ++ grid)).
    rewrite length_app, Nat.add_1_r in IH. simpl in IH.
    rewrite IH. destruct (walk L W rest (pos ++ grid)) as [rest' r].
    now rewrite <- app_assoc.
Qed.

Lemma generate_outputs_walk (l : list entry) :
  generate_outputs L W l =
  let '(l', r) := walk L W l [] in
  (l', detector_positions <- r ;;
       Ok {| boq := generate_boq l';
             layout := generate_dxf L W detector_positions |}).
Proof.
  unfold generate_outputs, detectors.
  pose proof (run_detectors_walk l [] []) as H. simpl in H.
  rewrite H. now destruct (walk L W l []).
Qed.

Lemma walk_length (l : list entry) (pos : list position) :
  length (fst (walk L W l pos)) = length l.
Proof.
  revert pos. induction l as [|it rest IH]; intros pos; simpl; [reflexivity|].
  assert (Hskip : forall p,
    length (fst (let '(rest', r) := walk L W rest p in (it :: rest', r))) =
    S (length rest)).
  { intros p. specialize (IH p). destruct (walk L W rest p). simpl in *.
    now rewrite IH. }
  destruct (spacing it) as [s|]; [|apply Hskip].
  destruct (truthy (Some s)); [|apply Hskip].
  destruct (generate_detector_grid L W s) as [grid|e]; [|reflexivity].
  destruct (calculate_detector_quantity L W s) as [qty|e]; [|reflexivity].
  specialize (IH (pos ++ grid)).
  destruct (walk L W rest (pos ++ grid)). simpl in *. now rewrite IH.
Qed.

(** A second walk over the ledger a walk produced changes nothing. *)
Lemma walk_idem (l : list entry) (pos : list position) :
  walk L W (fst (walk L W l pos)) pos = walk L W l pos.
Proof.
  revert pos. induction l as [|it rest IH]; intros pos; simpl; [reflexivity|].
  destruct (spacing it) as [s|] eqn:Hsp.
  - destruct (truthy (Some s)) eqn:Ht.
    + destruct (generate_detector_grid L W s) as [grid|e] eqn:Hg.
      * destruct (calculate_detector_quantity L W s) as [qty|e] eqn:Hq.
        -- specialize (IH (pos ++ grid)).
           destruct (walk L W rest (pos ++ grid)) as [rest' r] eqn:Hw.
           simpl in *. rewrite Hsp, Ht, Hg, Hq, IH. reflexivity.
        -- simpl. now rewrite Hsp, Ht, Hg, Hq.
      * simpl. now rewrite Hsp, Ht, Hg.
    + specialize (IH pos).
      destruct (walk L W rest pos) as [rest' r] eqn:Hw.
      simpl in *. now rewrite Hsp, Ht, IH.
  - specialize (IH pos).
    destruct (walk L W rest pos) as [rest' r] eqn:Hw.
    simpl in *. now rewrite Hsp, IH.
Qed.

(** An entry whose spacing is false (absent, or a zero) is stepped over: the
    walk is the walk of the ledger without it, with the entry put back. *)
Lemma walk_falsy (pre post : list entry) (it : entry) (pos : list position) :
  truthy (spacing it) = false ->
  walk L W (pre ++ it :: post) pos =
  let '(l', r) := walk L W (pre ++ post) pos in
  (take (length pre) l' ++ it :: drop (length pre) l', r).
Proof.
  intros Hf. revert pos.
  induction pre as [|p pre IH]; intros pos; simpl.
  - destruct (spacing it) as [s|] eqn:Hsp.
    + simpl in Hf. rewrite Hf.
      destruct (walk L W post pos) as [l' r]. now rewrite drop_0.
    + destruct (walk L W post pos) as [l' r]. now rewrite drop_0.
  - assert (Hskip : forall q,
      (let '(rest', r) := walk L W (pre ++ it :: post) q in (p :: rest', r)) =
      let '(l', r) :=
        (let '(rest', r) := walk L W (pre ++ post) q in (p :: rest', r)) in
      (take (S (length pre)) l' ++ it :: drop (S (length pre)) l', r)).
    { intros q. rewrite IH. now destruct (walk L W (pre ++ post) q). }
    destruct (spacing p) as [s|]; [|apply Hskip].
    destruct (truthy (Some s)); [|apply Hskip].
    destruct (generate_detector_grid L W s) as [grid|e].
    + destruct (calculate_detector_quantity L W s) as [qty|e].
      * rewrite IH. now destruct (walk L W (pre ++ post) (pos ++ grid)).
      * simpl. now rewrite take_app_length, drop_app_length.
    + simpl. now rewrite take_app_length, drop_app_length.
Qed.

End Ledger.

(** ** The grid: the loops against the specification's enumeration *)

Section Grid.

Variables L W s : float.

Lemma map_result_app {A B} (f : A -> result B) (l1 l2 : list A) :
  map_result f (l1 ++ l2) =
  (a <- map_result f l1 ;; b <- map_result f l2 ;; Ok (a ++ b)).
Proof.
  induction l1 as [|x l1 IH]; simpl.
  - now destruct (map_result f l2).
  - destruct (f x) as [y|e]; simpl; [|reflexivity].
    rewrite IH. destruct (map_result f l1) as [a|e]; simpl; [|reflexivity].
    now destruct (map_result f l2).
Qed.

Lemma map_result_map {A B C} (f : B -> result C) (g : A -> B) (l : list A) :
  map_result f (map g l) = map_result (fun x => f (g x)) l.
Proof.
  induction l as [|x l IH]; simpl; [reflexivity|]. now rewrite IH.
Qed.

(** The inner loop over the rows of column [i]. *)
Lemma for_each_rows (i : Z) (lj : list Z) (acc : list position) :
  for_each lj (grid_cell L W s i) acc =
  (cs <- map_result (candidate s i) lj ;;
   Ok (acc ++ List.filter (in_room L W) cs)).
Proof.
  revert acc. induction lj as [|j lj IH]; intros acc; simpl.
  - now rewrite app_nil_r.
  - unfold grid_cell at 1. unfold candidate at 1.
    destruct (int_add_float i 0.5) as [a|e]; simpl; [|reflexivity].
    destruct (int_add_float j 0.5) as [b|e]; simpl; [|reflexivity].
    rewrite IH. destruct (map_result (candidate s i) lj) as [cs|e]; simpl.
    2: reflexivity.
    unfold in_room at 2. simpl.
    destruct ((a * s <=? L)%float && (b * s <=? W)%float).
    + now rewrite <- app_assoc.
    + reflexivity.
Qed.

(** The outer loop over the columns. *)
Lemma for_each_columns (li lj : list Z) (acc : list position) :
  for_each li (fun i => for_each lj (grid_cell L W s i)) acc =
  (cs <- map_result (fun c => candidate s (fst c) (snd c))
           (flat_map (fun i => map (pair i) lj) li) ;;
   Ok (acc ++ List.filter (in_room L W) cs)).
Proof.
  revert acc. induction li as [|i li IH]; intros acc; simpl.
  - now rewrite app_nil_r.
  - rewrite for_each_rows, map_result_app, map_result_map. simpl.
    destruct (map_result (candidate s i) lj) as [cs|e]; simpl; [|reflexivity].
    rewrite IH.
    destruct (map_result _ (flat_map _ li)) as [cs'|e]; simpl; [|reflexivity].
    now rewrite List.filter_app, app_assoc.
Qed.

Lemma generate_detector_grid_generateGrid :
  generate_detector_grid L W s = generateGrid L W s.
Proof.
  unfold generate_detector_grid, generateGrid.
  destruct (truediv L s) as [qx|e]; simpl; [|reflexivity].
  destruct (ceil qx) as [cx|e]; simpl; [|reflexivity].
  destruct (truediv W s) as [qy|e]; simpl; [|reflexivity].
  destruct (ceil qy) as [cy|e]; simpl; [|reflexivity].
  apply for_each_columns.
Qed.

End Grid.

(** ** Signs of binary64 results, from the specification of the operations *)

Section Signs.

Lemma leb_0_l (x : float) : (0 <=? x)%float = sf_nonneg (Prim2SF x).
Proof.
  rewrite FloatAxioms.leb_spec. change (Prim2SF 0) with (S754_zero false).
  destruct (Prim2SF x) as [b|b| |b m e]; try destruct b; reflexivity.
Qed.

Lemma ltb_0_l (x : float) : (0 <? x)%float = sf_pos (Prim2SF x).
Proof.
  rewrite FloatAxioms.ltb_spec. change (Prim2SF 0) with (S754_zero false).
  destruct (Prim2SF x) as [b|b| |b m e]; try destruct b; reflexivity.
Qed.

Lemma eqb_0_r (x : float) :
  (x =? 0)%float = match Prim2SF x with S754_zero _ => true | _ => false end.
Proof.
  rewrite FloatAxioms.eqb_spec. change (Prim2SF 0) with (S754_zero false).
  destruct (Prim2SF x) as [b|b| |b m e]; try destruct b; reflexivity.
Qed.

Lemma shr_1_nonneg (mrs : shr_record) : 0 <= shr_m mrs -> 0 <= shr_m (shr_1 mrs).
Proof.
  destruct mrs as [m r t]. simpl. intros Hm.
  destruct m as [|p|p]; [simpl; lia| |lia].
  destruct p; simpl; lia.
Qed.

Lemma iter_pos_invariant {A} (P : A -> Prop) (f : A -> A) :
  (forall x, P x -> P (f x)) ->
  forall (n : positive) (x : A), P x -> P (SpecFloat.iter_pos f n x).
Proof.
  intros Hf. induction n as [n IH|n IH|]; intros x Hx; simpl; auto.
Qed.

Lemma shr_nonneg (mrs : shr_record) (e n : Z) :
  0 <= shr_m mrs -> 0 <= shr_m (fst (shr mrs e n)).
Proof.
  intros Hm. destruct n as [|p|p]; simpl; try assumption.
  now apply (iter_pos_invariant (fun r => 0 <= shr_m r) shr_1 shr_1_nonneg).
Qed.

Lemma shr_fexp_nonneg (m e : Z) (l : location) :
  0 <= m -> 0 <= shr_m (fst (shr_fexp prec emax m e l)).
Proof.
  intros Hm. unfold shr_fexp. apply shr_nonneg.
  destruct l as [|[| |]]; assumption.
Qed.

Lemma round_nearest_even_nonneg (m : Z) (l : location) :
  0 <= m -> 0 <= round_nearest_even m l.
Proof.
  intros Hm. destruct l as [|[| |]]; simpl; try lia.
  destruct (Z.even m); lia.
Qed.

(** Rounding a non-negative mantissa under the sign [sx] gives a zero or a
    float of that sign, never NaN. *)
Lemma binary_round_aux_sign (sx : bool) (mx ex : Z) (lx : location) :
  0 <= mx -> sf_has_sign sx (binary_round_aux prec emax sx mx ex lx) = true.
Proof.
  intros Hm. unfold binary_round_aux.
  pose proof (shr_fexp_nonneg mx ex lx Hm) as H1.
  destruct (shr_fexp prec emax mx ex lx) as [mrs' e']. simpl in H1.
  pose proof (shr_fexp_nonneg
    (round_nearest_even (shr_m mrs') (loc_of_shr_record mrs')) e' loc_Exact
    (round_nearest_even_nonneg _ _ H1)) as H2.
  destruct (shr_fexp prec emax _ e' loc_Exact) as [mrs'' e'']. simpl in H2.
  destruct (shr_m mrs'') as [|p|p]; [reflexivity| |lia].
  destruct (e'' <=? emax - prec); simpl; now destruct sx.
Qed.

Lemma sf_has_sign_nonneg (x : spec_float) : sf_has_sign false x = sf_nonneg x.
Proof. destruct x as [b|b| |b m e]; try destruct b; reflexivity. Qed.

Lemma sf_has_sign_nonpos (x : spec_float) : sf_has_sign true x = sf_nonpos x.
Proof. destruct x as [b|b| |b m e]; try destruct b; reflexivity. Qed.

Lemma binary_round_aux_nonneg (mx ex : Z) (lx : location) :
  0 <= mx -> sf_nonneg (binary_round_aux prec emax false mx ex lx) = true.
Proof.
  intros Hm. rewrite <- sf_has_sign_nonneg. now apply binary_round_aux_sign.
Qed.

Lemma binary_round_nonneg (m : positive) (e : Z) :
  sf_nonneg (binary_round prec emax false m e) = true.
Proof.
  unfold binary_round.
  destruct (shl_align m e _) as [mz ez].
  now apply binary_round_aux_nonneg.
Qed.

Lemma binary_normalize_nonneg (m e : Z) :
  0 <= m -> sf_nonneg (binary_normalize prec emax m e false) = true.
Proof.
  intros Hm. destruct m as [|p|p]; simpl; [reflexivity| |lia].
  apply binary_round_nonneg.
Qed.

Lemma SFldexp_nonneg (x : spec_float) (e : Z) :
  sf_nonneg x = true -> sf_nonneg (SFldexp prec emax x e) = true.
Proof.
  destruct x as [b|b| |b m ex]; simpl; try easy.
  destruct b; [discriminate|]. intros _. apply binary_round_nonneg.
Qed.

(** The primitive float built from a non-negative specification float is
    not negative, whether or not that float is in canonical form. *)
Lemma SF2Prim_nonneg (x : spec_float) :
  sf_nonneg x = true -> sf_nonneg (Prim2SF (SF2Prim x)) = true.
Proof.
  destruct x as [b|b| |b m e]; simpl; try easy.
  - now destruct b.
  - destruct b; [discriminate|reflexivity].
  - destruct b; [discriminate|]. intros _.
    unfold Z.ldexp. rewrite ldshiftexp_spec.
    apply SFldexp_nonneg. rewrite of_uint63_spec.
    apply binary_normalize_nonneg.
    apply Uint63.to_Z_bounded.
Qed.

Lemma SFadd_nonneg (x y : spec_float) :
  sf_nonneg x = true -> sf_nonneg y = true ->
  sf_nonneg (SFadd prec emax x y) = true.
Proof.
  destruct x as [bx|bx| |bx mx ex], y as [by_|by_| |by_ my ey];
    try destruct bx; try destruct by_; simpl; try easy.
  intros _ _. apply binary_round_nonneg.
Qed.

(** A non-negative float times a positive finite one is not negative. *)
Lemma SFmul_nonneg_finite (x : spec_float) (m : positive) (e : Z) :
  sf_nonneg x = true ->
  sf_nonneg (SFmul prec emax x (S754_finite false m e)) = true.
Proof.
  destruct x as [bx|bx| |bx mx ex]; try destruct bx; simpl; try easy.
  intros _. apply binary_round_aux_nonneg. lia.
Qed.

End Signs.

(** ** Rounding to nearest even in binary64: canonical forms and bounds *)

Section Rounding.

Lemma fexp_eq (e : Z) : fexp prec emax e = Z.max (e - 53) (-1074).
Proof. reflexivity. Qed.

Lemma digits2_pos_size (p : positive) : digits2_pos p = Pos.size p.
Proof. induction p; simpl; congruence. Qed.

Lemma Zdigits2_log2 (m : Z) : 0 < m -> Zdigits2 m = Z.log2 m + 1.
Proof.
  destruct m as [|p|p]; try lia. intros _. simpl.
  rewrite digits2_pos_size. destruct p; simpl; lia.
Qed.

Lemma Zdigits2_bounds (m : Z) :
  0 < m -> 2 ^ (Zdigits2 m - 1) <= m < 2 ^ Zdigits2 m.
Proof.
  intros Hm. rewrite (Zdigits2_log2 m Hm).
  replace (Z.log2 m + 1 - 1) with (Z.log2 m) by lia.
  apply (Z.log2_spec m Hm).
Qed.

Lemma Zdigits2_pos (m : Z) : 0 < m -> 0 < Zdigits2 m.
Proof.
  intros Hm. rewrite (Zdigits2_log2 m Hm). pose proof (Z.log2_nonneg m). lia.
Qed.

(** [d] is the number of digits of [m] when [2^(d-1) <= m < 2^d]. *)
Lemma Zdigits2_unique (m d : Z) :
  2 ^ (d - 1) <= m < 2 ^ d -> 0 < d -> Zdigits2 m = d.
Proof.
  intros Hb Hd.
  assert (Hm : 0 < m).
  { assert (0 < 2 ^ (d - 1)) by (apply Z.pow_pos_nonneg; lia). lia. }
  rewrite (Zdigits2_log2 m Hm).
  assert (Z.log2 m = d - 1); [|lia].
  apply Z.log2_unique; [lia|]. now replace (Z.succ (d - 1)) with d by lia.
Qed.

Lemma iter_pos_iter {A} (f : A -> A) (n : positive) (x : A) :
  SpecFloat.iter_pos f n x = Pos.iter f x n.
Proof.
  revert x. induction n as [n IH|n IH|]; intros x; simpl.
  - now rewrite !IH, !Pos.iter_swap.
  - now rewrite !IH.
  - reflexivity.
Qed.

Lemma shr_1_m (mrs : shr_record) :
  0 <= shr_m mrs -> shr_m (shr_1 mrs) = shr_m mrs / 2.
Proof.
  destruct mrs as [m r t]. simpl. intros Hm.
  destruct m as [|p|p]; [reflexivity| |lia].
  destruct p as [p|p|]; simpl.
  - rewrite Pos2Z.inj_xI. apply Z.div_unique with 1; lia.
  - rewrite Pos2Z.inj_xO. apply Z.div_unique with 0; lia.
  - reflexivity.
Qed.

(** The bits [r] and [s] stay clear while only zeros are shifted out. *)
Lemma shr_1_exact (mrs : shr_record) :
  0 <= shr_m mrs -> shr_r mrs = false -> shr_s mrs = false ->
  shr_m mrs mod 2 = 0 ->
  shr_r (shr_1 mrs) = false /\ shr_s (shr_1 mrs) = false.
Proof.
  destruct mrs as [m r t]. simpl. intros Hm -> -> Hmod.
  destruct m as [|p|p]; [auto| |lia].
  destruct p as [p|p|]; simpl; auto.
  - rewrite Pos2Z.inj_xI in Hmod.
    rewrite Z.add_comm, Z.mul_comm, Z.mod_add in Hmod by lia. discriminate.
  - discriminate.
Qed.

Lemma iter_shr_1 (m : Z) (k : positive) :
  0 <= m ->
  let r := SpecFloat.iter_pos shr_1 k (Build_shr_record m false false) in
  shr_m r = m / 2 ^ Z.pos k /\
  (m mod 2 ^ Z.pos k = 0 -> shr_r r = false /\ shr_s r = false).
Proof.
  intros Hm. cbv zeta. rewrite iter_pos_iter.
  induction k as [|k IH] using Pos.peano_ind.
  - cbn [Pos.iter]. rewrite shr_1_m by (simpl; lia). cbn [shr_m]. rewrite Z.pow_1_r.
    split; [reflexivity|]. intros Hmod.
    apply shr_1_exact; simpl; auto.
  - rewrite Pos.iter_succ. destruct IH as [IHm IHx].
    set (r := Pos.iter shr_1 _ k) in *.
    assert (Hr : 0 <= shr_m r).
    { rewrite IHm. apply Z.div_pos; [lia|]. apply Z.pow_pos_nonneg; lia. }
    rewrite Pos2Z.inj_succ, Z.pow_succ_r by lia.
    assert (H2k : 0 < 2 ^ Z.pos k) by (apply Z.pow_pos_nonneg; lia).
    split.
    + rewrite shr_1_m by assumption. rewrite IHm.
      rewrite Z.div_div by lia. now rewrite Z.mul_comm.
    + intros Hmod.
      assert (Hlow : m mod 2 ^ Z.pos k = 0).
      { apply Z.mod_divide; [lia|]. apply Z.mod_divide in Hmod; [|lia].
        destruct Hmod as [c Hc]. exists (c * 2). lia. }
      destruct (IHx Hlow) as [Hrr Hrs].
      apply shr_1_exact; auto.
      rewrite IHm. apply Z.mod_divide in Hmod; [|lia].
      destruct Hmod as [c Hc]. subst m.
      replace (c * (2 * 2 ^ Z.pos k)) with (c * 2 * 2 ^ Z.pos k) by lia.
      rewrite Z.div_mul by lia. now rewrite Z.mod_mul by lia.
Qed.

Lemma iter_shr_1_m (rec : shr_record) (k : positive) :
  0 <= shr_m rec ->
  shr_m (SpecFloat.iter_pos shr_1 k rec) = shr_m rec / 2 ^ Z.pos k.
Proof.
  intros Hm. rewrite iter_pos_iter.
  induction k as [|k IH] using Pos.peano_ind.
  - cbn [Pos.iter]. rewrite shr_1_m by assumption. now rewrite Z.pow_1_r.
  - rewrite Pos.iter_succ.
    assert (H2k : 0 < 2 ^ Z.pos k) by (apply Z.pow_pos_nonneg; lia).
    rewrite shr_1_m; rewrite IH; [|apply Z.div_pos; lia].
    rewrite Pos2Z.inj_succ, Z.pow_succ_r by lia.
    rewrite Z.div_div by lia. now rewrite Z.mul_comm.
Qed.

Lemma shr_fexp_m (m e : Z) (l : location) :
  0 <= m ->
  let n := fexp prec emax (Zdigits2 m + e) - e in
  shr_m (fst (shr_fexp prec emax m e l)) = (if 0 <? n then m / 2 ^ n else m) /\
  snd (shr_fexp prec emax m e l) = (if 0 <? n then e + n else e) /\
  (l = loc_Exact -> (0 <? n) = false \/ m mod 2 ^ n = 0 ->
   loc_of_shr_record (fst (shr_fexp prec emax m e l)) = loc_Exact).
Proof.
  intros Hm n. unfold shr_fexp. fold n.
  assert (Hrec : shr_m (shr_record_of_loc m l) = m) by now destruct l as [|[| |]].
  destruct n as [|k|k] eqn:Hn; simpl.
  - rewrite Hrec. repeat split. intros -> _. reflexivity.
  - rewrite iter_shr_1_m by (rewrite Hrec; assumption). rewrite Hrec.
    repeat split. intros -> [Hc|Hmod]; [discriminate|].
    destruct (iter_shr_1 m k Hm) as [_ Hx]. destruct (Hx Hmod) as [Hr Hs].
    simpl. destruct (SpecFloat.iter_pos shr_1 k _) as [m' r' s'].
    simpl in Hr, Hs. now subst.
  - rewrite Hrec. repeat split. intros -> _. reflexivity.
Qed.

Lemma round_nearest_even_bounds (m : Z) (l : location) :
  m <= round_nearest_even m l <= m + 1.
Proof.
  destruct l as [|[| |]]; simpl; try lia. destruct (Z.even m); lia.
Qed.

(** [binary_round_aux] in two steps: a first shift and a rounding that give
    [m2] between the quotient [m1] and [m1 + 1], then [finish]. *)
Lemma binary_round_aux_finish (sx : bool) (m e : Z) (l : location) :
  0 <= m ->
  let n := fexp prec emax (Zdigits2 m + e) - e in
  let m1 := if 0 <? n then m / 2 ^ n else m in
  let e1 := if 0 <? n then e + n else e in
  exists m2 : Z,
    m1 <= m2 <= m1 + 1 /\
    (l = loc_Exact -> (0 <? n) = false \/ m mod 2 ^ n = 0 -> m2 = m1) /\
    binary_round_aux prec emax sx m e l = finish sx m2 e1.
Proof.
  intros Hm n m1 e1.
  destruct (shr_fexp_m m e l Hm) as (H1 & H2 & H3). fold n in H1, H2, H3.
  unfold binary_round_aux.
  destruct (shr_fexp prec emax m e l) as [mrs' e'] eqn:Hs1.
  simpl in H1, H2, H3. fold m1 in H1. fold e1 in H2. subst e'.
  set (m2 := round_nearest_even (shr_m mrs') (loc_of_shr_record mrs')).
  exists m2. split; [|split].
  - subst m2. rewrite <- H1. apply round_nearest_even_bounds.
  - intros Hl Hex. subst m2. rewrite (H3 Hl Hex). simpl. exact H1.
  - assert (Hm2 : 0 <= m2).
    { pose proof (round_nearest_even_bounds (shr_m mrs') (loc_of_shr_record mrs')).
      fold m2 in H. rewrite H1 in H. subst m1.
      destruct (0 <? n) eqn:Hn; [|lia]. apply Z.ltb_lt in Hn.
      assert (0 <= m / 2 ^ n); [|lia].
      apply Z.div_pos; [lia|]. apply Z.pow_pos_nonneg; lia. }
    destruct (shr_fexp_m m2 e1 loc_Exact Hm2) as (G1 & G2 & _).
    destruct (shr_fexp prec emax m2 e1 loc_Exact) as [mrs'' e''].
    simpl in G1, G2. unfold finish. rewrite G1, G2. reflexivity.
Qed.

Lemma vle_digits (m1 e1 m2 e2 : Z) :
  0 < m1 -> 0 < m2 -> vle m1 e1 m2 e2 ->
  Zdigits2 m1 + e1 <= Zdigits2 m2 + e2.
Proof.
  intros H1 H2 Hv. unfold vle in Hv.
  set (k := Z.min e1 e2) in *.
  pose proof (Zdigits2_bounds m1 H1) as [B1 _].
  pose proof (Zdigits2_bounds m2 H2) as [_ B2].
  pose proof (Zdigits2_pos m1 H1) as D1.
  pose proof (Zdigits2_pos m2 H2) as D2.
  assert (Ha : 0 <= e1 - k) by lia. assert (Hb : 0 <= e2 - k) by lia.
  assert (Hlt : 2 ^ (Zdigits2 m1 - 1 + (e1 - k)) < 2 ^ (Zdigits2 m2 + (e2 - k))).
  { rewrite !Z.pow_add_r by lia.
    assert (0 < 2 ^ (e1 - k)) by (apply Z.pow_pos_nonneg; lia).
    assert (0 < 2 ^ (e2 - k)) by (apply Z.pow_pos_nonneg; lia).
    nia. }
  apply Z.pow_lt_mono_r_iff in Hlt; lia.
Qed.

Lemma sf_above_leb (ms : positive) (es : Z) (r : spec_float) :
  sf_above ms es r -> SFleb (S754_finite false ms es) r = true.
Proof.
  intros [->|(m3 & e3 & -> & H)]; [reflexivity|].
  unfold SFleb, SFcompare.
  destruct H as [H|[-> H]].
  - now rewrite (proj2 (Z.compare_lt_iff es e3) H).
  - rewrite Z.compare_refl.
    change (Pos.compare_cont Eq ms m3) with (Pos.compare ms m3).
    change ((ms ?= m3)%positive <> Gt) in H.
    destruct (ms ?= m3)%positive; congruence.
Qed.

Lemma finish_above (ms : positive) (es m2 e1 : Z) :
  1 <= m2 -> -1074 <= e1 ->
  es < e1 \/ (e1 = es /\ Z.pos ms <= m2) ->
  sf_above ms es (finish false m2 e1).
Proof.
  intros Hm2 He1 Hcmp. unfold finish.
  set (n2 := fexp prec emax (Zdigits2 m2 + e1) - e1).
  pose proof (Zdigits2_bounds m2 ltac:(lia)) as [B _].
  pose proof (Zdigits2_pos m2 ltac:(lia)) as D.
  destruct (0 <? n2) eqn:Hn2.
  - apply Z.ltb_lt in Hn2.
    assert (Hn2' : n2 <= Zdigits2 m2 - 1).
    { subst n2. rewrite fexp_eq in *. lia. }
    assert (H3 : 1 <= m2 / 2 ^ n2).
    { apply Z.div_le_lower_bound; [apply Z.pow_pos_nonneg; lia|].
      rewrite Z.mul_1_r.
      apply Z.le_trans with (2 ^ (Zdigits2 m2 - 1)); [|assumption].
      apply Z.pow_le_mono_r; lia. }
    destruct (m2 / 2 ^ n2) as [|p|p]; try lia.
    destruct (e1 + n2 <=? 971); [|now left].
    right. exists p, (e1 + n2). split; [reflexivity|]. left. lia.
  - destruct m2 as [|p|p]; try lia.
    destruct (e1 <=? 971); [|now left].
    right. exists p, e1. split; [reflexivity|]. lia.
Qed.

Lemma canonical_mantissa_eq (m : positive) (e : Z) :
  canonical_mantissa prec emax m e = true ->
  fexp prec emax (Zdigits2 (Z.pos m) + e) = e.
Proof. unfold canonical_mantissa. intros H. now apply Z.eqb_eq in H. Qed.

(** Rounding to nearest does not go below a float that the value before
    rounding is not below; [m * 2^e] is that value, or the value truncated
    when the location [l] is inexact. *)
Lemma round_lower_bound (ms : positive) (es m e : Z) (l : location) :
  canonical_mantissa prec emax ms es = true -> 0 < m ->
  vle (Z.pos ms) es m e ->
  sf_above ms es (binary_round_aux prec emax false m e l).
Proof.
  intros Hcan Hm Hv. apply canonical_mantissa_eq in Hcan.
  pose proof (vle_digits (Z.pos ms) es m e ltac:(lia) Hm Hv) as Hd.
  destruct (binary_round_aux_finish false m e l ltac:(lia))
    as (m2 & Hm2 & _ & ->).
  set (d := Zdigits2 m + e) in *.
  set (n := fexp prec emax d - e) in *.
  pose proof (Zdigits2_bounds m Hm) as [B _].
  pose proof (Zdigits2_pos m Hm) as D.
  pose proof (Zdigits2_pos (Z.pos ms) ltac:(lia)) as Ds.
  assert (HE : es <= fexp prec emax d /\ -1074 <= es).
  { rewrite <- Hcan. rewrite !fexp_eq. lia. }
  unfold vle in Hv.
  destruct (0 <? n) eqn:Hn.
  - apply Z.ltb_lt in Hn.
    assert (H2n : 0 < 2 ^ n) by (apply Z.pow_pos_nonneg; lia).
    assert (Hn' : n <= Zdigits2 m - 1).
    { subst n d. rewrite fexp_eq in *. lia. }
    assert (H1 : 1 <= m / 2 ^ n).
    { apply Z.div_le_lower_bound; [assumption|]. rewrite Z.mul_1_r.
      apply Z.le_trans with (2 ^ (Zdigits2 m - 1)); [|assumption].
      apply Z.pow_le_mono_r; lia. }
    apply finish_above; [lia|lia|].
    destruct (Z.eq_dec (e + n) es) as [Heq|Hne]; [right|left; lia].
    split; [assumption|].
    assert (Hms : Z.pos ms <= m / 2 ^ n); [|lia].
    apply Z.div_le_lower_bound; [assumption|].
    replace (Z.min es e) with e in Hv by lia.
    replace (e - e) with 0 in Hv by lia.
    replace (es - e) with n in Hv by lia.
    rewrite Z.pow_0_r in Hv. lia.
  - apply Z.ltb_ge in Hn.
    apply finish_above; [lia|lia|].
    destruct (Z.eq_dec e es) as [Heq|Hne]; [right|left; lia].
    split; [assumption|]. subst e.
    rewrite Z.min_id, Z.sub_diag, Z.pow_0_r in Hv. lia.
Qed.

Lemma Zdigits2_le (a b : Z) : 0 < a -> a <= b -> Zdigits2 a <= Zdigits2 b.
Proof.
  intros Ha Hab. rewrite !Zdigits2_log2 by lia.
  pose proof (Z.log2_le_mono a b Hab). lia.
Qed.

Lemma Zdigits2_pow2 (k : Z) : 0 <= k -> Zdigits2 (2 ^ k) = k + 1.
Proof.
  intros Hk. rewrite Zdigits2_log2 by (apply Z.pow_pos_nonneg; lia).
  now rewrite Z.log2_pow2.
Qed.

Lemma Zdigits2_div_pow2 (m n : Z) :
  0 < m -> 0 <= n -> 1 <= m / 2 ^ n ->
  Zdigits2 (m / 2 ^ n) = Zdigits2 m - n.
Proof.
  intros Hm Hn H1.
  assert (H2n : 0 < 2 ^ n) by (apply Z.pow_pos_nonneg; lia).
  pose proof (Zdigits2_bounds m Hm) as [Bl Bu].
  pose proof (Z.mul_div_le m (2 ^ n) H2n) as Hlo.
  pose proof (Zdigits2_pos m Hm) as Dm.
  assert (Hnd : n < Zdigits2 m).
  { apply (Z.pow_lt_mono_r_iff 2); [lia|lia|]. nia. }
  apply Zdigits2_unique; [|lia]. split.
  - apply Z.div_le_lower_bound; [assumption|].
    rewrite <- Z.pow_add_r by lia.
    now replace (n + (Zdigits2 m - n - 1)) with (Zdigits2 m - 1) by lia.
  - apply Z.div_lt_upper_bound; [assumption|].
    rewrite <- Z.pow_add_r by lia.
    now replace (n + (Zdigits2 m - n)) with (Zdigits2 m) by lia.
Qed.

Lemma sf_below_leb (ms : positive) (es : Z) (r : spec_float) :
  sf_below ms es r -> SFleb r (S754_finite false ms es) = true.
Proof.
  intros [[b ->]|(m3 & e3 & -> & H)]; [reflexivity|].
  unfold SFleb, SFcompare.
  destruct H as [H|[-> H]].
  - now rewrite (proj2 (Z.compare_lt_iff e3 es) H).
  - rewrite Z.compare_refl.
    change (Pos.compare_cont Eq m3 ms) with (Pos.compare m3 ms).
    change ((m3 ?= ms)%positive <> Gt) in H.
    destruct (m3 ?= ms)%positive; congruence.
Qed.

Lemma finish_zero (sx : bool) (e1 : Z) : finish sx 0 e1 = S754_zero sx.
Proof.
  unfold finish. destruct (0 <? _) eqn:H0; [|reflexivity].
  apply Z.ltb_lt in H0.
  now rewrite Z.div_0_l by (apply Z.pow_nonzero; lia).
Qed.

(** No second shift: the float is [(m2, e1)]. *)
Lemma finish_same (sx : bool) (m2 : positive) (e1 : Z) :
  fexp prec emax (Zdigits2 (Z.pos m2) + e1) <= e1 -> e1 <= 971 ->
  finish sx (Z.pos m2) e1 = S754_finite sx m2 e1.
Proof.
  intros Hn He. unfold finish.
  destruct (0 <? _) eqn:H0; [apply Z.ltb_lt in H0; lia|].
  now replace (e1 <=? 971) with true by (symmetry; apply Z.leb_le; lia).
Qed.

(** Rounding to nearest does not go above a float that the exact value is
    not above. *)
Lemma round_upper_bound (ms : positive) (es m e : Z) :
  canonical_mantissa prec emax ms es = true -> es <= 971 -> 0 < m ->
  e <= fexp prec emax (Zdigits2 m + e) ->
  vle m e (Z.pos ms) es ->
  sf_below ms es (binary_round_aux prec emax false m e loc_Exact).
Proof.
  intros Hcan Hes Hm Hpre Hv. apply canonical_mantissa_eq in Hcan.
  pose proof (vle_digits m e (Z.pos ms) es Hm ltac:(lia) Hv) as Hd.
  destruct (binary_round_aux_finish false m e loc_Exact ltac:(lia))
    as (m2 & Hm2 & Hex & ->).
  specialize (Hex eq_refl).
  set (d := Zdigits2 m + e) in *.
  set (E := fexp prec emax d) in *.
  set (n := E - e) in *.
  pose proof (Zdigits2_bounds m Hm) as [Bl Bu].
  pose proof (Zdigits2_pos m Hm) as D.
  pose proof (Zdigits2_bounds (Z.pos ms) ltac:(lia)) as [Bsl Bsu].
  pose proof (Zdigits2_pos (Z.pos ms) ltac:(lia)) as Ds.
  assert (HE : E <= es /\ -1074 <= E /\ d - 53 <= E).
  { rewrite <- Hcan. subst E. rewrite !fexp_eq. lia. }
  assert (Hn : 0 <= n) by lia.
  assert (H2n : 0 < 2 ^ n) by (apply Z.pow_pos_nonneg; lia).
  assert (Hm1 : (if 0 <? n then m / 2 ^ n else m) = m / 2 ^ n).
  { destruct (0 <? n) eqn:H0; [reflexivity|]. apply Z.ltb_ge in H0.
    replace n with 0 by lia. now rewrite Z.pow_0_r, Z.div_1_r. }
  assert (He1 : (if 0 <? n then e + n else e) = E).
  { destruct (0 <? n) eqn:H0; [lia|]. apply Z.ltb_ge in H0. lia. }
  rewrite Hm1 in Hm2, Hex. rewrite He1. clear Hm1 He1.
  assert (Hq0 : 0 <= m / 2 ^ n) by (apply Z.div_pos; lia).
  destruct (Z.eq_dec m2 0) as [->|Hm20]; [rewrite finish_zero; left; eauto|].
  destruct m2 as [|p2|p2]; try lia.
  pose proof (Zdigits2_pos (Z.pos p2) ltac:(lia)) as D2.
  destruct (Z.eq_dec E es) as [HEs|HEs].
  - (* the exact value and the bound have the same exponent *)
    unfold vle in Hv.
    replace (Z.min e es) with e in Hv by lia.
    replace (e - e) with 0 in Hv by lia.
    replace (es - e) with n in Hv by lia.
    rewrite Z.pow_0_r, Z.mul_1_r in Hv.
    assert (Hq : m / 2 ^ n <= Z.pos ms).
    { apply Z.div_le_upper_bound; [assumption|]. lia. }
    assert (Hp2 : Z.pos p2 <= Z.pos ms).
    { destruct (Z.eq_dec (m / 2 ^ n) (Z.pos ms)) as [Heq|Hne]; [|lia].
      pose proof (Z.mul_div_le m (2 ^ n) H2n) as Hlo. rewrite Heq in Hlo.
      assert (Hmeq : m = Z.pos ms * 2 ^ n) by lia.
      rewrite Hex; [lia|]. right. rewrite Hmeq. apply Z.mod_mul. lia. }
    pose proof (Zdigits2_le (Z.pos p2) (Z.pos ms) ltac:(lia) Hp2) as Hdig.
    rewrite finish_same.
    + right. exists p2, E. split; [reflexivity|]. right. split; assumption.
    + rewrite fexp_eq in Hcan |- *. lia.
    + lia.
  - (* the exact value lies in a lower binade than the bound *)
    assert (Hlt : E < es) by lia.
    destruct (Z.eq_dec (m / 2 ^ n) 0) as [Hq|Hq].
    + (* the quotient is zero and was rounded up to one *)
      assert (Hp : Z.pos p2 = 1) by lia. injection Hp as ->.
      rewrite finish_same.
      * right. exists 1%positive, E. split; [reflexivity|]. left. assumption.
      * simpl Zdigits2. rewrite fexp_eq. lia.
      * lia.
    + assert (Hq1 : 1 <= m / 2 ^ n) by lia.
      pose proof (Zdigits2_div_pow2 m n Hm Hn Hq1) as Hdq.
      pose proof (Zdigits2_bounds (m / 2 ^ n) ltac:(lia)) as [_ Bq].
      rewrite Hdq in Bq.
      assert (HD1 : Zdigits2 m - n <= 53) by lia.
      assert (Hp2 : Z.pos p2 <= 2 ^ (Zdigits2 m - n)) by lia.
      assert (Hp53 : Z.pos p2 <= 2 ^ 53).
      { apply Z.le_trans with (2 ^ (Zdigits2 m - n)); [assumption|].
        apply Z.pow_le_mono_r; lia. }
      pose proof (Zdigits2_le (Z.pos p2) (2 ^ 53) ltac:(lia) Hp53) as HD2.
      rewrite (Zdigits2_pow2 53) in HD2 by lia.
      destruct (Z_le_gt_dec (fexp prec emax (Zdigits2 (Z.pos p2) + E)) E)
        as [Hno|Hyes].
      * rewrite finish_same by lia.
        right. exists p2, E. split; [reflexivity|]. left. assumption.
      * (* a carry: the mantissa is [2^53] and is shifted once more *)
        assert (Hn2 : fexp prec emax (Zdigits2 (Z.pos p2) + E) - E = 1).
        { rewrite fexp_eq in *. lia. }
        unfold finish. rewrite Hn2. change (0 <? 1) with true. cbv iota.
        assert (H3 : 1 <= Z.pos p2 / 2 ^ 1 <= 2 ^ 52).
        { assert (54 <= Zdigits2 (Z.pos p2)) by (rewrite fexp_eq in *; lia).
          pose proof (Zdigits2_bounds (Z.pos p2) ltac:(lia)) as [Bp _].
          assert (2 ^ 53 <= Z.pos p2).
          { apply Z.le_trans with (2 ^ (Zdigits2 (Z.pos p2) - 1)); [|assumption].
            apply Z.pow_le_mono_r; lia. }
          split.
          - apply Z.div_le_lower_bound; lia.
          - apply Z.div_le_upper_bound; lia. }
        destruct (Z.pos p2 / 2 ^ 1) as [|p3|p3]; try lia.
        replace (E + 1 <=? 971) with true by (symmetry; apply Z.leb_le; lia).
        right. exists p3, (E + 1). split; [reflexivity|].
        destruct (Z.eq_dec (E + 1) es) as [Heq|Hne]; [right|left; lia].
        split; [assumption|].
        assert (Zdigits2 (Z.pos ms) = 53) by (rewrite fexp_eq in Hcan; lia).
        assert (2 ^ 52 <= Z.pos ms); [|lia].
        replace 52 with (Zdigits2 (Z.pos ms) - 1) by lia. assumption.
Qed.

Lemma vle_iff (k m1 e1 m2 e2 : Z) :
  k <= e1 -> k <= e2 ->
  vle m1 e1 m2 e2 <-> m1 * 2 ^ (e1 - k) <= m2 * 2 ^ (e2 - k).
Proof.
  intros H1 H2. unfold vle. set (x := Z.min e1 e2).
  assert (Hx : k <= x) by lia.
  assert (HP : 0 < 2 ^ (x - k)) by (apply Z.pow_pos_nonneg; lia).
  replace (e1 - k) with (e1 - x + (x - k)) by lia.
  replace (e2 - k) with (e2 - x + (x - k)) by lia.
  rewrite !Z.pow_add_r, !Z.mul_assoc by lia.
  apply Z.mul_le_mono_pos_r. assumption.
Qed.

Lemma Zdigits2_mul_pow2 (m k : Z) :
  0 < m -> 0 <= k -> Zdigits2 (m * 2 ^ k) = Zdigits2 m + k.
Proof.
  intros Hm Hk.
  pose proof (Zdigits2_bounds m Hm) as [Bl Bu].
  pose proof (Zdigits2_pos m Hm) as D.
  assert (H2k : 0 < 2 ^ k) by (apply Z.pow_pos_nonneg; lia).
  apply Zdigits2_unique; [|lia]. split.
  - replace (Zdigits2 m + k - 1) with (Zdigits2 m - 1 + k) by lia.
    rewrite Z.pow_add_r by lia. nia.
  - rewrite Z.pow_add_r by lia. nia.
Qed.

Lemma pos_iter_xO (m d : positive) :
  Z.pos (Pos.iter xO m d) = Z.pos m * 2 ^ Z.pos d.
Proof.
  induction d as [|d IH] using Pos.peano_ind.
  - simpl. lia.
  - rewrite Pos.iter_succ, Pos2Z.inj_xO, IH, Pos2Z.inj_succ.
    rewrite Z.pow_succ_r by lia. lia.
Qed.

(** [shl_align] keeps the value and lowers the exponent to [e'] if it
    is above. *)
Lemma shl_align_spec (m : positive) (e e' : Z) :
  snd (shl_align m e e') = Z.min e e' /\
  Z.pos (fst (shl_align m e e')) = Z.pos m * 2 ^ (e - Z.min e e').
Proof.
  unfold shl_align. destruct (e' - e) as [|d|d] eqn:Hd; simpl.
  - replace (Z.min e e') with e by lia. rewrite Z.sub_diag. simpl. lia.
  - replace (Z.min e e') with e by lia. rewrite Z.sub_diag. simpl. lia.
  - replace (Z.min e e') with e' by lia.
    rewrite pos_iter_xO. split; [reflexivity|].
    replace (e - e') with (- (e' - e)) by lia. now rewrite Hd.
Qed.

(** A mantissa whose exponent is not above the one of its format is rounded
    to a float in canonical form. *)
Lemma binary_round_aux_valid (sx : bool) (m e : Z) (l : location) :
  0 < m -> e <= fexp prec emax (Zdigits2 m + e) ->
  valid_binary (binary_round_aux prec emax sx m e l) = true.
Proof.
  intros Hm Hpre.
  destruct (binary_round_aux_finish sx m e l ltac:(lia)) as (m2 & Hm2 & _ & ->).
  set (d := Zdigits2 m + e) in *.
  set (E := fexp prec emax d) in *.
  set (n := E - e) in *.
  pose proof (Zdigits2_bounds m Hm) as [Bl Bu].
  pose proof (Zdigits2_pos m Hm) as D.
  assert (HE : -1074 <= E /\ d - 53 <= E /\ (E = -1074 \/ E = d - 53)).
  { subst E. rewrite fexp_eq. lia. }
  assert (Hn : 0 <= n) by lia.
  assert (H2n : 0 < 2 ^ n) by (apply Z.pow_pos_nonneg; lia).
  assert (Hm1 : (if 0 <? n then m / 2 ^ n else m) = m / 2 ^ n).
  { destruct (0 <? n) eqn:H0; [reflexivity|]. apply Z.ltb_ge in H0.
    replace n with 0 by lia. now rewrite Z.pow_0_r, Z.div_1_r. }
  assert (He1 : (if 0 <? n then e + n else e) = E).
  { destruct (0 <? n) eqn:H0; [lia|]. apply Z.ltb_ge in H0. lia. }
  rewrite Hm1 in Hm2. rewrite He1. clear Hm1 He1.
  assert (Hq0 : 0 <= m / 2 ^ n) by (apply Z.div_pos; lia).
  destruct m2 as [|p2|p2]; [now rewrite finish_zero| |lia].
  pose proof (Zdigits2_pos (Z.pos p2) ltac:(lia)) as D2.
  pose proof (Zdigits2_bounds (Z.pos p2) ltac:(lia)) as [B2l B2u].
  unfold finish.
  set (n2 := fexp prec emax (Zdigits2 (Z.pos p2) + E) - E).
  destruct (0 <? n2) eqn:Hn2.
  - apply Z.ltb_lt in Hn2.
    assert (Hn2' : n2 = Zdigits2 (Z.pos p2) - 53).
    { subst n2. rewrite fexp_eq in *. lia. }
    assert (H3 : 1 <= Z.pos p2 / 2 ^ n2).
    { apply Z.div_le_lower_bound; [apply Z.pow_pos_nonneg; lia|].
      rewrite Z.mul_1_r.
      apply Z.le_trans with (2 ^ (Zdigits2 (Z.pos p2) - 1)); [|assumption].
      apply Z.pow_le_mono_r; lia. }
    pose proof (Zdigits2_div_pow2 (Z.pos p2) n2 ltac:(lia) ltac:(lia) H3) as Hd3.
    destruct (Z.pos p2 / 2 ^ n2) as [|p3|p3]; try lia.
    destruct (E + n2 <=? 971) eqn:Hb; [|reflexivity].
    simpl. unfold bounded, canonical_mantissa.
    change (emax - prec) with 971. rewrite Hb, andb_true_r.
    apply Z.eqb_eq. change (Z.pos (digits2_pos p3)) with (Zdigits2 (Z.pos p3)).
    rewrite Hd3. subst n2.
    replace (Zdigits2 (Z.pos p2) - (fexp prec emax (Zdigits2 (Z.pos p2) + E) - E)
             + (E + (fexp prec emax (Zdigits2 (Z.pos p2) + E) - E)))
      with (Zdigits2 (Z.pos p2) + E) by lia.
    lia.
  - apply Z.ltb_ge in Hn2.
    destruct (E <=? 971) eqn:Hb; [|reflexivity].
    simpl. unfold bounded, canonical_mantissa.
    change (emax - prec) with 971. rewrite Hb, andb_true_r.
    apply Z.eqb_eq. change (Z.pos (digits2_pos p2)) with (Zdigits2 (Z.pos p2)).
    assert (Hge : E <= fexp prec emax (Zdigits2 (Z.pos p2) + E)); [|lia].
    destruct HE as (HE1 & HE2 & [HE3|HE3]).
    + rewrite fexp_eq. lia.
    + assert (Hnd : n = Zdigits2 m - 53) by lia.
      assert (Hq1 : 1 <= m / 2 ^ n).
      { apply Z.div_le_lower_bound; [assumption|]. rewrite Z.mul_1_r.
        apply Z.le_trans with (2 ^ (Zdigits2 m - 1)); [|assumption].
        apply Z.pow_le_mono_r; lia. }
      pose proof (Zdigits2_div_pow2 m n Hm Hn Hq1) as Hdq.
      pose proof (Zdigits2_le (m / 2 ^ n) (Z.pos p2) ltac:(lia) ltac:(lia)).
      rewrite fexp_eq. lia.
Qed.

Lemma binary_round_pre (m : positive) (e : Z) :
  let mz := fst (shl_align m e (fexp prec emax (Zdigits2 (Z.pos m) + e))) in
  let ez := snd (shl_align m e (fexp prec emax (Zdigits2 (Z.pos m) + e))) in
  ez <= e /\ Z.pos mz = Z.pos m * 2 ^ (e - ez) /\
  ez <= fexp prec emax (Zdigits2 (Z.pos mz) + ez).
Proof.
  intros mz ez.
  destruct (shl_align_spec m e (fexp prec emax (Zdigits2 (Z.pos m) + e)))
    as [He Hm].
  fold ez in He. fold mz in Hm. rewrite <- He in Hm.
  split; [lia|]. split; [assumption|].
  rewrite Hm, Zdigits2_mul_pow2 by lia.
  replace (Zdigits2 (Z.pos m) + (e - ez) + ez) with (Zdigits2 (Z.pos m) + e) by lia.
  lia.
Qed.

Lemma binary_round_valid (sx : bool) (m : positive) (e : Z) :
  valid_binary (binary_round prec emax sx m e) = true.
Proof.
  unfold binary_round.
  destruct (binary_round_pre m e) as (_ & _ & Hpre).
  change (Z.pos (digits2_pos m)) with (Zdigits2 (Z.pos m)).
  destruct (shl_align m e _) as [mz ez]. cbn [fst snd] in Hpre.
  apply binary_round_aux_valid; [lia|assumption].
Qed.

Lemma binary_normalize_valid (m e : Z) (szero : bool) :
  valid_binary (binary_normalize prec emax m e szero) = true.
Proof.
  destruct m as [|p|p]; simpl; [reflexivity| |]; apply binary_round_valid.
Qed.

Lemma binary_round_above (ms m : positive) (es e : Z) :
  canonical_mantissa prec emax ms es = true ->
  vle (Z.pos ms) es (Z.pos m) e ->
  sf_above ms es (binary_round prec emax false m e).
Proof.
  intros Hcan Hv. unfold binary_round.
  destruct (binary_round_pre m e) as (Hez & Hmz & _).
  change (Z.pos (digits2_pos m)) with (Zdigits2 (Z.pos m)).
  destruct (shl_align m e _) as [mz ez]. cbn [fst snd] in Hez, Hmz.
  apply round_lower_bound; [assumption|lia|].
  apply (vle_iff (Z.min es ez)) in Hv; [|lia|lia].
  apply (vle_iff (Z.min es ez)); [lia|lia|].
  rewrite Hmz, <- Z.mul_assoc, <- Z.pow_add_r by lia.
  now replace (e - ez + (ez - Z.min es ez)) with (e - Z.min es ez) by lia.
Qed.

Lemma binary_round_below (ms m : positive) (es e : Z) :
  canonical_mantissa prec emax ms es = true -> es <= 971 ->
  vle (Z.pos m) e (Z.pos ms) es ->
  sf_below ms es (binary_round prec emax false m e).
Proof.
  intros Hcan Hes Hv. unfold binary_round.
  destruct (binary_round_pre m e) as (Hez & Hmz & Hpre).
  change (Z.pos (digits2_pos m)) with (Zdigits2 (Z.pos m)).
  destruct (shl_align m e _) as [mz ez]. cbn [fst snd] in Hez, Hmz, Hpre.
  apply round_upper_bound; [assumption|assumption|lia|assumption|].
  apply (vle_iff (Z.min es ez)) in Hv; [|lia|lia].
  apply (vle_iff (Z.min es ez)); [lia|lia|].
  rewrite Hmz, <- Z.mul_assoc, <- Z.pow_add_r by lia.
  now replace (e - ez + (ez - Z.min es ez)) with (e - Z.min es ez) by lia.
Qed.

(** A mantissa of magnitude at most [2^1023] is not rounded to an
    infinity. *)
Lemma binary_round_aux_not_inf (m e : Z) (l : location) (b : bool) :
  0 < m -> e <= fexp prec emax (Zdigits2 m + e) -> Zdigits2 m + e <= 1023 ->
  binary_round_aux prec emax false m e l <> S754_infinity b.
Proof.
  intros Hm Hpre Hmag.
  destruct (binary_round_aux_finish false m e l ltac:(lia)) as (m2 & Hm2 & _ & ->).
  set (d := Zdigits2 m + e) in *.
  set (E := fexp prec emax d) in *.
  set (n := E - e) in *.
  pose proof (Zdigits2_pos m Hm) as D.
  assert (HE : -1074 <= E /\ E <= 970).
  { subst E. rewrite fexp_eq. lia. }
  assert (Hn : 0 <= n) by lia.
  assert (H2n : 0 < 2 ^ n) by (apply Z.pow_pos_nonneg; lia).
  assert (Hm1 : (if 0 <? n then m / 2 ^ n else m) = m / 2 ^ n).
  { destruct (0 <? n) eqn:H0; [reflexivity|]. apply Z.ltb_ge in H0.
    replace n with 0 by lia. now rewrite Z.pow_0_r, Z.div_1_r. }
  assert (He1 : (if 0 <? n then e + n else e) = E).
  { destruct (0 <? n) eqn:H0; [lia|]. apply Z.ltb_ge in H0. lia. }
  rewrite Hm1 in Hm2. rewrite He1. clear Hm1 He1.
  assert (Hq0 : 0 <= m / 2 ^ n) by (apply Z.div_pos; lia).
  destruct m2 as [|p2|p2]; [now rewrite finish_zero| |lia].
  assert (HD2 : Zdigits2 (Z.pos p2) + E <= 1024).
  { destruct (Z.eq_dec (m / 2 ^ n) 0) as [Hq|Hq].
    - assert (Hp : Z.pos p2 = 1) by lia. rewrite Hp. simpl Zdigits2. lia.
    - assert (Hq1 : 1 <= m / 2 ^ n) by lia.
      pose proof (Zdigits2_div_pow2 m n Hm Hn Hq1) as Hdq.
      pose proof (Zdigits2_bounds (m / 2 ^ n) ltac:(lia)) as [_ Bq].
      pose proof (Zdigits2_pos (m / 2 ^ n) ltac:(lia)) as Dq.
      pose proof (Zdigits2_le (Z.pos p2) (2 ^ Zdigits2 (m / 2 ^ n))
                    ltac:(lia) ltac:(lia)) as Hle.
      rewrite Zdigits2_pow2 in Hle by lia. lia. }
  unfold finish.
  set (n2 := fexp prec emax (Zdigits2 (Z.pos p2) + E) - E).
  assert (Hn2 : E + n2 <= 971) by (subst n2; rewrite fexp_eq; lia).
  destruct (0 <? n2) eqn:H0.
  - destruct (Z.pos p2 / 2 ^ n2) as [|p3|p3]; try discriminate.
    now replace (E + n2 <=? 971) with true by (symmetry; apply Z.leb_le; lia).
  - now replace (E <=? 971) with true by (symmetry; apply Z.leb_le; lia).
Qed.

(** The order [SFcompare] reads on floats in canonical form is the order of
    their values. *)
Lemma lex_vle (m1 m2 : positive) (e1 e2 : Z) :
  canonical_mantissa prec emax m1 e1 = true ->
  canonical_mantissa prec emax m2 e2 = true ->
  e1 < e2 \/ (e2 = e1 /\ Z.pos m1 <= Z.pos m2) ->
  vle (Z.pos m1) e1 (Z.pos m2) e2.
Proof.
  intros H1 H2 Hlex.
  apply canonical_mantissa_eq in H1, H2. rewrite fexp_eq in H1, H2.
  apply (vle_iff e1); [lia|lia|]. rewrite Z.sub_diag, Z.pow_0_r, Z.mul_1_r.
  destruct Hlex as [Hlt|[-> Hle]].
  - pose proof (Zdigits2_bounds (Z.pos m1) ltac:(lia)) as [_ B1].
    pose proof (Zdigits2_bounds (Z.pos m2) ltac:(lia)) as [B2 _].
    assert (Hd2 : Zdigits2 (Z.pos m2) = 53) by lia. rewrite Hd2 in B2.
    assert (Hd1 : Z.pos m1 < 2 ^ 53).
    { apply Z.lt_le_trans with (2 ^ Zdigits2 (Z.pos m1)); [assumption|].
      apply Z.pow_le_mono_r; lia. }
    assert (H2e : 2 <= 2 ^ (e2 - e1)).
    { change 2 with (2 ^ 1) at 1. apply Z.pow_le_mono_r; lia. }
    apply Z.le_trans with (2 ^ (53 - 1) * 2); [|apply Z.mul_le_mono_nonneg; lia].
    change (2 ^ (53 - 1) * 2) with (2 ^ 53). lia.
  - rewrite Z.sub_diag, Z.pow_0_r. lia.
Qed.

Lemma vle_trans (m1 e1 m2 e2 m3 e3 : Z) :
  vle m1 e1 m2 e2 -> vle m2 e2 m3 e3 -> vle m1 e1 m3 e3.
Proof.
  intros H12 H23.
  set (k := Z.min e1 (Z.min e2 e3)).
  apply (vle_iff k) in H12; [|lia|lia]. apply (vle_iff k) in H23; [|lia|lia].
  apply (vle_iff k); [lia|lia|]. lia.
Qed.

Lemma vle_mul (a b c d ea eb ec ed : Z) :
  0 <= a -> 0 <= c -> vle a ea b eb -> vle c ec d ed ->
  vle (a * c) (ea + ec) (b * d) (eb + ed).
Proof.
  intros Ha Hc Hab Hcd. unfold vle in Hab, Hcd.
  set (k1 := Z.min ea eb) in *. set (k2 := Z.min ec ed) in *.
  apply (vle_iff (k1 + k2)); [lia|lia|].
  replace (ea + ec - (k1 + k2)) with (ea - k1 + (ec - k2)) by lia.
  replace (eb + ed - (k1 + k2)) with (eb - k1 + (ed - k2)) by lia.
  rewrite !Z.pow_add_r by lia.
  assert (0 <= 2 ^ (ea - k1)) by (apply Z.pow_nonneg; lia).
  assert (0 <= 2 ^ (ec - k2)) by (apply Z.pow_nonneg; lia).
  replace (a * c * (2 ^ (ea - k1) * 2 ^ (ec - k2)))
    with (a * 2 ^ (ea - k1) * (c * 2 ^ (ec - k2))) by ring.
  replace (b * d * (2 ^ (eb - k1) * 2 ^ (ed - k2)))
    with (b * 2 ^ (eb - k1) * (d * 2 ^ (ed - k2))) by ring.
  apply Z.mul_le_mono_nonneg; try assumption; apply Z.mul_nonneg_nonneg; lia.
Qed.

End Rounding.

(** ** Where the cells and their centres come from *)

Section Cells.

Lemma range_In (i n : Z) : In i (range n) <-> 0 <= i < n.
Proof.
  unfold range. rewrite in_map_iff. split.
  - intros (k & <- & Hk). apply in_seq in Hk. lia.
  - intros Hi. exists (Z.to_nat i). split; [lia|]. apply in_seq. lia.
Qed.

Lemma cells_In (i j c r : Z) :
  In (i, j) (cells c r) <-> 0 <= i < c /\ 0 <= j < r.
Proof.
  unfold cells. rewrite in_flat_map. split.
  - intros (i' & Hi & Hj). apply in_map_iff in Hj as (j' & Heq & Hj).
    inversion Heq; subst. now rewrite range_In in Hi, Hj.
  - intros [Hi Hj]. exists i. rewrite range_In. split; [assumption|].
    apply in_map. now rewrite range_In.
Qed.

Lemma map_result_In {A B} (f : A -> result B) (l : list A) (ys : list B) (y : B) :
  map_result f l = Ok ys -> In y ys -> exists x, In x l /\ f x = Ok y.
Proof.
  revert ys. induction l as [|x l IH]; intros ys; simpl.
  - intros [= <-] [].
  - destruct (f x) as [y0|e] eqn:Hx; simpl; [|discriminate].
    destruct (map_result f l) as [ys0|e]; simpl; [|discriminate].
    intros [= <-] [<-|Hin].
    + exists x. auto.
    + destruct (IH ys0 eq_refl Hin) as (x' & Hx' & Hf). exists x'. auto.
Qed.

(** Every returned position passed the room test and is the centre of a cell
    of the grid. *)
Lemma grid_member (L W s : float) (ps : list position) (p : position) :
  generate_detector_grid L W s = Ok ps -> In p ps ->
  in_room L W p = true /\
  exists qx cx qy cy i j,
    truediv L s = Ok qx /\ ceil qx = Ok cx /\
    truediv W s = Ok qy /\ ceil qy = Ok cy /\
    0 <= i < cx /\ 0 <= j < cy /\ candidate s i j = Ok p.
Proof.
  rewrite generate_detector_grid_generateGrid. unfold generateGrid.
  destruct (truediv L s) as [qx|e] eqn:Hqx; simpl; [|discriminate].
  destruct (ceil qx) as [cx|e] eqn:Hcx; simpl; [|discriminate].
  destruct (truediv W s) as [qy|e] eqn:Hqy; simpl; [|discriminate].
  destruct (ceil qy) as [cy|e] eqn:Hcy; simpl; [|discriminate].
  destruct (map_result _ (cells cx cy)) as [cs|e] eqn:Hcs; simpl; [|discriminate].
  intros [= <-] Hin. apply List.filter_In in Hin as [Hin Hroom].
  split; [assumption|].
  destruct (map_result_In _ _ _ _ Hcs Hin) as ([i j] & Hij & Hc).
  apply cells_In in Hij as [Hi Hj].
  exists qx, cx, qy, cy, i, j. simpl in Hc. auto 10.
Qed.

Lemma Zceil_scaled_nonpos (z e : Z) : z <= 0 -> Zceil_scaled z e <= 0.
Proof.
  intros Hz. unfold Zceil_scaled. destruct (0 <=? e) eqn:He.
  - apply Z.leb_le in He. nia.
  - apply Z.leb_gt in He.
    assert (0 <= - z / 2 ^ (- e)); [|lia].
    apply Z.div_pos; [lia|]. apply Z.pow_pos_nonneg; lia.
Qed.

Lemma Zceil_scaled_pos (z e : Z) : 0 < z -> 1 <= Zceil_scaled z e.
Proof.
  intros Hz. unfold Zceil_scaled. destruct (0 <=? e) eqn:He.
  - apply Z.leb_le in He.
    assert (0 < 2 ^ e) by (apply Z.pow_pos_nonneg; lia).
    change 1 with (1 * 1). apply Z.mul_le_mono_nonneg; lia.
  - apply Z.leb_gt in He.
    assert (H2 : 0 < 2 ^ (- e)) by (apply Z.pow_pos_nonneg; lia).
    assert (- z / 2 ^ (- e) < 0); [|lia].
    apply Z.div_lt_upper_bound; lia.
Qed.

(** A ceiling of at least one is the ceiling of a positive finite float. *)
Lemma ceil_ge_1 (q : float) (c : Z) :
  ceil q = Ok c -> 1 <= c -> exists m e, Prim2SF q = S754_finite false m e.
Proof.
  unfold ceil. destruct (Prim2SF q) as [b|b| |b m e]; try discriminate.
  - intros [= <-]. lia.
  - intros [= <-] Hc. destruct b.
    + change (cond_Zopp true (Z.pos m)) with (Z.neg m) in Hc.
      pose proof (Zceil_scaled_nonpos (Z.neg m) e ltac:(lia)). lia.
    + eauto.
Qed.

(** A finite non-zero quotient has a finite divisor. *)
Lemma div_finite_divisor (a b : float) (sq : bool) (mq : positive) (eq : Z) :
  Prim2SF (a / b) = S754_finite sq mq eq ->
  exists sb mb eb, Prim2SF b = S754_finite sb mb eb.
Proof.
  rewrite div_spec. unfold SF64div.
  destruct (Prim2SF a) as [sa|sa| |sa ma ea], (Prim2SF b) as [sb|sb| |sb mb eb];
    simpl; try discriminate.
  intros _. eauto.
Qed.

Lemma truediv_Ok (a b q : float) : truediv a b = Ok q -> q = (a / b)%float.
Proof. unfold truediv. destruct (b =? 0)%float; congruence. Qed.

Lemma float_of_int_nonneg (i : Z) (f : float) :
  0 <= i -> float_of_int i = Ok f -> sf_nonneg (Prim2SF f) = true.
Proof.
  intros Hi. unfold float_of_int.
  pose proof (binary_normalize_nonneg i 0 Hi) as Hn.
  destruct (binary_normalize prec emax i 0 false) as [b|b| |b m e] eqn:Hb;
    try discriminate; intros [= <-]; exact (SF2Prim_nonneg _ Hn).
Qed.

Lemma int_add_half_nonneg (i : Z) (a : float) :
  0 <= i -> int_add_float i 0.5 = Ok a -> sf_nonneg (Prim2SF a) = true.
Proof.
  intros Hi. unfold int_add_float.
  destruct (float_of_int i) as [f|e] eqn:Hf; simpl; [|discriminate].
  intros [= <-]. rewrite add_spec.
  apply SFadd_nonneg; [now apply (float_of_int_nonneg i)|reflexivity].
Qed.

(** With a positive finite spacing, the centre of a cell with non-negative
    indices has non-negative coordinates. *)
Lemma candidate_nonneg (s : float) (m : positive) (e i j : Z) (p : position) :
  Prim2SF s = S754_finite false m e -> 0 <= i -> 0 <= j ->
  candidate s i j = Ok p ->
  (0 <=? fst p)%float = true /\ (0 <=? snd p)%float = true.
Proof.
  intros Hs Hi Hj. unfold candidate.
  destruct (int_add_float i 0.5) as [a|ea] eqn:Ha; simpl; [|discriminate].
  destruct (int_add_float j 0.5) as [b|eb] eqn:Hb; simpl; [|discriminate].
  intros [= <-]. simpl. rewrite !leb_0_l, !mul_spec, Hs. unfold SF64mul.
  split; apply SFmul_nonneg_finite.
  - now apply (int_add_half_nonneg i).
  - now apply (int_add_half_nonneg j).
Qed.

(** When the grid has a column, the spacing is finite. *)
Lemma positive_spacing_finite (L s qx : float) (cx : Z) :
  (0 <? s)%float = true -> truediv L s = Ok qx -> ceil qx = Ok cx -> 1 <= cx ->
  exists m e, Prim2SF s = S754_finite false m e.
Proof.
  intros Hs Hq Hc Hcx. apply truediv_Ok in Hq. subst qx.
  destruct (ceil_ge_1 _ _ Hc Hcx) as (mq & eq & Hq).
  destruct (div_finite_divisor _ _ _ _ _ Hq) as (sb & mb & eb & Hb).
  rewrite ltb_0_l, Hb in Hs. destruct sb; [discriminate|]. eauto.
Qed.

End Cells.

(** ** One export cycle, entry by entry *)

Section Cycle.

Variables L W : float.

Lemma kept_or_recomputed_refl (l : list entry) :
  Forall2 (kept_or_recomputed L W) l l.
Proof. induction l; constructor; [now left | assumption]. Qed.

Lemma walk_kept_or_recomputed (l : list entry) (pos : list position) :
  Forall2 (kept_or_recomputed L W) l (fst (walk L W l pos)).
Proof.
  revert pos. induction l as [|it rest IH]; intros pos; simpl; [constructor|].
  assert (Hskip : forall p,
    Forall2 (kept_or_recomputed L W) (it :: rest)
      (fst (let '(rest', r) := walk L W rest p in (it :: rest', r)))).
  { intros p. specialize (IH p). destruct (walk L W rest p). simpl in *.
    constructor; [now left | assumption]. }
  destruct (spacing it) as [s|] eqn:Hsp; [|apply Hskip].
  destruct (truthy (Some s)) eqn:Ht; [|apply Hskip].
  destruct (generate_detector_grid L W s) as [grid|e];
    [|apply kept_or_recomputed_refl].
  destruct (calculate_detector_quantity L W s) as [qty|e] eqn:Hq;
    [|apply kept_or_recomputed_refl].
  specialize (IH (pos ++ grid)).
  destruct (walk L W rest (pos ++ grid)). simpl in *.
  constructor; [|assumption]. right. exists s, qty. auto.
Qed.

Lemma walk_recomputed (l : list entry) (pos : list position) :
  is_ok (snd (walk L W l pos)) = true ->
  Forall2 (recomputed L W) l (fst (walk L W l pos)).
Proof.
  revert pos. induction l as [|it rest IH]; intros pos; simpl; [constructor|].
  unfold recomputed at 1.
  destruct (spacing it) as [s|] eqn:Hsp.
  - destruct (truthy (Some s)) eqn:Ht.
    + destruct (generate_detector_grid L W s) as [grid|e]; [|discriminate].
      destruct (calculate_detector_quantity L W s) as [qty|e] eqn:Hq;
        [|discriminate].
      specialize (IH (pos ++ grid)).
      destruct (walk L W rest (pos ++ grid)). simpl in *. intros Hok.
      constructor; [|auto]. unfold recomputed. rewrite Hsp, Ht. eauto.
    + specialize (IH pos). destruct (walk L W rest pos). simpl in *.
      intros Hok. constructor; [|auto]. unfold recomputed. now rewrite Hsp, Ht.
  - specialize (IH pos). destruct (walk L W rest pos). simpl in *.
    intros Hok. constructor; [|auto]. unfold recomputed. now rewrite Hsp.
Qed.

Lemma drawn_exports (r : result (list position)) (b : list position -> list boq_row) :
  drawn (detector_positions <- r ;;
         Ok {| boq := b detector_positions;
               layout := generate_dxf L W detector_positions |}) = r.
Proof.
  destruct r as [ps|e]; [|reflexivity]. unfold drawn. simpl.
  rewrite map_map. simpl. now rewrite map_id.
Qed.

Lemma generate_outputs_fst (l : list entry) :
  fst (generate_outputs L W l) = fst (walk L W l []).
Proof. rewrite generate_outputs_walk. now destruct (walk L W l []). Qed.

Lemma generate_outputs_drawn (l : list entry) :
  drawn (snd (generate_outputs L W l)) = snd (walk L W l []).
Proof.
  rewrite generate_outputs_walk. destruct (walk L W l []) as [l' r]. simpl.
  apply (drawn_exports r (fun _ => generate_boq l')).
Qed.

Lemma generate_outputs_is_ok (l : list entry) :
  is_ok (snd (generate_outputs L W l)) = is_ok (snd (walk L W l [])).
Proof.
  rewrite generate_outputs_walk. destruct (walk L W l []) as [l' r]. simpl.
  now destruct r.
Qed.

Lemma generate_outputs_idem (l : list entry) :
  generate_outputs L W (fst (generate_outputs L W l)) = generate_outputs L W l.
Proof.
  rewrite generate_outputs_fst, !generate_outputs_walk, walk_idem.
  reflexivity.
Qed.

(** The run on a ledger with a false-spacing entry is the run on the ledger
    without it: same drawing, same other entries, the entry itself back in
    its place. *)
Lemma generate_outputs_falsy (pre post : list entry) (it : entry) :
  truthy (spacing it) = false ->
  fst (generate_outputs L W (pre ++ it :: post)) =
    take (length pre) (fst (generate_outputs L W (pre ++ post))) ++
    it :: drop (length pre) (fst (generate_outputs L W (pre ++ post))) /\
  drawn (snd (generate_outputs L W (pre ++ it :: post))) =
    drawn (snd (generate_outputs L W (pre ++ post))).
Proof.
  intros Hf. rewrite !generate_outputs_fst, !generate_outputs_drawn.
  rewrite (walk_falsy L W pre post it [] Hf).
  now destruct (walk L W (pre ++ post) []).
Qed.

Lemma lookup_put_back (pre post l0 : list entry) (it : entry) :
  length l0 = length (pre ++ post) ->
  (take (length pre) l0 ++ it :: drop (length pre) l0) !! length pre = Some it.
Proof.
  intros Hlen. rewrite length_app in Hlen.
  rewrite lookup_app_r; rewrite length_take; [|lia].
  replace (length pre - length pre `min` length l0)%nat with 0%nat by lia.
  reflexivity.
Qed.

End Cycle.

(** ** Signs of products and quotients, zero divisors, empty ranges *)

Section Quotients.

Lemma leb_0_r (x : float) : (x <=? 0)%float = sf_nonpos (Prim2SF x).
Proof.
  rewrite FloatAxioms.leb_spec. change (Prim2SF 0) with (S754_zero false).
  destruct (Prim2SF x) as [b|b| |b m e]; try destruct b; reflexivity.
Qed.

Lemma SFdiv_core_binary_nonneg (m1 m2 : positive) (e1 e2 : Z) :
  0 <= fst (fst (SFdiv_core_binary prec emax (Z.pos m1) e1 (Z.pos m2) e2)).
Proof.
  unfold SFdiv_core_binary.
  set (sh := e1 - e2 - _).
  set (m' := match sh with Z.pos _ => Z.shiftl (Z.pos m1) sh | Z0 => Z.pos m1
             | Z.neg _ => 0 end).
  assert (Hm' : 0 <= m').
  { subst m'. destruct sh; try lia. apply Z.shiftl_nonneg. lia. }
  destruct (Z.div_eucl m' (Z.pos m2)) as [q r] eqn:Hd. simpl.
  assert (Hq : q = m' / Z.pos m2) by (unfold Z.div; now rewrite Hd).
  subst q. apply Z.div_pos; lia.
Qed.

(** Dividing by a positive float keeps the sign of the dividend, unless the
    quotient is NaN. *)
Lemma SFdiv_by_pos (sx : bool) (x y : spec_float) :
  sf_has_sign sx x = true -> sf_pos y = true ->
  SFdiv prec emax x y = S754_nan \/
  sf_has_sign sx (SFdiv prec emax x y) = true.
Proof.
  destruct x as [bx|bx| |bx mx ex], y as [by_|by_| |by_ my ey];
    try destruct by_; simpl; try discriminate; auto.
  - intros H _. right. now rewrite xorb_false_r.
  - intros H _. right. rewrite xorb_false_r.
    apply Bool.eqb_prop in H. subst bx.
    pose proof (SFdiv_core_binary_nonneg mx my ex ey) as Hq.
    destruct (SFdiv_core_binary prec emax (Z.pos mx) ex (Z.pos my) ey)
      as [[mz ez] lz].
    now apply binary_round_aux_sign.
Qed.

Lemma SFmul_pos_pos (x y : spec_float) :
  sf_pos x = true -> sf_pos y = true -> sf_nonneg (SFmul prec emax x y) = true.
Proof.
  destruct x as [bx|bx| |bx mx ex], y as [by_|by_| |by_ my ey];
    try destruct bx; try destruct by_; simpl; try discriminate; auto.
  intros _ _. apply binary_round_aux_nonneg. lia.
Qed.

Lemma ceil_nonpos (q : float) (c : Z) :
  sf_nonpos (Prim2SF q) = true -> ceil q = Ok c -> c <= 0.
Proof.
  unfold ceil. destruct (Prim2SF q) as [b|b| |b m e]; try discriminate.
  - intros _ [= <-]. lia.
  - destruct b; [|discriminate]. intros _ [= <-].
    apply Zceil_scaled_nonpos. simpl. lia.
Qed.

(** The count along a non-positive dimension is not positive. *)
Lemma count_nonpos (d s q : float) (c : Z) :
  (d <=? 0)%float = true -> (0 <? s)%float = true ->
  truediv d s = Ok q -> ceil q = Ok c -> c <= 0.
Proof.
  rewrite leb_0_r, ltb_0_l, <- sf_has_sign_nonpos. intros Hd Hs Hq Hc.
  apply truediv_Ok in Hq. subst q.
  apply (ceil_nonpos (d / s)%float c); [|assumption].
  rewrite <- sf_has_sign_nonpos, div_spec. unfold SF64div.
  destruct (SFdiv_by_pos true _ _ Hd Hs) as [Hnan|Hsign]; [|assumption].
  unfold ceil in Hc. rewrite div_spec in Hc. unfold SF64div in Hc.
  rewrite Hnan in Hc. discriminate.
Qed.

Lemma range_nonpos (n : Z) : n <= 0 -> range n = [].
Proof.
  intros Hn. unfold range. now replace (Z.to_nat n) with 0%nat by lia.
Qed.

Lemma for_each_no_rows (L W s : float) (li : list Z) (acc : list position) :
  for_each li (fun i => for_each [] (grid_cell L W s i)) acc = Ok acc.
Proof. induction li as [|i li IH]; simpl; auto. Qed.

(** With a positive spacing and a non-positive room dimension the grid, when
    it is returned, is empty. *)
Lemma grid_empty_nonpos_dimension (L W s : float) (ps : list position) :
  (L <=? 0)%float || (W <=? 0)%float = true -> (0 <? s)%float = true ->
  generate_detector_grid L W s = Ok ps -> ps = [].
Proof.
  intros Hdim Hs. unfold generate_detector_grid.
  destruct (truediv L s) as [qx|e] eqn:Hqx; simpl; [|discriminate].
  destruct (ceil qx) as [cx|e] eqn:Hcx; simpl; [|discriminate].
  destruct (truediv W s) as [qy|e] eqn:Hqy; simpl; [|discriminate].
  destruct (ceil qy) as [cy|e] eqn:Hcy; simpl; [|discriminate].
  apply orb_prop in Hdim as [HL|HW].
  - rewrite (range_nonpos cx (count_nonpos _ _ _ _ HL Hs Hqx Hcx)). simpl.
    now intros [= <-].
  - rewrite (range_nonpos cy (count_nonpos _ _ _ _ HW Hs Hqy Hcy)).
    rewrite for_each_no_rows. now intros [= <-].
Qed.

Lemma truediv_zero (a b : float) :
  (b =? 0)%float = true -> truediv a b = Raise ZeroDivisionError.
Proof. intros Hb. unfold truediv. now rewrite Hb. Qed.

Lemma square_zero (s : float) :
  (s =? 0)%float = true -> (s * s =? 0)%float = true.
Proof.
  rewrite !eqb_0_r, mul_spec. unfold SF64mul.
  now destruct (Prim2SF s) as [b|b| |b m e].
Qed.

(** The ceiling, in exact arithmetic. *)
Lemma Zceil_scaled_spec (z e : Z) :
  (inject_Z (Zceil_scaled z e - 1) < inject_Z z * Qpower 2 e)%Q /\
  (inject_Z z * Qpower 2 e <= inject_Z (Zceil_scaled z e))%Q.
Proof.
  unfold Zceil_scaled. destruct (0 <=? e) eqn:He.
  - apply Z.leb_le in He.
    assert (Hv : (inject_Z z * Qpower 2 e == inject_Z (z * 2 ^ e))%Q).
    { rewrite inject_Z_mult, (Zpower_Qpower 2 e He). reflexivity. }
    rewrite Hv. rewrite <- Zlt_Qlt, <- Zle_Qle. lia.
  - apply Z.leb_gt in He.
    set (K := 2 ^ (- e)).
    assert (HK : 0 < K) by (apply Z.pow_pos_nonneg; lia).
    assert (Hp : (Qpower 2 e == / inject_Z K)%Q).
    { replace e with (- - e) at 1 by lia. rewrite Qpower_opp.
      unfold K. rewrite (Zpower_Qpower 2 (- e)) by lia. reflexivity. }
    rewrite Hp.
    assert (HKq : (0 < inject_Z K)%Q).
    { change (inject_Z 0 < inject_Z K)%Q. now rewrite <- Zlt_Qlt. }
    pose proof (Z.div_mod (- z) K ltac:(lia)) as Hdm.
    pose proof (Z.mod_pos_bound (- z) K HK) as Hmod.
    split.
    + apply Qlt_shift_div_l; [assumption|].
      rewrite <- inject_Z_mult, <- Zlt_Qlt. nia.
    + apply Qle_shift_div_r; [assumption|].
      rewrite <- inject_Z_mult, <- Zle_Qle. nia.
Qed.

End Quotients.

(** ** The centre of the first cell is the least coordinate *)

Section FirstCentre.

Lemma Prim2SF_half : Prim2SF 0.5 = sf_half.
Proof. reflexivity. Qed.

(** A finite primitive float is in canonical form and bounded. *)
Lemma finite_valid (x : float) (b : bool) (m : positive) (e : Z) :
  Prim2SF x = S754_finite b m e ->
  canonical_mantissa prec emax m e = true /\ e <= 971.
Proof.
  intros Hx. pose proof (Prim2SF_valid x) as Hv. rewrite Hx in Hv.
  simpl in Hv. unfold bounded in Hv. apply andb_prop in Hv as [Hc Hb].
  split; [assumption|]. apply Z.leb_le in Hb. exact Hb.
Qed.

Lemma SFleb_finite_above (m : positive) (e : Z) (z : spec_float) :
  SFleb (S754_finite false m e) z = true -> sf_above m e z.
Proof.
  unfold SFleb, SFcompare.
  destruct z as [b|b| |b mz ez]; try destruct b; try discriminate.
  - intros _. now left.
  - intros H. right. exists mz, ez. split; [reflexivity|].
    destruct (Z.compare_spec e ez) as [Heq|Hlt|Hgt]; try discriminate.
    + right. split; [lia|].
      change (Pos.compare_cont Eq m mz) with (Pos.compare m mz) in H.
      change ((m ?= mz)%positive <> Gt).
      destruct (m ?= mz)%positive; congruence.
    + left. assumption.
Qed.

(** The order [SFleb] reads from a float below [(ms, es)], through one above
    it, to any float above that one. *)
Lemma SFleb_chain (ms : positive) (es : Z) (x y z : spec_float) :
  sf_below ms es x -> sf_above ms es y -> SFleb y z = true ->
  SFleb x z = true.
Proof.
  intros Hx Hy Hyz.
  assert (Hz : sf_above ms es z).
  { destruct Hy as [->|(m3 & e3 & -> & Hy)].
    - left. destruct z as [b|b| |b mz ez]; try destruct b; try discriminate.
      reflexivity.
    - apply SFleb_finite_above in Hyz.
      destruct Hyz as [->|(mz & ez & -> & Hz)]; [now left|].
      right. exists mz, ez. split; [reflexivity|]. lia. }
  destruct Hx as [[b ->]|(mx & ex & -> & Hx)].
  - destruct Hz as [->|(mz & ez & -> & _)]; reflexivity.
  - apply sf_above_leb.
    destruct Hz as [->|(mz & ez & -> & Hz)]; [now left|].
    right. exists mz, ez. split; [reflexivity|]. lia.
Qed.

Lemma pos_mul_Z (a b : positive) : Z.pos (a * b) = Z.pos a * Z.pos b.
Proof. reflexivity. Qed.

(** Half of a positive finite float is not above it. *)
Lemma half_mul_below (s : float) (ms : positive) (es : Z) :
  Prim2SF s = S754_finite false ms es ->
  sf_below ms es (Prim2SF (0.5 * s)).
Proof.
  intros Hs. destruct (finite_valid s _ _ _ Hs) as [Hcan Hes].
  rewrite mul_spec, Hs, Prim2SF_half. unfold SF64mul, sf_half. simpl SFmul.
  pose proof (Zdigits2_pos (Z.pos ms) ltac:(lia)) as Ds.
  assert (Hm : Z.pos (4503599627370496 * ms) = Z.pos ms * 2 ^ 52).
  { rewrite pos_mul_Z. change (2 ^ 52) with 4503599627370496. lia. }
  apply round_upper_bound; try assumption; try lia.
  - rewrite Hm, Zdigits2_mul_pow2 by lia. rewrite fexp_eq. lia.
  - apply (vle_iff (-53 + es)); [lia|lia|].
    rewrite Hm, Z.sub_diag, Z.pow_0_r.
    replace (es - (-53 + es)) with 53 by lia.
    change (2 ^ 52) with 4503599627370496.
    change (2 ^ 53) with 9007199254740992. lia.
Qed.

Lemma canonical_one : canonical_mantissa prec emax mantissa_one (-52) = true.
Proof. reflexivity. Qed.

(** A float in canonical form that is not below 1 has a full mantissa and an
    exponent from -52 on. *)
Lemma above_one_mantissa (ma : positive) (ea : Z) :
  canonical_mantissa prec emax ma ea = true ->
  sf_above mantissa_one (-52) (S754_finite false ma ea) ->
  2 ^ 52 <= Z.pos ma /\ -52 <= ea.
Proof.
  intros Hcan [Hinf|(m3 & e3 & [= <- <-] & H)]; [discriminate|].
  change (2 ^ 52) with 4503599627370496.
  destruct H as [H|[-> H]]; [|unfold mantissa_one in H; lia].
  split; [|lia].
  apply canonical_mantissa_eq in Hcan. rewrite fexp_eq in Hcan.
  pose proof (Zdigits2_bounds (Z.pos ma) ltac:(lia)) as [Bl _].
  replace (Zdigits2 (Z.pos ma)) with 53 in Bl by lia. exact Bl.
Qed.

(** A positive finite float times a float not below 1 is not below the
    float. *)
Lemma mul_above (a s : float) (ms : positive) (es : Z) :
  Prim2SF s = S754_finite false ms es ->
  sf_above mantissa_one (-52) (Prim2SF a) ->
  sf_above ms es (Prim2SF (a * s)).
Proof.
  intros Hs Ha. destruct (finite_valid s _ _ _ Hs) as [Hcan Hes].
  rewrite mul_spec, Hs. unfold SF64mul.
  destruct (Prim2SF a) as [b|b| |b ma ea] eqn:HA.
  - destruct Ha as [Ha|(? & ? & Ha & _)]; discriminate.
  - destruct Ha as [[= ->]|(? & ? & Ha & _)]; [|discriminate]. now left.
  - destruct Ha as [Ha|(? & ? & Ha & _)]; discriminate.
  - assert (b = false) as ->.
    { destruct Ha as [Ha|(? & ? & Ha & _)]; [discriminate|]. congruence. }
    destruct (finite_valid a _ _ _ HA) as [Hcana _].
    destruct (above_one_mantissa ma ea Hcana Ha) as [Hma Hea].
    simpl SFmul. apply round_lower_bound; [assumption|lia|].
    apply (vle_iff (es - 52)); [lia|lia|].
    rewrite pos_mul_Z.
    replace (es - (es - 52)) with 52 by lia.
    replace (ea + es - (es - 52)) with (ea + 52) by lia.
    assert (1 <= 2 ^ (ea + 52)).
    { change 1 with (2 ^ 0). apply Z.pow_le_mono_r; lia. }
    apply Z.le_trans with (Z.pos ma * Z.pos ms * 1).
    + rewrite Z.mul_1_r, (Z.mul_comm (Z.pos ma)).
      apply Z.mul_le_mono_nonneg_l; lia.
    + apply Z.mul_le_mono_nonneg_l; lia.
Qed.

(** The float of an integer from 1 on is not below 1. *)
Lemma float_of_int_above_one (i : Z) (f : float) :
  1 <= i -> float_of_int i = Ok f ->
  sf_above mantissa_one (-52) (Prim2SF f).
Proof.
  intros Hi. unfold float_of_int.
  destruct i as [|p|p]; try lia. simpl binary_normalize.
  pose proof (binary_round_valid false p 0) as Hv.
  assert (Hab : sf_above mantissa_one (-52) (binary_round prec emax false p 0)).
  { apply binary_round_above; [apply canonical_one|].
    apply (vle_iff (-52)); [lia|lia|].
    rewrite Z.sub_diag, Z.pow_0_r. unfold mantissa_one.
    change (2 ^ (0 - -52)) with 4503599627370496. lia. }
  destruct (binary_round prec emax false p 0) as [b|b| |b m e] eqn:Hb;
    try discriminate; intros [= <-].
  - destruct Hab as [Ha|(? & ? & Ha & _)]; discriminate.
  - destruct Hab as [Ha|(? & ? & Ha & _)]; discriminate.
  - change (sf_above mantissa_one (-52)
              (Prim2SF (SF2Prim (S754_finite b m e)))).
    rewrite (Prim2SF_SF2Prim _ Hv). exact Hab.
Qed.

(** An integer from 1 on plus 0.5 is not below 1. *)
Lemma int_add_half_above_one (i : Z) (a : float) :
  1 <= i -> int_add_float i 0.5 = Ok a ->
  sf_above mantissa_one (-52) (Prim2SF a).
Proof.
  intros Hi. unfold int_add_float.
  destruct (float_of_int i) as [f|e] eqn:Hf; simpl; [|discriminate].
  intros [= <-].
  pose proof (float_of_int_above_one i f Hi Hf) as Hab.
  rewrite add_spec, Prim2SF_half. unfold SF64add, sf_half.
  destruct (Prim2SF f) as [b|b| |b mf ef] eqn:HF.
  - destruct Hab as [Ha|(? & ? & Ha & _)]; discriminate.
  - destruct Hab as [[= ->]|(? & ? & Ha & _)]; [|discriminate]. now left.
  - destruct Hab as [Ha|(? & ? & Ha & _)]; discriminate.
  - assert (b = false) as ->.
    { destruct Hab as [Ha|(? & ? & Ha & _)]; [discriminate|]. congruence. }
    destruct (finite_valid f _ _ _ HF) as [Hcanf _].
    destruct (above_one_mantissa mf ef Hcanf Hab) as [Hmf Hef].
    cbn [SFadd cond_Zopp].
    replace (Z.min ef (-53)) with (-53) by lia.
    destruct (shl_align_spec mf ef (-53)) as [_ H1].
    destruct (shl_align_spec 4503599627370496 (-53) (-53)) as [_ H2].
    replace (Z.min ef (-53)) with (-53) in H1 by lia.
    change (Z.min (-53) (-53)) with (-53) in H2.
    change (2 ^ (-53 - -53)) with 1 in H2.
    set (m1 := fst (shl_align mf ef (-53))) in *.
    set (m2 := fst (shl_align 4503599627370496 (-53) (-53))) in *.
    change (Z.pos m1 + Z.pos m2) with (Z.pos (m1 + m2)).
    cbn [binary_normalize].
    apply binary_round_above; [apply canonical_one|].
    apply (vle_iff (-53)); [lia|lia|].
    rewrite Z.sub_diag, Z.pow_0_r, Pos2Z.inj_add, H1, H2.
    unfold mantissa_one. change (2 ^ (-52 - -53)) with 2.
    assert (H2e : 2 <= 2 ^ (ef - -53)).
    { change 2 with (2 ^ 1) at 1. apply Z.pow_le_mono_r; lia. }
    change (2 ^ 52) with 4503599627370496 in Hmf.
    assert (4503599627370496 * 2 <= Z.pos mf * 2 ^ (ef - -53)); [|lia].
    apply Z.mul_le_mono_nonneg; lia.
Qed.

Lemma int_add_half_0 : int_add_float 0 0.5 = Ok 0.5%float.
Proof. reflexivity. Qed.

(** With a positive finite spacing, a room that holds the coordinate of any
    cell holds the coordinate of the first one. *)
Lemma first_centre_least (s a d : float) (ms : positive) (es i : Z) :
  Prim2SF s = S754_finite false ms es -> 0 <= i ->
  int_add_float i 0.5 = Ok a ->
  (a * s <=? d)%float = true -> (0.5 * s <=? d)%float = true.
Proof.
  intros Hs Hi Ha.
  destruct (Z.eq_dec i 0) as [->|Hne].
  - rewrite int_add_half_0 in Ha. now injection Ha as <-.
  - rewrite !FloatAxioms.leb_spec. apply (SFleb_chain ms es).
    + now apply half_mul_below.
    + apply mul_above; [assumption|].
      apply (int_add_half_above_one i); [lia|assumption].
Qed.

Lemma range_head (n : Z) : 1 <= n -> exists tl, range n = 0 :: tl.
Proof.
  intros Hn. unfold range.
  destruct (Z.to_nat n) as [|k] eqn:Hk; [lia|].
  simpl. eauto.
Qed.

Lemma cells_head (c r : Z) :
  1 <= c -> 1 <= r -> exists tl, cells c r = (0, 0) :: tl.
Proof.
  intros Hc Hr. unfold cells.
  destruct (range_head c Hc) as [tc ->]. destruct (range_head r Hr) as [tr ->].
  simpl. eauto.
Qed.

End FirstCentre.

(** ** A room that holds the first centre has a column and a row *)

Section FirstCount.

(** Among floats in canonical form, the order [SFcompare] reads goes with the
    magnitude. *)
Lemma above_magnitude (mt ml : positive) (et el : Z) :
  canonical_mantissa prec emax mt et = true ->
  canonical_mantissa prec emax ml el = true ->
  sf_above mt et (S754_finite false ml el) ->
  Zdigits2 (Z.pos mt) + et <= Zdigits2 (Z.pos ml) + el.
Proof.
  intros Ht Hl [Hinf|(m3 & e3 & [= <- <-] & H)]; [discriminate|].
  apply canonical_mantissa_eq in Ht, Hl. rewrite fexp_eq in Ht, Hl.
  destruct H as [H|[-> H]].
  - lia.
  - pose proof (Zdigits2_le (Z.pos mt) (Z.pos ml) ltac:(lia) H). lia.
Qed.

(** The power of two [2^k], from the least positive float on, in canonical
    form. *)
Lemma canonical_pow2 (k : Z) :
  -1074 <= k ->
  exists (mt : positive) (et : Z),
    canonical_mantissa prec emax mt et = true /\
    Zdigits2 (Z.pos mt) + et = k + 1 /\
    et <= k /\ Z.pos mt = 2 ^ (k - et).
Proof.
  intros Hk. set (et := Z.max (k - 52) (-1074)).
  assert (Hp : 0 < 2 ^ (k - et)) by (apply Z.pow_pos_nonneg; lia).
  exists (Z.to_pos (2 ^ (k - et))), et.
  rewrite Z2Pos.id by assumption.
  rewrite Zdigits2_pow2 by lia.
  repeat split; try lia.
  unfold canonical_mantissa. apply Z.eqb_eq.
  change (Z.pos (digits2_pos (Z.to_pos (2 ^ (k - et)))))
    with (Zdigits2 (Z.pos (Z.to_pos (2 ^ (k - et))))).
  rewrite Z2Pos.id by assumption.
  rewrite Zdigits2_pow2 by lia. rewrite fexp_eq. lia.
Qed.

(** A finite room dimension that holds half of the spacing is at most two
    binades below the spacing. *)
Lemma first_centre_magnitude (s d : float) (ms md : positive) (es ed : Z) :
  Prim2SF s = S754_finite false ms es ->
  Prim2SF d = S754_finite false md ed ->
  (0.5 * s <=? d)%float = true ->
  Zdigits2 (Z.pos ms) + es - 2 <= Zdigits2 (Z.pos md) + ed.
Proof.
  intros Hs Hd Hle.
  destruct (finite_valid s _ _ _ Hs) as [Hcs _].
  destruct (finite_valid d _ _ _ Hd) as [Hcd _].
  pose proof (Zdigits2_pos (Z.pos md) ltac:(lia)) as Dd.
  pose proof (Zdigits2_bounds (Z.pos ms) ltac:(lia)) as [Bs _].
  pose proof (Zdigits2_pos (Z.pos ms) ltac:(lia)) as Ds.
  pose proof (canonical_mantissa_eq _ _ Hcd) as Hed. rewrite fexp_eq in Hed.
  pose proof (canonical_mantissa_eq _ _ Hcs) as Hes. rewrite fexp_eq in Hes.
  destruct (Z_le_gt_dec (Zdigits2 (Z.pos ms) + es) (-1071)) as [Hsmall|Hbig];
    [lia|].
  set (k := Zdigits2 (Z.pos ms) + es - 2).
  destruct (canonical_pow2 k ltac:(lia)) as (mt & et & Hct & Hmag & Het & Hmt).
  assert (Hab : sf_above mt et (Prim2SF (0.5 * s))).
  { rewrite mul_spec, Hs, Prim2SF_half. unfold SF64mul, sf_half. simpl SFmul.
    apply round_lower_bound; [assumption|lia|].
    set (k0 := Z.min et (-53 + es)).
    apply (vle_iff k0); [lia|lia|].
    rewrite Hmt, <- Z.pow_add_r by lia.
    replace (k - et + (et - k0)) with (k - k0) by lia.
    rewrite pos_mul_Z. change 4503599627370496 with (2 ^ 52).
    apply Z.le_trans
      with (2 ^ 52 * 2 ^ (Zdigits2 (Z.pos ms) - 1) * 2 ^ (-53 + es - k0)).
    - rewrite <- !Z.pow_add_r by lia. apply Z.pow_le_mono_r; lia.
    - apply Z.mul_le_mono_nonneg_r; [apply Z.pow_nonneg; lia|].
      apply Z.mul_le_mono_nonneg_l; [lia|assumption]. }
  rewrite FloatAxioms.leb_spec, Hd in Hle.
  assert (Hd_above : sf_above mt et (S754_finite false md ed)).
  { destruct Hab as [Hinf|(m3 & e3 & H3 & Hcmp)].
    - rewrite Hinf in Hle. discriminate.
    - rewrite H3 in Hle. apply SFleb_finite_above in Hle.
      destruct Hle as [Hinf|(m4 & e4 & [= <- <-] & Hcmp')]; [discriminate|].
      right. exists md, ed. split; [reflexivity|]. lia. }
  pose proof (above_magnitude mt md et ed Hct Hcd Hd_above). lia.
Qed.

(** The integer quotient and exponent the division rounds, when the dividend
    is not more than 1021 binades below the divisor. *)
Lemma div_core_shape (md ms : positive) (ed es : Z) :
  canonical_mantissa prec emax md ed = true ->
  canonical_mantissa prec emax ms es = true ->
  -1021 <= Zdigits2 (Z.pos md) + ed - (Zdigits2 (Z.pos ms) + es) ->
  exists q r,
    SFdiv_core_binary prec emax (Z.pos md) ed (Z.pos ms) es =
      (q, Zdigits2 (Z.pos md) + ed - (Zdigits2 (Z.pos ms) + es) - 53,
       new_location (Z.pos ms) r) /\
    2 ^ 52 <= q < 2 ^ 54.
Proof.
  intros Hcd Hcs Hmag.
  apply canonical_mantissa_eq in Hcs, Hcd. rewrite fexp_eq in Hcs, Hcd.
  pose proof (Zdigits2_pos (Z.pos md) ltac:(lia)) as Dd.
  pose proof (Zdigits2_pos (Z.pos ms) ltac:(lia)) as Ds.
  pose proof (Zdigits2_bounds (Z.pos md) ltac:(lia)) as [Bdl Bdu].
  pose proof (Zdigits2_bounds (Z.pos ms) ltac:(lia)) as [Bsl Bsu].
  unfold SFdiv_core_binary.
  set (e' := Z.min _ (ed - es)).
  assert (He' : e' = Zdigits2 (Z.pos md) + ed - (Zdigits2 (Z.pos ms) + es) - 53).
  { subst e'. rewrite fexp_eq. lia. }
  set (sh := ed - es - e').
  assert (Hsh : sh = 53 - Zdigits2 (Z.pos md) + Zdigits2 (Z.pos ms)) by lia.
  assert (Hsh1 : 1 <= sh) by lia.
  destruct sh as [|psh|psh] eqn:Hsheq; try lia.
  rewrite <- Hsheq in *. clear Hsheq psh.
  rewrite Z.shiftl_mul_pow2 by lia.
  set (m' := Z.pos md * 2 ^ sh).
  assert (Hlo : 2 ^ 52 * 2 ^ Zdigits2 (Z.pos ms) <= m').
  { subst m'. rewrite <- Z.pow_add_r by lia.
    apply Z.le_trans with (2 ^ (Zdigits2 (Z.pos md) - 1) * 2 ^ sh).
    - rewrite <- Z.pow_add_r by lia. apply Z.pow_le_mono_r; lia.
    - apply Z.mul_le_mono_nonneg_r; [apply Z.pow_nonneg; lia|assumption]. }
  assert (Hhi : m' < 2 ^ 54 * 2 ^ (Zdigits2 (Z.pos ms) - 1)).
  { subst m'. rewrite <- Z.pow_add_r by lia.
    apply Z.lt_le_trans with (2 ^ Zdigits2 (Z.pos md) * 2 ^ sh).
    - apply Z.mul_lt_mono_pos_r; [apply Z.pow_pos_nonneg; lia|assumption].
    - rewrite <- Z.pow_add_r by lia. apply Z.pow_le_mono_r; lia. }
  destruct (Z.div_eucl m' (Z.pos ms)) as [q r] eqn:Hdiv.
  assert (Hq : q = m' / Z.pos ms) by (unfold Z.div; now rewrite Hdiv).
  exists q, r. rewrite He'. split; [reflexivity|]. subst q. split.
  - apply Z.div_le_lower_bound; [lia|].
    apply Z.le_trans with (2 ^ 52 * 2 ^ Zdigits2 (Z.pos ms)); [|assumption].
    rewrite Z.mul_comm. apply Z.mul_le_mono_nonneg_l; [apply Z.pow_nonneg|]; lia.
  - apply Z.div_lt_upper_bound; [lia|].
    apply Z.lt_le_trans with (2 ^ 54 * 2 ^ (Zdigits2 (Z.pos ms) - 1)); [assumption|].
    rewrite Z.mul_comm. apply Z.mul_le_mono_nonneg_r; [apply Z.pow_nonneg|]; lia.
Qed.

(** The quotient of two positive finite floats, the dividend not more than
    1021 binades below the divisor, is not rounded to zero. *)
Lemma div_not_zero (d s : float) (md ms : positive) (ed es : Z) :
  Prim2SF d = S754_finite false md ed ->
  Prim2SF s = S754_finite false ms es ->
  -1021 <= Zdigits2 (Z.pos md) + ed - (Zdigits2 (Z.pos ms) + es) ->
  sf_pos (Prim2SF (d / s)) = true.
Proof.
  intros Hd Hs Hmag.
  destruct (finite_valid s _ _ _ Hs) as [Hcs _].
  destruct (finite_valid d _ _ _ Hd) as [Hcd _].
  rewrite div_spec, Hd, Hs. unfold SF64div. cbn [SFdiv xorb].
  destruct (div_core_shape md ms ed es Hcd Hcs Hmag) as (q & r & -> & Hq52 & _).
  set (e' := Zdigits2 (Z.pos md) + ed - (Zdigits2 (Z.pos ms) + es) - 53).
  assert (Hq1 : 1 <= q).
  { assert (1 <= 2 ^ 52) by (change 1 with (2 ^ 0); apply Z.pow_le_mono_r; lia).
    lia. }
  assert (Hab : sf_above 1 (-1074)
                  (binary_round_aux prec emax false q e'
                     (new_location (Z.pos ms) r))).
  { apply round_lower_bound; [reflexivity|lia|].
    apply (vle_iff (-1074)); [lia|lia|].
    rewrite Z.sub_diag, Z.pow_0_r.
    assert (1 <= 2 ^ (e' - -1074)).
    { change 1 with (2 ^ 0) at 1. apply Z.pow_le_mono_r; lia. }
    change (Z.pos 1 * 1) with (1 * 1). apply Z.mul_le_mono_nonneg; lia. }
  destruct Hab as [->|(m3 & e3 & -> & _)]; reflexivity.
Qed.

(** The quotient of two positive finite floats whose magnitudes differ by at
    most 1021 binades is a positive finite float. *)
Lemma div_pos_finite (d s : float) (md ms : positive) (ed es : Z) :
  Prim2SF d = S754_finite false md ed ->
  Prim2SF s = S754_finite false ms es ->
  -1021 <= Zdigits2 (Z.pos md) + ed - (Zdigits2 (Z.pos ms) + es) <= 1021 ->
  exists m e, Prim2SF (d / s) = S754_finite false m e.
Proof.
  intros Hd Hs [Hlo Hhi].
  pose proof (div_not_zero d s md ms ed es Hd Hs Hlo) as Hpos.
  destruct (finite_valid s _ _ _ Hs) as [Hcs _].
  destruct (finite_valid d _ _ _ Hd) as [Hcd _].
  rewrite div_spec, Hd, Hs in Hpos |- *. unfold SF64div in *.
  cbn [SFdiv xorb] in Hpos |- *.
  destruct (div_core_shape md ms ed es Hcd Hcs Hlo) as (q & r & Hcore & Hq52 & Hq54).
  rewrite Hcore in Hpos |- *.
  set (e' := Zdigits2 (Z.pos md) + ed - (Zdigits2 (Z.pos ms) + es) - 53) in *.
  assert (Hq0 : 0 < q).
  { assert (0 < 2 ^ 52) by (apply Z.pow_pos_nonneg; lia). lia. }
  assert (Hdq : 53 <= Zdigits2 q <= 54).
  { split.
    - pose proof (Zdigits2_le (2 ^ 52) q ltac:(apply Z.pow_pos_nonneg; lia) Hq52) as H.
      rewrite Zdigits2_pow2 in H by lia. lia.
    - pose proof (Zdigits2_le q (2 ^ 54) Hq0 ltac:(lia)) as H.
      rewrite Zdigits2_pow2 in H by lia.
      destruct (Z.eq_dec (Zdigits2 q) 55) as [H55|]; [|lia].
      pose proof (Zdigits2_bounds q Hq0) as [Bl _]. rewrite H55 in Bl.
      change (2 ^ (55 - 1)) with (2 ^ 54) in Bl. lia. }
  pose proof (binary_round_aux_not_inf q e' (new_location (Z.pos ms) r) false Hq0)
    as Hfin.
  destruct (binary_round_aux prec emax false q e' (new_location (Z.pos ms) r))
    as [b|b| |b m e]; try destruct b; try discriminate.
  - exfalso. apply Hfin; [rewrite fexp_eq; lia|lia|reflexivity].
  - eauto.
Qed.

(** For a positive room dimension and a positive finite spacing: when the
    dimension holds the first centre and the count is defined, the count is
    at least one. *)
Lemma first_centre_count (d s q : float) (c : Z) (ms : positive) (es : Z) :
  (0 <? d)%float = true ->
  Prim2SF s = S754_finite false ms es ->
  (0.5 * s <=? d)%float = true ->
  truediv d s = Ok q -> ceil q = Ok c -> 1 <= c.
Proof.
  intros Hd Hs Hle Hq Hc. apply truediv_Ok in Hq. subst q.
  rewrite ltb_0_l in Hd.
  destruct (Prim2SF d) as [b|b| |b md ed] eqn:HD; try discriminate.
  - (* an infinite dimension: the count is not defined *)
    unfold ceil in Hc. rewrite div_spec, HD, Hs in Hc.
    destruct b; discriminate.
  - destruct b; [discriminate|].
    pose proof (first_centre_magnitude s d ms md es ed Hs HD Hle) as Hmag.
    pose proof (div_not_zero d s md ms ed es HD Hs ltac:(lia)) as Hpos.
    unfold ceil in Hc.
    destruct (Prim2SF (d / s)) as [b|b| |b m e]; try discriminate.
    destruct b; [discriminate|]. injection Hc as <-.
    apply Zceil_scaled_pos. simpl. lia.
Qed.

End FirstCount.

(** ** Inside the grid no conversion overflows *)

Section Total.

Lemma canonical_max : canonical_mantissa prec emax mantissa_max 971 = true.
Proof. reflexivity. Qed.

(** A count is at most the largest finite float. *)
Lemma count_le_max (q : float) (c : Z) : ceil q = Ok c -> c <= max_float_int.
Proof.
  unfold ceil. destruct (Prim2SF q) as [b|b| |b m e] eqn:Hq; try discriminate.
  - intros [= <-]. unfold max_float_int.
    assert (0 < 2 ^ 971) by (apply Z.pow_pos_nonneg; lia). lia.
  - intros [= <-].
    destruct (finite_valid q _ _ _ Hq) as [Hcan He].
    apply canonical_mantissa_eq in Hcan. rewrite fexp_eq in Hcan.
    pose proof (Zdigits2_bounds (Z.pos m) ltac:(lia)) as [_ Bu].
    assert (Hm : Z.pos m <= Z.pos mantissa_max).
    { assert (Z.pos m < 2 ^ 53); [|unfold mantissa_max;
        change (2 ^ 53) with 9007199254740992 in *; lia].
      apply Z.lt_le_trans with (2 ^ Zdigits2 (Z.pos m)); [assumption|].
      apply Z.pow_le_mono_r; lia. }
    assert (H971 : 1 <= 2 ^ 971).
    { change 1 with (2 ^ 0). apply Z.pow_le_mono_r; lia. }
    destruct b.
    + pose proof (Zceil_scaled_nonpos (Z.neg m) e ltac:(lia)) as Hn.
      change (cond_Zopp true (Z.pos m)) with (Z.neg m).
      unfold max_float_int. nia.
    + change (cond_Zopp false (Z.pos m)) with (Z.pos m).
      unfold Zceil_scaled, max_float_int. destruct (0 <=? e) eqn:H0.
      * apply Z.leb_le in H0. apply Z.mul_le_mono_nonneg; try lia.
        apply Z.pow_le_mono_r; lia.
      * apply Z.leb_gt in H0.
        assert (H2 : 0 < 2 ^ (- e)) by (apply Z.pow_pos_nonneg; lia).
        assert (Hdiv : - Z.pos m <= - Z.pos m / 2 ^ (- e)).
        { apply Z.div_le_lower_bound; [assumption|].
          assert (1 <= 2 ^ (- e)).
          { change 1 with (2 ^ 0). apply Z.pow_le_mono_r; lia. }
          nia. }
        apply Z.le_trans with (Z.pos mantissa_max * 1); [lia|].
        apply Z.mul_le_mono_nonneg_l; lia.
Qed.

(** Up to the largest finite float, [float(i)] does not overflow. *)
Lemma float_of_int_Ok (i : Z) :
  0 <= i <= max_float_int -> float_of_int i = Ok (float_of_int_rounded i).
Proof.
  intros [H0 Hmax]. unfold float_of_int, float_of_int_rounded.
  destruct i as [|p|p]; [reflexivity| |lia]. simpl binary_normalize.
  assert (Hb : sf_below mantissa_max 971 (binary_round prec emax false p 0)).
  { apply binary_round_below; [apply canonical_max|lia|].
    apply (vle_iff 0); [lia|lia|].
    rewrite Z.sub_0_r, Z.pow_0_r, Z.mul_1_r. exact Hmax. }
  destruct Hb as [[b ->]|(m3 & e3 & -> & _)]; reflexivity.
Qed.

Lemma candidate_centre (s : float) (i j cx cy : Z) (qx qy : float) :
  ceil qx = Ok cx -> ceil qy = Ok cy -> 0 <= i < cx -> 0 <= j < cy ->
  candidate s i j = Ok (centre s (i, j)).
Proof.
  intros Hcx Hcy Hi Hj.
  pose proof (count_le_max qx cx Hcx). pose proof (count_le_max qy cy Hcy).
  unfold candidate, int_add_float, centre.
  rewrite (float_of_int_Ok i), (float_of_int_Ok j) by lia. reflexivity.
Qed.

Lemma map_result_total {A B} (f : A -> result B) (g : A -> B) (l : list A) :
  (forall x, In x l -> f x = Ok (g x)) -> map_result f l = Ok (map g l).
Proof.
  induction l as [|x l IH]; intros H; simpl; [reflexivity|].
  rewrite (H x (or_introl eq_refl)). simpl.
  rewrite IH by (intros y Hy; apply H; now right). reflexivity.
Qed.

(** When both counts are defined, the grid is returned. *)
Lemma generate_detector_grid_returns (L W s : float) (cx cy : Z) :
  (qx <- truediv L s ;; ceil qx) = Ok cx ->
  (qy <- truediv W s ;; ceil qy) = Ok cy ->
  generate_detector_grid L W s =
    Ok (List.filter (in_room L W) (map (centre s) (cells cx cy))).
Proof.
  intros Hx Hy. rewrite generate_detector_grid_generateGrid. unfold generateGrid.
  destruct (truediv L s) as [qx|e]; simpl in Hx |- *; [|discriminate].
  rewrite Hx. simpl.
  destruct (truediv W s) as [qy|e]; simpl in Hy |- *; [|discriminate].
  rewrite Hy. simpl.
  rewrite (map_result_total _ (centre s)); [reflexivity|].
  intros [i j] Hin. apply cells_In in Hin as [Hi Hj]. simpl.
  now apply (candidate_centre s i j cx cy qx qy).
Qed.

End Total.

(** ** The spacing rule on rooms and spacings of ordinary size *)

Section Ordinary.

Lemma ordinary_finite (x : float) :
  ordinary x = true ->
  exists m e,
    Prim2SF x = S754_finite false m e /\
    vle (Z.pos mantissa_one) (-302) (Z.pos m) e /\
    vle (Z.pos m) e (Z.pos mantissa_one) 198 /\
    2 ^ 52 <= Z.pos m.
Proof.
  unfold ordinary. intros H. apply andb_prop in H as [Hlo Hhi].
  rewrite FloatAxioms.leb_spec in Hlo, Hhi.
  change (Prim2SF f2_m250) with (S754_finite false mantissa_one (-302)) in Hlo.
  change (Prim2SF f2_250) with (S754_finite false mantissa_one 198) in Hhi.
  apply SFleb_finite_above in Hlo.
  destruct Hlo as [Hinf|(m & e & Hx & Hlex)].
  - rewrite Hinf in Hhi. discriminate.
  - rewrite Hx in Hhi. apply SFleb_finite_above in Hhi.
    destruct Hhi as [Hinf|(m' & e' & [= <- <-] & Hlex')]; [discriminate|].
    destruct (finite_valid x _ _ _ Hx) as [Hcan _].
    exists m, e. split; [assumption|].
    split; [apply lex_vle; auto|].
    split; [apply lex_vle; auto|].
    apply canonical_mantissa_eq in Hcan. rewrite fexp_eq in Hcan.
    pose proof (Zdigits2_bounds (Z.pos m) ltac:(lia)) as [Bl _].
    replace (Zdigits2 (Z.pos m)) with 53 in Bl by lia. exact Bl.
Qed.

(** The product of two floats of ordinary size is a positive finite float
    between [2^-500] and [2^500]. *)
Lemma mul_ordinary (x y : float) :
  ordinary x = true -> ordinary y = true ->
  exists m e,
    Prim2SF (x * y) = S754_finite false m e /\
    -499 <= Zdigits2 (Z.pos m) + e <= 501.
Proof.
  intros Hx Hy.
  destruct (ordinary_finite x Hx) as (mx & ex & HX & Hxl & Hxh & Hmx).
  destruct (ordinary_finite y Hy) as (my & ey & HY & Hyl & Hyh & Hmy).
  assert (Hprod : 2 ^ 52 <= Z.pos mx * Z.pos my).
  { apply Z.le_trans with (2 ^ 52 * 1); [lia|].
    apply Z.mul_le_mono_nonneg; lia. }
  pose proof (Zdigits2_le (2 ^ 52) (Z.pos mx * Z.pos my)
                ltac:(apply Z.pow_pos_nonneg; lia) Hprod) as Hdig.
  rewrite Zdigits2_pow2 in Hdig by lia.
  assert (Hab : sf_above mantissa_one (-552) (Prim2SF (x * y))).
  { rewrite mul_spec, HX, HY. unfold SF64mul. simpl SFmul.
    apply round_lower_bound; [reflexivity|lia|].
    apply vle_trans
      with (Z.pos mantissa_one * Z.pos mantissa_one) (-302 + -302).
    - apply (vle_iff (-604)); [lia|lia|]. vm_compute. discriminate.
    - rewrite pos_mul_Z. apply vle_mul; auto; lia. }
  assert (Hbe : sf_below mantissa_one 448 (Prim2SF (x * y))).
  { rewrite mul_spec, HX, HY. unfold SF64mul. simpl SFmul.
    apply round_upper_bound; [reflexivity|lia|lia| |].
    - rewrite pos_mul_Z, fexp_eq. lia.
    - apply vle_trans
        with (Z.pos mantissa_one * Z.pos mantissa_one) (198 + 198).
      + rewrite pos_mul_Z. apply vle_mul; auto; lia.
      + apply (vle_iff 396); [lia|lia|]. vm_compute. discriminate. }
  destruct Hbe as [[b Hz]|(m & e & Hp & Hlex)].
  - rewrite Hz in Hab. destruct Hab as [Hab|(? & ? & Hab & _)]; discriminate.
  - exists m, e. split; [assumption|].
    destruct (finite_valid (x * y) _ _ _ Hp) as [Hcan _].
    rewrite Hp in Hab.
    pose proof (above_magnitude mantissa_one m (-552) e eq_refl Hcan Hab) as Hlo.
    assert (Hhi' : sf_above m e (S754_finite false mantissa_one 448)).
    { right. exists mantissa_one, 448. split; [reflexivity|]. lia. }
    pose proof (above_magnitude m mantissa_one e 448 Hcan eq_refl Hhi') as Hhi.
    change (Zdigits2 (Z.pos mantissa_one)) with 53 in Hlo, Hhi. lia.
Qed.

(** For a room and a spacing of ordinary size the quantity is defined and at
    least one. *)
Lemma quantity_ordinary (L W s : float) :
  ordinary L = true -> ordinary W = true -> ordinary s = true ->
  exists n, calculate_detector_quantity L W s = Ok n /\ 1 <= n.
Proof.
  intros HL HW Hs.
  destruct (mul_ordinary L W HL HW) as (ma & ea & Harea & Hma).
  destruct (mul_ordinary s s Hs Hs) as (mc & ec & Hcov & Hmc).
  unfold calculate_detector_quantity, truediv.
  rewrite eqb_0_r, Hcov. simpl.
  destruct (div_pos_finite _ _ ma mc ea ec Harea Hcov ltac:(lia)) as (m & e & Hq).
  unfold ceil. rewrite Hq.
  exists (Zceil_scaled (Z.pos m) e). split; [reflexivity|].
  apply Zceil_scaled_pos. lia.
Qed.

Lemma ordinary_magnitude (x : float) :
  ordinary x = true ->
  exists m e,
    Prim2SF x = S754_finite false m e /\
    -249 <= Zdigits2 (Z.pos m) + e <= 251.
Proof.
  unfold ordinary. intros H. apply andb_prop in H as [Hlo Hhi].
  rewrite FloatAxioms.leb_spec in Hlo, Hhi.
  change (Prim2SF f2_m250) with (S754_finite false mantissa_one (-302)) in Hlo.
  change (Prim2SF f2_250) with (S754_finite false mantissa_one 198) in Hhi.
  apply SFleb_finite_above in Hlo.
  destruct Hlo as [Hinf|(m & e & Hx & Hlex)].
  - rewrite Hinf in Hhi. discriminate.
  - rewrite Hx in Hhi. apply SFleb_finite_above in Hhi.
    destruct (finite_valid x _ _ _ Hx) as [Hcan _].
    exists m, e. split; [assumption|].
    assert (Hlo' : sf_above mantissa_one (-302) (S754_finite false m e)).
    { right. exists m, e. auto. }
    pose proof (above_magnitude mantissa_one m (-302) e eq_refl Hcan Hlo') as H1.
    pose proof (above_magnitude m mantissa_one e 198 Hcan eq_refl Hhi) as H2.
    change (Zdigits2 (Z.pos mantissa_one)) with 53 in H1, H2. lia.
Qed.

(** For a room dimension and a spacing of ordinary size the count is defined
    and at least one. *)
Lemma count_ordinary (d s : float) :
  ordinary d = true -> ordinary s = true ->
  exists c, (q <- truediv d s ;; ceil q) = Ok c /\ 1 <= c.
Proof.
  intros Hd Hs.
  destruct (ordinary_magnitude d Hd) as (md & ed & HD & Hmd).
  destruct (ordinary_magnitude s Hs) as (ms & es & HS & Hms).
  unfold truediv. rewrite eqb_0_r, HS. simpl.
  destruct (div_pos_finite _ _ md ms ed es HD HS ltac:(lia)) as (m & e & Hq).
  unfold ceil. rewrite Hq.
  exists (Zceil_scaled (Z.pos m) e). split; [reflexivity|].
  apply Zceil_scaled_pos. lia.
Qed.

Lemma generate_detector_grid_ordinary (L W s : float) :
  ordinary L = true -> ordinary W = true -> ordinary s = true ->
  exists ps, generate_detector_grid L W s = Ok ps.
Proof.
  intros HL HW Hs.
  destruct (count_ordinary L s HL Hs) as (cx & Hcx & _).
  destruct (count_ordinary W s HW Hs) as (cy & Hcy & _).
  eexists. apply (generate_detector_grid_returns L W s cx cy Hcx Hcy).
Qed.

End Ordinary.

(** * The claims *)

(** ** Grid generation *)

(** C4, as the code has it: [generate_detector_grid] computes the
    specification's grid, for all arguments: the candidates
    [((i + 0.5) * spacing, (j + 0.5) * spacing)] for the columns [i] in
    [[0, ceil(roomLength / spacing))] (outer) and the rows [j] in
    [[0, ceil(roomWidth / spacing))] (inner), filtered, in that order, by
    [x <= roomLength] and [y <= roomWidth].  Whenever the two counts are
    defined the call returns, and returns exactly the centres that pass the
    test, none clamped.  When a count is not defined (the quotient is
    infinite or NaN) the call raises the exception of the first count that
    is not, and returns nothing.  For a room and a spacing between [2^-250]
    and [2^250] the counts are defined, and at least 1.  The cells of 2
    columns and 3 rows come in the order (0,0), (0,1), (0,2), (1,0), (1,1),
    (1,2). *)
Theorem grid_enumerates_and_filters (roomLength roomWidth spacing : float) :
  generate_detector_grid roomLength roomWidth spacing =
    generateGrid roomLength roomWidth spacing /\
  (forall columnCount rowCount : Z,
     (qx <- truediv roomLength spacing ;; ceil qx) = Ok columnCount ->
     (qy <- truediv roomWidth spacing ;; ceil qy) = Ok rowCount ->
     generate_detector_grid roomLength roomWidth spacing =
       Ok (List.filter (in_room roomLength roomWidth)
             (map (centre spacing) (cells columnCount rowCount)))) /\
  (forall e : exn,
     (qx <- truediv roomLength spacing ;; ceil qx) = Raise e ->
     generate_detector_grid roomLength roomWidth spacing = Raise e) /\
  (forall (columnCount : Z) (e : exn),
     (qx <- truediv roomLength spacing ;; ceil qx) = Ok columnCount ->
     (qy <- truediv roomWidth spacing ;; ceil qy) = Raise e ->
     generate_detector_grid roomLength roomWidth spacing = Raise e) /\
  (ordinary roomLength = true -> ordinary roomWidth = true ->
   ordinary spacing = true ->
   exists columnCount rowCount : Z,
     1 <= columnCount /\ 1 <= rowCount /\
     (qx <- truediv roomLength spacing ;; ceil qx) = Ok columnCount /\
     (qy <- truediv roomWidth spacing ;; ceil qy) = Ok rowCount) /\
  cells 2 3 = [ (0, 0); (0, 1); (0, 2); (1, 0); (1, 1); (1, 2) ].
Proof.
  split; [apply generate_detector_grid_generateGrid|].
  split; [intros cx cy; apply generate_detector_grid_returns|].
  split.
  { intros e. unfold generate_detector_grid.
    destruct (truediv roomLength spacing) as [qx|e0]; cbn [bind];
      [|now intros [= ->]].
    now intros ->. }
  split.
  { intros cx e. unfold generate_detector_grid.
    destruct (truediv roomLength spacing) as [qx|e0]; cbn [bind];
      [|discriminate].
    intros ->. cbn [bind].
    destruct (truediv roomWidth spacing) as [qy|e1]; cbn [bind];
      [|now intros [= ->]].
    now intros ->. }
  split; [|reflexivity].
  intros HL HW Hs.
  destruct (count_ordinary roomLength spacing HL Hs) as (cx & Hcx & Hcx1).
  destruct (count_ordinary roomWidth spacing HW Hs) as (cy & Hcy & Hcy1).
  exists cx, cy. auto.
Qed.

Lemma grid_enumerates_and_filters_witness :
  generate_detector_grid 20 10 5 =
    Ok (List.filter (in_room 20 10) (map (centre 5) (cells 4 2))) /\
  List.filter (in_room 20 10) (map (centre 5) (cells 4 2)) =
    [ (2.5, 2.5); (2.5, 7.5); (7.5, 2.5); (7.5, 7.5);
      (12.5, 2.5); (12.5, 7.5); (17.5, 2.5); (17.5, 7.5) ]%float.
Proof.
  split.
  - apply (proj1 (proj2 (grid_enumerates_and_filters 20 10 5)) 4 2);
      vm_compute; reflexivity.
  - vm_compute. reflexivity.
Defined.

(** C4, as the claim has it, fails: a room [2^1000] long and 1 wide with a
    spacing of [2^-1000] has three finite, positive arguments; the quotient
    of the length by the spacing is infinite, the count of columns is not
    defined, and the call raises [OverflowError] instead of returning the
    candidates that pass the test. *)
Lemma grid_raises_on_infinite_quotient :
  (0 <? f2_1000)%float = true /\ (0 <? 1)%float = true /\
  (0 <? f2_m1000)%float = true /\
  sf_finite (Prim2SF f2_1000) = true /\ sf_finite (Prim2SF f2_m1000) = true /\
  (f2_1000 / f2_m1000)%float = infinity /\
  generate_detector_grid f2_1000 1 f2_m1000 = Raise OverflowError.
Proof. repeat split; vm_compute; reflexivity. Qed.

(** C5: for a positive room and a positive spacing, every position the grid
    returns has [0 <= x <= roomLength] and [0 <= y <= roomWidth].  For a room
    and a spacing between [2^-250] and [2^250] the grid is returned. *)
Theorem grid_positions_in_room
    (roomLength roomWidth spacing : float) (ps : list position) (x y : float) :
  ((0 <? roomLength)%float = true ->
   (0 <? roomWidth)%float = true ->
   (0 <? spacing)%float = true ->
   generate_detector_grid roomLength roomWidth spacing = Ok ps ->
   In (x, y) ps ->
   (0 <=? x)%float = true /\ (x <=? roomLength)%float = true /\
   (0 <=? y)%float = true /\ (y <=? roomWidth)%float = true) /\
  (ordinary roomLength = true -> ordinary roomWidth = true ->
   ordinary spacing = true ->
   exists ps' : list position,
     generate_detector_grid roomLength roomWidth spacing = Ok ps').
Proof.
  split; [|apply generate_detector_grid_ordinary].
  intros _ _ Hs Hgrid Hin.
  destruct (grid_member _ _ _ _ _ Hgrid Hin)
    as (Hroom & qx & cx & qy & cy & i & j & Hqx & Hcx & _ & _ & Hi & Hj & Hc).
  unfold in_room in Hroom. simpl in Hroom.
  apply andb_prop in Hroom as [Hx Hy].
  assert (Hcx1 : 1 <= cx) by lia.
  destruct (positive_spacing_finite _ _ _ _ Hs Hqx Hcx Hcx1) as (m & e & Hm).
  destruct (candidate_nonneg _ _ _ i j (x, y) Hm) as [H0x H0y];
    [lia | lia | exact Hc |].
  simpl in H0x, H0y. auto.
Qed.

Lemma grid_positions_in_room_witness :
  ((0 <=? f4_55)%float = true /\ (f4_55 <=? 10)%float = true /\
   (0 <=? f4_55)%float = true /\ (f4_55 <=? 10)%float = true) /\
  (exists ps' : list position, generate_detector_grid 10 10 f9_1 = Ok ps').
Proof.
  split.
  - apply (proj1 (grid_positions_in_room 10 10 f9_1 [(f4_55, f4_55)] f4_55 f4_55));
      [reflexivity | reflexivity | reflexivity | vm_compute; reflexivity
      | left; reflexivity].
  - apply (proj2 (grid_positions_in_room 10 10 f9_1 [] 0 0)); reflexivity.
Defined.

(** C6: scenario 3.  For a 10 x 10 room and spacing 9.1 there are 2 columns
    and 2 rows; the four candidates are (4.55, 4.55), (4.55, 13.65),
    (13.65, 4.55), (13.65, 13.65), where 4.55 and 13.65 stand for the binary64
    values of [0.5 * 9.1] and [1.5 * 9.1], within [10^-14] of the decimals;
    the three candidates with a coordinate above 10 are discarded; the grid
    returns exactly 1 position while the quantity rule returns 2. *)
Theorem scenario_3 :
  (qx <- truediv 10 f9_1 ;; ceil qx) = Ok 2 /\
  map_result (fun c => candidate f9_1 (fst c) (snd c)) (cells 2 2) =
    Ok [ (f4_55, f4_55); (f4_55, f13_65); (f13_65, f4_55); (f13_65, f13_65) ] /\
  (Qabs (float_val f4_55 - (455 # 100)) < 1 # 10 ^ 14)%Q /\
  (Qabs (float_val f13_65 - (1365 # 100)) < 1 # 10 ^ 14)%Q /\
  (f4_55 <=? 10)%float = true /\ (f13_65 <=? 10)%float = false /\
  List.filter (in_room 10 10)
    [ (f4_55, f4_55); (f4_55, f13_65); (f13_65, f4_55); (f13_65, f13_65) ] =
    [ (f4_55, f4_55) ] /\
  generate_detector_grid 10 10 f9_1 = Ok [ (f4_55, f4_55) ] /\
  length [ (f4_55, f4_55) ] = 1%nat /\
  calculate_detector_quantity 10 10 f9_1 = Ok 2.
Proof.
  repeat split; vm_compute; reflexivity.
Qed.

(** ** The ledger *)

(** C7: in every run of [generate_outputs], an entry without a spacing is
    left as it is, its quantity included (so an entry added with the default
    quantity 1 still has quantity 1), and contributes no position: the ledger
    and the drawing are those of the run on the ledger without the entry, with
    the entry back in its place. *)
Theorem entry_without_spacing_untouched
    (length width : float) (before after : list entry) (it : entry) :
  spacing it = None ->
  let '(items', r) := generate_outputs length width (before ++ it :: after) in
  let '(items0, r0) := generate_outputs length width (before ++ after) in
  items' !! List.length before = Some it /\
  quantity <$> items' !! List.length before = Some (quantity it) /\
  items' =
    take (List.length before) items0 ++ it :: drop (List.length before) items0 /\
  drawn r = drawn r0.
Proof.
  intros Hsp.
  assert (Hf : truthy (spacing it) = false) by now rewrite Hsp.
  destruct (generate_outputs_falsy length width before after it Hf) as [H1 H2].
  pose proof (generate_outputs_fst length width (before ++ after)) as Hlen.
  apply (f_equal (@List.length entry)) in Hlen. rewrite walk_length in Hlen.
  destruct (generate_outputs length width (before ++ it :: after)) as [items' r].
  destruct (generate_outputs length width (before ++ after)) as [items0 r0].
  simpl in *. subst items'.
  rewrite (lookup_put_back before after items0 it Hlen). auto.
Qed.

Lemma entry_without_spacing_untouched_witness :
  let it := {| name := "Sounder"; quantity := 1; nfpa := "NFPA 72";
               spacing := None |} in
  add_item sounder (add_item point_smoke_detector []) =
    add_item point_smoke_detector [] ++ [it] /\
  let '(items', r) :=
    generate_outputs 10 10 (add_item point_smoke_detector [] ++ [it]) in
  let '(items0, r0) :=
    generate_outputs 10 10 (add_item point_smoke_detector [] ++ []) in
  items' !! 1%nat = Some it /\
  quantity <$> items' !! 1%nat = Some 1 /\
  items' = take 1 items0 ++ it :: drop 1 items0 /\
  drawn r = drawn r0.
Proof.
  split; [reflexivity|].
  apply (entry_without_spacing_untouched 10 10
           (add_item point_smoke_detector []) []
           {| name := "Sounder"; quantity := 1; nfpa := "NFPA 72";
              spacing := None |}).
  reflexivity.
Defined.

(** C8: running [generate_outputs] a second time, with the same room, on the
    ledger the first run left gives the same ledger (hence the same
    quantities) and the same result: the same positions and files, or the
    same exception. *)
Theorem generate_outputs_twice (length width : float) (items : list entry) :
  let '(items1, r1) := generate_outputs length width items in
  generate_outputs length width items1 = (items1, r1).
Proof.
  pose proof (generate_outputs_idem length width items) as H.
  destruct (generate_outputs length width items) as [items1 r1]. exact H.
Qed.

(** C10: an entry whose spacing is a zero is handled as an entry without
    spacing: the run gives the very result (files or exception) of the run
    with the spacing removed from the entry, the entry is left as it is, and
    the ledger and drawing are those of the run on the ledger without it. *)
Theorem entry_with_zero_spacing_skipped
    (length width : float) (before after : list entry) (it : entry) (z : float) :
  spacing it = Some z -> (z =? 0)%float = true ->
  let '(items', r) := generate_outputs length width (before ++ it :: after) in
  let '(itemsN, rN) :=
    generate_outputs length width (before ++ without_spacing it :: after) in
  let '(items0, r0) := generate_outputs length width (before ++ after) in
  r = rN /\
  items' !! List.length before = Some it /\
  items' =
    take (List.length before) items0 ++ it :: drop (List.length before) items0 /\
  itemsN =
    take (List.length before) items0 ++
    without_spacing it :: drop (List.length before) items0 /\
  drawn r = drawn r0.
Proof.
  intros Hsp Hz.
  assert (Hf : truthy (spacing it) = false).
  { rewrite Hsp. unfold truthy. now rewrite Hz. }
  assert (HfN : truthy (spacing (without_spacing it)) = false) by reflexivity.
  pose proof (generate_outputs_walk length width (before ++ it :: after)) as E1.
  pose proof (generate_outputs_walk length width
                (before ++ without_spacing it :: after)) as E2.
  pose proof (generate_outputs_walk length width (before ++ after)) as E0.
  rewrite (walk_falsy length width before after it [] Hf) in E1.
  rewrite (walk_falsy length width before after _ [] HfN) in E2.
  pose proof (walk_length length width (before ++ after) []) as Hlen.
  destruct (walk length width (before ++ after) []) as [l0 rw].
  rewrite E1, E2, E0. simpl in Hlen.
  split; [|split; [|split; [|split]]].
  - f_equal. f_equal. unfold generate_boq. now rewrite !map_app.
  - apply (lookup_put_back before after l0 it Hlen).
  - reflexivity.
  - reflexivity.
  - rewrite (drawn_exports length width rw (fun _ => generate_boq _)).
    now rewrite (drawn_exports length width rw (fun _ => generate_boq l0)).
Qed.

Lemma entry_with_zero_spacing_skipped_witness :
  let it := {| name := "Probe"; quantity := 4; nfpa := "NFPA 72";
               spacing := Some 0%float |} in
  let '(items', r) :=
    generate_outputs 10 10 (add_item point_smoke_detector [] ++ it :: []) in
  let '(itemsN, rN) :=
    generate_outputs 10 10
      (add_item point_smoke_detector [] ++ without_spacing it :: []) in
  let '(items0, r0) :=
    generate_outputs 10 10 (add_item point_smoke_detector [] ++ []) in
  r = rN /\
  items' !! 1%nat = Some it /\
  items' = take 1 items0 ++ it :: drop 1 items0 /\
  itemsN = take 1 items0 ++ without_spacing it :: drop 1 items0 /\
  drawn r = drawn r0.
Proof.
  apply (entry_with_zero_spacing_skipped 10 10
           (add_item point_smoke_detector []) []
           {| name := "Probe"; quantity := 4; nfpa := "NFPA 72";
              spacing := Some 0%float |} 0%float);
    reflexivity.
Defined.

(** C3, as the code has it: a run with [roomWidth = -1] is not refused.
    Whatever the ledger, each entry is afterwards as it was or has the
    quantity the spacing rule gives for a width of -1; when the arithmetic
    raises nothing the run completes, every entry with a true spacing has
    that quantity, and the others are as they were.  For a 10 m long room and
    one point smoke detector, the run completes and the quantity becomes 0. *)
Theorem negative_width_is_computed (length : float) (items : list entry) :
  (let '(items', r) := generate_outputs length (-1) items in
   Forall2 (kept_or_recomputed length (-1)) items items' /\
   (is_ok r = true -> Forall2 (recomputed length (-1)) items items')) /\
  generate_outputs 10 (-1) (add_item point_smoke_detector []) =
    ([ {| name := "Point Smoke Detector"; quantity := 0; nfpa := "NFPA 72";
          spacing := Some f9_1 |} ],
     Ok {| boq := [ ("Point Smoke Detector", 0, "NFPA 72") ];
           layout := generate_dxf 10 (-1) [] |}).
Proof.
  split; [|vm_compute; reflexivity].
  pose proof (generate_outputs_fst length (-1) items) as Hfst.
  pose proof (generate_outputs_is_ok length (-1) items) as Hok.
  destruct (generate_outputs length (-1) items) as [items' r].
  simpl in Hfst, Hok. subst items'. split.
  - apply walk_kept_or_recomputed.
  - rewrite Hok. apply walk_recomputed.
Qed.

(** C3, as the claim has it, fails: the run with width -1 on a ledger holding
    one point smoke detector signals no failure and changes the quantity
    from 1 to 0. *)
Lemma negative_width_not_refused :
  let items := add_item point_smoke_detector [] in
  let '(items', r) := generate_outputs 10 (-1) items in
  is_ok r = true /\ items' <> items /\
  quantity <$> items !! 0%nat = Some 1 /\
  quantity <$> items' !! 0%nat = Some 0.
Proof.
  vm_compute. repeat split; try reflexivity. discriminate.
Qed.

(** ** The spacing rule and the missing validation *)

(** C1, as the code has it: for a positive room and spacing,
    [calculate_detector_quantity] evaluates the quotient
    [(roomLength * roomWidth) / (spacing * spacing)] in binary64 arithmetic.
    When [spacing * spacing] is not zero and the quotient [q] is finite, it
    returns the least integer not below [q]; that integer is never negative,
    and it is at least 1 exactly when [q] is positive.  When the room
    dimensions and the spacing all lie between [2^-250] and [2^250], the
    quantity is defined and at least 1. *)
Theorem quantity_is_ceiling_of_float_quotient
    (roomLength roomWidth spacing : float) :
  let q := ((roomLength * roomWidth) / (spacing * spacing))%float in
  ((0 <? roomLength)%float = true ->
   (0 <? roomWidth)%float = true ->
   (0 <? spacing)%float = true ->
   (spacing * spacing =? 0)%float = false ->
   sf_finite (Prim2SF q) = true ->
   exists n : Z,
     calculate_detector_quantity roomLength roomWidth spacing = Ok n /\
     (inject_Z (n - 1) < float_val q)%Q /\ (float_val q <= inject_Z n)%Q /\
     0 <= n /\
     ((0 <? q)%float = true <-> 1 <= n)) /\
  (ordinary roomLength = true ->
   ordinary roomWidth = true ->
   ordinary spacing = true ->
   exists n : Z,
     calculate_detector_quantity roomLength roomWidth spacing = Ok n /\
     1 <= n).
Proof.
  intros q. split; [|apply quantity_ordinary].
  intros HL HW Hs Hcov Hfin.
  assert (Hsign : sf_nonneg (Prim2SF q) = true).
  { subst q. rewrite ltb_0_l in HL, HW, Hs.
    pose proof (SFmul_pos_pos _ _ HL HW) as Harea.
    pose proof (SFmul_pos_pos _ _ Hs Hs) as Hc.
    rewrite eqb_0_r, mul_spec in Hcov. unfold SF64mul in Hcov.
    assert (Hcpos : sf_pos (SFmul prec emax (Prim2SF spacing) (Prim2SF spacing)) = true).
    { destruct (SFmul prec emax (Prim2SF spacing) (Prim2SF spacing))
        as [b|b| |b m e]; try destruct b; simpl in *; congruence. }
    rewrite <- sf_has_sign_nonneg in Harea |- *.
    rewrite div_spec in Hfin |- *. unfold SF64div in *.
    rewrite !mul_spec in Hfin |- *. unfold SF64mul in *.
    destruct (SFdiv_by_pos false _ _ Harea Hcpos) as [Hnan|H]; [|exact H].
    rewrite Hnan in Hfin. discriminate. }
  unfold calculate_detector_quantity, truediv. rewrite Hcov. simpl.
  fold q. unfold ceil, float_val. rewrite ltb_0_l.
  destruct (Prim2SF q) as [b|b| |b m e]; try discriminate.
  - exists 0. simpl. repeat split; try easy; lia.
  - destruct b; [discriminate|]. simpl.
    exists (Zceil_scaled (Z.pos m) e).
    destruct (Zceil_scaled_spec (Z.pos m) e) as [Hlo Hhi].
    pose proof (Zceil_scaled_pos (Z.pos m) e ltac:(lia)) as Hpos.
    repeat split; auto; lia.
Qed.

Lemma quantity_is_ceiling_of_float_quotient_witness :
  (exists n : Z,
     calculate_detector_quantity 10 10 f9_1 = Ok n /\
     (inject_Z (n - 1) < float_val ((10 * 10) / (f9_1 * f9_1))%float)%Q /\
     (float_val ((10 * 10) / (f9_1 * f9_1))%float <= inject_Z n)%Q /\
     0 <= n /\
     ((0 <? (10 * 10) / (f9_1 * f9_1))%float = true <-> 1 <= n)) /\
  (exists n : Z, calculate_detector_quantity 10 10 f9_1 = Ok n /\ 1 <= n).
Proof.
  split.
  - apply (proj1 (quantity_is_ceiling_of_float_quotient 10 10 f9_1));
      reflexivity.
  - apply (proj2 (quantity_is_ceiling_of_float_quotient 10 10 f9_1));
      reflexivity.
Defined.

(** C1, as the claim has it, fails: a room of [2^-600] by [2^-600] with
    spacing 1 has all three arguments positive, the product of its
    dimensions underflows to zero, and the quantity returned is 0. *)
Lemma quantity_zero_on_underflow :
  (0 <? f2_m600)%float = true /\ (0 <? 1)%float = true /\
  (f2_m600 * f2_m600)%float = 0%float /\
  calculate_detector_quantity f2_m600 f2_m600 1 = Ok 0.
Proof. repeat split; vm_compute; reflexivity. Qed.

(** C2, as the code has it: neither operation checks its arguments.  A zero
    spacing makes both raise [ZeroDivisionError], whatever the room.  With a
    positive spacing and a room dimension that is not positive, the grid,
    when it is returned, is empty.  A room of length -1, a room with both
    dimensions negative and a negative spacing are all computed with: the
    quantities are 0, 2 and 8, the grids empty. *)
Theorem invalid_inputs_are_computed :
  (forall roomLength roomWidth spacing : float,
     (spacing =? 0)%float = true ->
     calculate_detector_quantity roomLength roomWidth spacing =
       Raise ZeroDivisionError /\
     generate_detector_grid roomLength roomWidth spacing =
       Raise ZeroDivisionError) /\
  (forall (roomLength roomWidth spacing : float) (ps : list position),
     (roomLength <=? 0)%float || (roomWidth <=? 0)%float = true ->
     (0 <? spacing)%float = true ->
     generate_detector_grid roomLength roomWidth spacing = Ok ps ->
     ps = []) /\
  calculate_detector_quantity (-1) 10 f9_1 = Ok 0 /\
  generate_detector_grid (-1) 10 f9_1 = Ok [] /\
  calculate_detector_quantity (-10) (-10) f9_1 = Ok 2 /\
  generate_detector_grid (-10) (-10) f9_1 = Ok [] /\
  calculate_detector_quantity 20 10 (-5) = Ok 8 /\
  generate_detector_grid 20 10 (-5) = Ok [].
Proof.
  split; [|split; [|repeat split; vm_compute; reflexivity]].
  - intros L W s Hs. split.
    + unfold calculate_detector_quantity.
      now rewrite (truediv_zero _ _ (square_zero s Hs)).
    + unfold generate_detector_grid. now rewrite (truediv_zero _ _ Hs).
  - apply grid_empty_nonpos_dimension.
Qed.

Lemma invalid_inputs_are_computed_witness :
  (calculate_detector_quantity 10 10 0 = Raise ZeroDivisionError /\
   generate_detector_grid 10 10 0 = Raise ZeroDivisionError) /\
  ([] : list position) = [].
Proof.
  split.
  - apply (proj1 invalid_inputs_are_computed 10 10 0)%float. reflexivity.
  - apply (proj1 (proj2 invalid_inputs_are_computed) (-1) 10 f9_1 [])%float;
      vm_compute; reflexivity.
Defined.

(** C2, as the claim has it, fails: a room of length -1 and a spacing of -5
    violate the preconditions, and both operations return a value. *)
Lemma invalid_inputs_not_refused :
  (-1 <=? 0)%float = true /\
  is_ok (calculate_detector_quantity (-1) 10 f9_1) = true /\
  is_ok (generate_detector_grid (-1) 10 f9_1) = true /\
  (-5 <=? 0)%float = true /\
  is_ok (calculate_detector_quantity 20 10 (-5)) = true /\
  is_ok (generate_detector_grid 20 10 (-5)) = true.
Proof. repeat split; vm_compute; reflexivity. Qed.

(** ** When the grid is empty *)

(** C9, as the claim has it, fails on the smallest floats: with a room of 2
    units of [2^-1074] and a spacing of 5 units, the spacing exceeds twice
    the room, yet the centre of the first cell, [0.5 * 5] units rounded to
    even, is 2 units, and the grid has one position. *)
Lemma grid_nonempty_beyond_twice_the_room :
  (0 <? ulp2)%float = true /\ (0 <? ulp5)%float = true /\
  (ulp5 <=? 2 * ulp2)%float = false /\
  (0.5 * ulp5)%float = ulp2 /\
  generate_detector_grid ulp2 ulp2 ulp5 = Ok [ (ulp2, ulp2) ].
Proof. repeat split; vm_compute; reflexivity. Qed.

(** C9, as the code has it: for a positive room and a positive spacing, when
    the grid is returned it is non-empty exactly when the centre of the first
    cell, [0.5 * spacing] as binary64 computes it, is inside the room in both
    directions.  For a room and a spacing between [2^-250] and [2^250] the
    grid is returned.  The grid can be empty for a valid room: a 1 x 1 room
    with spacing 3 has one cell, whose centre 1.5 is outside. *)
Theorem grid_nonempty_iff_first_centre_inside
    (roomLength roomWidth spacing : float) (ps : list position) :
  ((0 <? roomLength)%float = true ->
   (0 <? roomWidth)%float = true ->
   (0 <? spacing)%float = true ->
   generate_detector_grid roomLength roomWidth spacing = Ok ps ->
   (ps <> [] <->
    (0.5 * spacing <=? roomLength)%float = true /\
    (0.5 * spacing <=? roomWidth)%float = true)) /\
  (ordinary roomLength = true -> ordinary roomWidth = true ->
   ordinary spacing = true ->
   exists ps' : list position,
     generate_detector_grid roomLength roomWidth spacing = Ok ps') /\
  generate_detector_grid 1 1 3 = Ok [] /\
  (0.5 * 3 <=? 1)%float = false.
Proof.
  split; [|split; [apply generate_detector_grid_ordinary
                  |split; vm_compute; reflexivity]].
  intros HL HW Hs Hgrid.
  pose proof Hgrid as Hspec.
  rewrite generate_detector_grid_generateGrid in Hspec. unfold generateGrid in Hspec.
  destruct (truediv roomLength spacing) as [qx|e] eqn:Hqx; simpl in Hspec;
    [|discriminate].
  destruct (ceil qx) as [cx|e] eqn:Hcx; simpl in Hspec; [|discriminate].
  destruct (truediv roomWidth spacing) as [qy|e] eqn:Hqy; simpl in Hspec;
    [|discriminate].
  destruct (ceil qy) as [cy|e] eqn:Hcy; simpl in Hspec; [|discriminate].
  split.
  - (* a returned position gives a cell, and the first cell is below it *)
    intros Hne. destruct ps as [|p ps']; [congruence|].
    destruct (grid_member _ _ _ _ p Hgrid (or_introl eq_refl))
      as (Hroom & qx' & cx' & qy' & cy' & i & j
          & Hqx' & Hcx' & Hqy' & Hcy' & Hi & Hj & Hc).
    rewrite Hqx in Hqx'. injection Hqx' as <-.
    rewrite Hcx in Hcx'. injection Hcx' as <-.
    assert (Hcx1 : 1 <= cx) by lia.
    destruct (positive_spacing_finite _ _ _ _ Hs Hqx Hcx Hcx1) as (ms & es & Hm).
    unfold candidate in Hc.
    destruct (int_add_float i 0.5) as [a|ea] eqn:Ha; simpl in Hc; [|discriminate].
    destruct (int_add_float j 0.5) as [b|eb] eqn:Hb; simpl in Hc; [|discriminate].
    injection Hc as <-. unfold in_room in Hroom. simpl in Hroom.
    apply andb_prop in Hroom as [Hx Hy].
    split.
    + apply (first_centre_least spacing a roomLength ms es i); auto; lia.
    + apply (first_centre_least spacing b roomWidth ms es j); auto; lia.
  - (* the first cell exists, is enumerated first and passes the test *)
    intros [Hx Hy].
    assert (Hfin : exists ms es, Prim2SF spacing = S754_finite false ms es).
    { rewrite ltb_0_l in Hs.
      destruct (Prim2SF spacing) as [b|b| |b ms es] eqn:HS; try discriminate.
      - (* an infinite spacing: the column count is not defined *)
        destruct b; [discriminate|]. exfalso.
        rewrite FloatAxioms.leb_spec, mul_spec, HS, Prim2SF_half in Hx.
        unfold SF64mul, sf_half in Hx. cbn [SFmul xorb] in Hx.
        apply truediv_Ok in Hqx. subst qx.
        unfold ceil in Hcx. rewrite div_spec, HS in Hcx. unfold SF64div in Hcx.
        destruct (Prim2SF roomLength) as [bl|bl| |bl ml el];
          try destruct bl; discriminate.
      - destruct b; [discriminate|]. eauto. }
    destruct Hfin as (ms & es & Hm).
    pose proof (first_centre_count _ _ _ _ ms es HL Hm Hx Hqx Hcx) as Hcx1.
    pose proof (first_centre_count _ _ _ _ ms es HW Hm Hy Hqy Hcy) as Hcy1.
    destruct (cells_head cx cy Hcx1 Hcy1) as [tl Hcells].
    rewrite Hcells in Hspec. cbn [map_result fst snd] in Hspec.
    unfold candidate at 1 in Hspec. rewrite int_add_half_0 in Hspec.
    cbn [bind] in Hspec.
    destruct (map_result _ tl) as [cs|e]; cbn [bind] in Hspec; [|discriminate].
    cbn [List.filter] in Hspec. unfold in_room at 1 in Hspec.
    cbn [fst snd] in Hspec. rewrite Hx, Hy in Hspec.
    cbn [andb] in Hspec. injection Hspec as <-. discriminate.
Qed.

Lemma grid_nonempty_iff_first_centre_inside_witness :
  ([ (f4_55, f4_55) ] <> [] <->
   (0.5 * f9_1 <=? 10)%float = true /\ (0.5 * f9_1 <=? 10)%float = true) /\
  (exists ps' : list position, generate_detector_grid 10 10 f9_1 = Ok ps').
Proof.
  split.
  - apply (proj1 (grid_nonempty_iff_first_centre_inside
                    10 10 f9_1 [ (f4_55, f4_55) ]));
      vm_compute; reflexivity.
  - apply (proj1 (proj2 (grid_nonempty_iff_first_centre_inside 10 10 f9_1 [])));
      reflexivity.
Defined.

(** * Further properties of the code *)

(** ** The loop of [generate_outputs], entry by entry *)

Section Visits.

Variables L W : float.

Lemma walk_cons (it : entry) (rest : list entry) (pos : list position) :
  walk L W (it :: rest) pos =
  match visit L W it with
  | Raise e => (it :: rest, Raise e)
  | Ok (it', grid) =>
      let '(rest', r) := walk L W rest (pos ++ grid) in (it' :: rest', r)
  end.
Proof.
  cbn [walk]. unfold visit.
  destruct (spacing it) as [s|]; [|now rewrite app_nil_r].
  destruct (truthy (Some s)); [|now rewrite app_nil_r].
  destruct (generate_detector_grid L W s) as [grid|e]; [|reflexivity].
  cbn [bind].
  destruct (calculate_detector_quantity L W s) as [qty|e]; reflexivity.
Qed.

(** The positions found so far are only carried along. *)
Lemma walk_acc (l : list entry) (pos : list position) :
  walk L W l pos =
  (fst (walk L W l []), ps <- snd (walk L W l []) ;; Ok (pos ++ ps)).
Proof.
  revert pos. induction l as [|it rest IH]; intros pos.
  - simpl. now rewrite app_nil_r.
  - rewrite !walk_cons. destruct (visit L W it) as [[it' g]|e]; [|reflexivity].
    rewrite (IH (pos ++ g)), (IH ([] ++ g)). cbn [fst snd app].
    destruct (snd (walk L W rest [])) as [ps|e]; cbn [bind];
      [now rewrite app_assoc | reflexivity].
Qed.

Lemma walk_app (l1 l2 : list entry) (pos : list position) :
  walk L W (l1 ++ l2) pos =
  match snd (walk L W l1 pos) with
  | Ok p =>
      (fst (walk L W l1 pos) ++ fst (walk L W l2 p), snd (walk L W l2 p))
  | Raise e => (fst (walk L W l1 pos) ++ l2, Raise e)
  end.
Proof.
  revert pos. induction l1 as [|it rest IH]; intros pos.
  - simpl. now destruct (walk L W l2 pos).
  - rewrite <- app_comm_cons, !walk_cons.
    destruct (visit L W it) as [[it' g]|e]; [|reflexivity].
    rewrite (IH (pos ++ g)).
    destruct (walk L W rest (pos ++ g)) as [rest' r]. cbn [fst snd].
    destruct r as [p|e]; reflexivity.
Qed.

Lemma generate_outputs_Ok (items items' : list entry) (o : outputs) :
  generate_outputs L W items = (items', Ok o) ->
  exists ps,
    walk L W items [] = (items', Ok ps) /\
    o = {| boq := generate_boq items'; layout := generate_dxf L W ps |}.
Proof.
  rewrite generate_outputs_walk.
  destruct (walk L W items []) as [l' [ps|e]]; cbn [bind]; intros H;
    [|discriminate].
  injection H as -> <-. eauto.
Qed.

Lemma generate_outputs_of_walk (items items' : list entry) (ps : list position) :
  walk L W items [] = (items', Ok ps) ->
  generate_outputs L W items =
    (items', Ok {| boq := generate_boq items';
                   layout := generate_dxf L W ps |}).
Proof. intros H. now rewrite generate_outputs_walk, H. Qed.

Lemma is_ok_Ok {A} (r : result A) : is_ok r = true -> exists a, r = Ok a.
Proof. destruct r; [eauto | discriminate]. Qed.

Lemma detectors_from_shift (k : nat) (l : list entry) :
  map snd (detectors_from k l) = map snd (detectors_from 0 l).
Proof.
  revert k. induction l as [|it rest IH]; intros k; simpl; [reflexivity|].
  destruct (spacing it) as [s|]; [|now rewrite (IH (S k)), (IH 1%nat)].
  destruct (truthy (Some s)); simpl; now rewrite (IH (S k)), (IH 1%nat).
Qed.

Lemma true_spacings_cons (it : entry) (rest : list entry) :
  true_spacings (it :: rest) =
  match spacing it with
  | Some s => if truthy (Some s) then s :: true_spacings rest
              else true_spacings rest
  | None => true_spacings rest
  end.
Proof.
  unfold true_spacings, detectors. simpl.
  destruct (spacing it) as [s|]; [|apply detectors_from_shift].
  destruct (truthy (Some s)); simpl; now rewrite detectors_from_shift.
Qed.

Lemma walk_grids (l l' : list entry) (ps : list position) :
  walk L W l [] = (l', Ok ps) ->
  exists grids,
    map_result (generate_detector_grid L W) (true_spacings l) = Ok grids /\
    ps = concat grids.
Proof.
  revert l' ps. induction l as [|it rest IH]; intros l' ps.
  - simpl. intros H. injection H as <- <-. now exists [].
  - rewrite walk_cons, true_spacings_cons. unfold visit.
    assert (Hskip :
      (let '(rest', r) := walk L W rest ([] ++ []) in (it :: rest', r)) =
        (l', Ok ps) ->
      exists grids,
        map_result (generate_detector_grid L W) (true_spacings rest) =
          Ok grids /\ ps = concat grids).
    { cbn [app]. destruct (walk L W rest []) as [rest' r] eqn:Hw.
      intros H. injection H as <- ->. eauto. }
    destruct (spacing it) as [s|]; [|exact Hskip].
    destruct (truthy (Some s)); [|exact Hskip].
    destruct (generate_detector_grid L W s) as [g|e] eqn:Hg; cbn [bind];
      [|discriminate].
    destruct (calculate_detector_quantity L W s) as [q|e]; cbn [bind];
      [|discriminate].
    rewrite walk_acc. cbn [app].
    destruct (walk L W rest []) as [rest' [ps0|e]] eqn:Hw; cbn [fst snd bind];
      intros H; [|discriminate].
    injection H as <- <-.
    destruct (IH rest' ps0 eq_refl) as (gs & Hgs & ->).
    exists (g :: gs). cbn [map_result]. rewrite Hg, Hgs. cbn [bind].
    split; reflexivity.
Qed.

Lemma kept_same (a b : entry) :
  kept_or_recomputed L W a b -> same_but_detector_quantity a b.
Proof.
  intros [->|(s & qty & Hsp & Ht & _ & ->)]; unfold same_but_detector_quantity.
  - auto.
  - simpl. rewrite Hsp, Ht. repeat split; auto. discriminate.
Qed.

Lemma visit_same (a b : entry) :
  same_but_detector_quantity a b ->
  match visit L W a with
  | Ok r => visit L W b = Ok r
  | Raise e => visit L W b = Raise e
  end.
Proof.
  destruct a as [na qa fa sa], b as [nb qb fb sb].
  unfold same_but_detector_quantity, visit. simpl.
  intros (-> & -> & -> & Hq).
  destruct sb as [s|]; [|now rewrite Hq].
  destruct (truthy (Some s)); [|now rewrite Hq].
  destruct (generate_detector_grid L W s); [|reflexivity]. cbn [bind].
  destruct (calculate_detector_quantity L W s); reflexivity.
Qed.

Lemma walk_same (l1 l2 : list entry) (pos : list position) :
  Forall2 same_but_detector_quantity l1 l2 ->
  is_ok (snd (walk L W l1 pos)) = true ->
  walk L W l2 pos = walk L W l1 pos.
Proof.
  intros HF. revert pos. induction HF as [|a b l1 l2 Hab HF IH]; intros pos.
  - reflexivity.
  - rewrite !walk_cons. pose proof (visit_same a b Hab) as Hv.
    destruct (visit L W a) as [[a' g]|e]; rewrite Hv; [|discriminate].
    specialize (IH (pos ++ g)).
    destruct (walk L W l1 (pos ++ g)) as [l1' r1]. cbn [snd] in *.
    intros Hok. now rewrite (IH Hok).
Qed.

End Visits.

(** ** Export cycles: failure, frame, files *)

(** X1: a run stops at the first detector for which the grid or, after it,
    the quantity raises.  The entries before it keep the quantities the run
    wrote, the entry itself and the entries after it are as they were, no
    file is produced, and the exception is the one the arithmetic raised. *)
Theorem failed_run_stops_at_entry
    (L W : float) (pre post : list entry) (it : entry) (s : float) (e : exn) :
  is_ok (snd (generate_outputs L W pre)) = true ->
  spacing it = Some s -> truthy (Some s) = true ->
  (grid <- generate_detector_grid L W s ;;
   calculate_detector_quantity L W s) = Raise e ->
  generate_outputs L W (pre ++ it :: post) =
    (fst (generate_outputs L W pre) ++ it :: post, Raise e).
Proof.
  intros Hok Hsp Ht He.
  rewrite generate_outputs_is_ok in Hok. rewrite generate_outputs_fst.
  rewrite generate_outputs_walk, walk_app.
  destruct (walk L W pre []) as [pre' [p|e0]]; [|discriminate].
  cbn [fst snd]. rewrite walk_cons. unfold visit. rewrite Hsp, Ht.
  destruct (generate_detector_grid L W s) as [g|eg]; cbn [bind] in *.
  - rewrite He. reflexivity.
  - injection He as ->. reflexivity.
Qed.

Lemma failed_run_stops_at_entry_witness :
  let probe := {| name := "Probe"; quantity := 7; nfpa := "NFPA 72";
                  spacing := Some nan |} in
  generate_outputs 10 10
    (add_item point_smoke_detector [] ++ probe :: add_item sounder []) =
  (fst (generate_outputs 10 10 (add_item point_smoke_detector [])) ++
     probe :: add_item sounder [],
   Raise ValueError) /\
  quantity <$> fst (generate_outputs 10 10 (add_item point_smoke_detector []))
                 !! 0%nat = Some 2.
Proof.
  split; [|vm_compute; reflexivity].
  apply (failed_run_stops_at_entry 10 10 (add_item point_smoke_detector [])
           (add_item sounder [])
           {| name := "Probe"; quantity := 7; nfpa := "NFPA 72";
              spacing := Some nan |} nan ValueError);
    vm_compute; reflexivity.
Defined.

(** X2: whatever the room and whether or not the run completes,
    [generate_outputs] keeps the number and the order of the entries, and the
    name, the reference and the spacing of each; the only field it writes is
    the quantity of an entry whose spacing is true. *)
Theorem run_writes_only_detector_quantities
    (L W : float) (items : list entry) :
  length (fst (generate_outputs L W items)) = length items /\
  Forall2 same_but_detector_quantity items (fst (generate_outputs L W items)).
Proof.
  rewrite generate_outputs_fst. split; [apply walk_length|].
  eapply Forall2_impl; [apply walk_kept_or_recomputed|].
  intros a b. apply kept_same.
Qed.

(** X3: in a completed run the BOQ has one row per ledger entry, in ledger
    order, with the entry's name and reference; the quantity in the row of an
    entry with a true spacing is the one the spacing rule gives for the room
    of the run, not the one the ledger held before; the other rows show the
    stored quantity. *)
Theorem boq_rows_follow_the_ledger
    (L W : float) (items items' : list entry) (o : outputs) :
  generate_outputs L W items = (items', Ok o) ->
  Forall2
    (fun (it : entry) (row : boq_row) =>
       fst (fst row) = name it /\ snd row = nfpa it /\
       match spacing it with
       | Some s =>
           if truthy (Some s)
           then calculate_detector_quantity L W s = Ok (snd (fst row))
           else snd (fst row) = quantity it
       | None => snd (fst row) = quantity it
       end)
    items (boq o).
Proof.
  intros H. destruct (generate_outputs_Ok L W _ _ _ H) as (ps & Hw & ->).
  pose proof (walk_recomputed L W items []) as HR. rewrite Hw in HR.
  specialize (HR eq_refl). cbn [fst boq] in *. clear Hw H.
  induction HR as [|it it' l l' Hr HR IH]; [constructor|].
  cbn [generate_boq map]. constructor; [|exact IH].
  unfold recomputed in Hr. cbn [fst snd].
  destruct (spacing it) as [s|]; [|subst it'; auto].
  destruct (truthy (Some s)); [|subst it'; auto].
  destruct Hr as (qty & Hq & ->). simpl. auto.
Qed.

Lemma boq_rows_follow_the_ledger_witness :
  Forall2
    (fun (it : entry) (row : boq_row) =>
       fst (fst row) = name it /\ snd row = nfpa it /\
       match spacing it with
       | Some s =>
           if truthy (Some s)
           then calculate_detector_quantity 20 10 s = Ok (snd (fst row))
           else snd (fst row) = quantity it
       | None => snd (fst row) = quantity it
       end)
    (add_item sounder (add_item point_smoke_detector []))
    [ ("Point Smoke Detector", 3, "NFPA 72"); ("Sounder", 1, "NFPA 72") ].
Proof.
  apply (boq_rows_follow_the_ledger 20 10
           (add_item sounder (add_item point_smoke_detector []))
           (fst (generate_outputs 20 10
                   (add_item sounder (add_item point_smoke_detector []))))
           {| boq := [ ("Point Smoke Detector", 3, "NFPA 72");
                       ("Sounder", 1, "NFPA 72") ];
              layout := generate_dxf 20 10
                          [ (f4_55, f4_55); (f13_65, f4_55) ] |}).
  vm_compute. reflexivity.
Defined.

(** X4: the drawing of a completed run is the room outline, closed, and one
    circle of radius 0.2 for every position of every grid: the grids of the
    true spacings, one after the other in ledger order.  Nothing is merged:
    two detectors with the same spacing are drawn on the same centres. *)
Theorem drawing_is_the_grids_in_ledger_order
    (L W : float) (items items' : list entry) (o : outputs) :
  generate_outputs L W items = (items', Ok o) ->
  exists grids : list (list position),
    map_result (generate_detector_grid L W) (true_spacings items) = Ok grids /\
    circles (layout o) = map (fun p => (p, circle_radius)) (concat grids) /\
    outline (layout o) =
      [ (0, 0); (L, 0); (L, W); (0, W); (0, 0) ]%float.
Proof.
  intros H. destruct (generate_outputs_Ok L W _ _ _ H) as (ps & Hw & ->).
  destruct (walk_grids L W _ _ _ Hw) as (grids & Hg & ->).
  exists grids. auto.
Qed.

Lemma drawing_is_the_grids_in_ledger_order_witness :
  exists grids : list (list position),
    map_result (generate_detector_grid 10 10)
      (true_spacings
         (add_item point_smoke_detector (add_item point_smoke_detector []))) =
      Ok grids /\
    [ ((f4_55, f4_55), circle_radius); ((f4_55, f4_55), circle_radius) ] =
      map (fun p => (p, circle_radius)) (concat grids) /\
    [ (0, 0); (10, 0); (10, 10); (0, 10); (0, 0) ]%float =
      [ (0, 0); (10, 0); (10, 10); (0, 10); (0, 0) ]%float.
Proof.
  apply (drawing_is_the_grids_in_ledger_order 10 10
           (add_item point_smoke_detector (add_item point_smoke_detector []))
           (fst (generate_outputs 10 10
                   (add_item point_smoke_detector
                      (add_item point_smoke_detector []))))
           {| boq := [ ("Point Smoke Detector", 2, "NFPA 72");
                       ("Point Smoke Detector", 2, "NFPA 72") ];
              layout := generate_dxf 10 10 [ (f4_55, f4_55); (f4_55, f4_55) ] |}).
  vm_compute. reflexivity.
Defined.

(** X5: entries do not influence each other.  When the runs on two ledgers
    complete, the run on the two ledgers put end to end completes, and its
    ledger, its BOQ rows and its drawn positions are those of the two runs,
    end to end. *)
Theorem run_of_concatenated_ledgers
    (L W : float) (l1 l2 l1' l2' : list entry) (o1 o2 : outputs) :
  generate_outputs L W l1 = (l1', Ok o1) ->
  generate_outputs L W l2 = (l2', Ok o2) ->
  generate_outputs L W (l1 ++ l2) =
    (l1' ++ l2',
     Ok {| boq := boq o1 ++ boq o2;
           layout := generate_dxf L W
                       (map fst (circles (layout o1)) ++
                        map fst (circles (layout o2))) |}).
Proof.
  intros H1 H2.
  destruct (generate_outputs_Ok L W _ _ _ H1) as (p1 & Hw1 & ->).
  destruct (generate_outputs_Ok L W _ _ _ H2) as (p2 & Hw2 & ->).
  rewrite generate_outputs_walk, walk_app, Hw1. cbn [fst snd].
  rewrite walk_acc, Hw2. cbn [fst snd bind boq layout circles generate_dxf].
  unfold generate_boq. rewrite map_app, !map_map. cbn [fst].
  now rewrite !map_id.
Qed.

Lemma run_of_concatenated_ledgers_witness :
  generate_outputs 20 10
    (add_item point_smoke_detector [] ++ add_item sounder []) =
  ([ {| name := "Point Smoke Detector"; quantity := 3; nfpa := "NFPA 72";
        spacing := Some f9_1 |} ] ++
   [ {| name := "Sounder"; quantity := 1; nfpa := "NFPA 72";
        spacing := None |} ],
   Ok {| boq := [ ("Point Smoke Detector", 3, "NFPA 72") ] ++
                [ ("Sounder", 1, "NFPA 72") ];
         layout := generate_dxf 20 10
                     ([ (f4_55, f4_55); (f13_65, f4_55) ] ++ []) |}).
Proof.
  apply (run_of_concatenated_ledgers 20 10
           (add_item point_smoke_detector []) (add_item sounder [])
           [ {| name := "Point Smoke Detector"; quantity := 3;
                nfpa := "NFPA 72"; spacing := Some f9_1 |} ]
           [ {| name := "Sounder"; quantity := 1; nfpa := "NFPA 72";
                spacing := None |} ]
           {| boq := [ ("Point Smoke Detector", 3, "NFPA 72") ];
              layout := generate_dxf 20 10
                          [ (f4_55, f4_55); (f13_65, f4_55) ] |}
           {| boq := [ ("Sounder", 1, "NFPA 72") ];
              layout := generate_dxf 20 10 [] |});
    vm_compute; reflexivity.
Defined.

(** X6: no state of an earlier run survives a completed run.  A run for a
    new room on the ledger an earlier run left, completed or not, gives
    exactly the ledger and the files it gives on the ledger as it was before
    the earlier run. *)
Theorem rerun_for_a_new_room
    (L1 W1 L2 W2 : float) (items : list entry) :
  is_ok (snd (generate_outputs L2 W2 items)) = true ->
  generate_outputs L2 W2 (fst (generate_outputs L1 W1 items)) =
    generate_outputs L2 W2 items.
Proof.
  intros Hok. rewrite generate_outputs_is_ok in Hok.
  rewrite (generate_outputs_fst L1 W1), !(generate_outputs_walk L2 W2).
  rewrite (walk_same L2 W2 items (fst (walk L1 W1 items [])) []); auto.
  eapply Forall2_impl; [apply walk_kept_or_recomputed|].
  intros a b. apply kept_same.
Qed.

Lemma rerun_for_a_new_room_witness :
  generate_outputs 20 10
    (fst (generate_outputs 10 10
            (add_item sounder (add_item point_smoke_detector [])))) =
  generate_outputs 20 10 (add_item sounder (add_item point_smoke_detector [])) /\
  (quantity <$>
     fst (generate_outputs 10 10
            (add_item sounder (add_item point_smoke_detector []))) !! 0%nat,
   quantity <$>
     fst (generate_outputs 20 10
            (add_item sounder (add_item point_smoke_detector []))) !! 0%nat) =
  (Some 2, Some 3).
Proof.
  split; [|vm_compute; reflexivity].
  apply (rerun_for_a_new_room 10 10 20 10
           (add_item sounder (add_item point_smoke_detector []))).
  vm_compute. reflexivity.
Defined.

(** ** The grid as a product of columns and rows *)

Section Products.

Variables L W s : float.

Lemma filter_row (i : Z) (lj : list Z) :
  List.filter (in_room L W) (map (centre s) (map (pair i) lj)) =
  if (coordinate s i <=? L)%float
  then map (pair (coordinate s i))
         (List.filter (fun y => (y <=? W)%float) (map (coordinate s) lj))
  else [].
Proof.
  induction lj as [|j lj IH]; cbn [map List.filter].
  - now destruct (coordinate s i <=? L)%float.
  - rewrite IH. unfold in_room, centre. cbn [fst snd].
    fold (coordinate s i) (coordinate s j).
    destruct (coordinate s i <=? L)%float; cbn [andb]; [|reflexivity].
    destruct (coordinate s j <=? W)%float; reflexivity.
Qed.

Lemma filter_cells (li lj : list Z) :
  List.filter (in_room L W)
    (map (centre s) (flat_map (fun i => map (pair i) lj) li)) =
  list_prod
    (List.filter (fun x => (x <=? L)%float) (map (coordinate s) li))
    (List.filter (fun y => (y <=? W)%float) (map (coordinate s) lj)).
Proof.
  induction li as [|i li IH]; cbn [flat_map map List.filter]; [reflexivity|].
  rewrite map_app, List.filter_app, IH, filter_row.
  destruct (coordinate s i <=? L)%float; reflexivity.
Qed.

Lemma grid_product (cx cy : Z) :
  cell_count L s = Ok cx -> cell_count W s = Ok cy ->
  generate_detector_grid L W s =
    Ok (list_prod
          (List.filter (fun x => (x <=? L)%float)
             (map (coordinate s) (range cx)))
          (List.filter (fun y => (y <=? W)%float)
             (map (coordinate s) (range cy)))).
Proof.
  intros Hx Hy. rewrite (generate_detector_grid_returns L W s cx cy Hx Hy).
  unfold cells. now rewrite filter_cells.
Qed.

Lemma grid_counts (ps : list position) :
  generate_detector_grid L W s = Ok ps ->
  exists cx cy, cell_count L s = Ok cx /\ cell_count W s = Ok cy.
Proof.
  unfold generate_detector_grid, cell_count.
  destruct (truediv L s) as [qx|e]; cbn [bind]; [|discriminate].
  destruct (ceil qx) as [cx|e]; cbn [bind]; [|discriminate].
  destruct (truediv W s) as [qy|e]; cbn [bind]; [|discriminate].
  destruct (ceil qy) as [cy|e]; cbn [bind]; [|discriminate].
  eauto.
Qed.

Lemma grid_is_ok :
  is_ok (generate_detector_grid L W s) =
  is_ok (cell_count L s) && is_ok (cell_count W s).
Proof.
  destruct (generate_detector_grid L W s) as [ps|e] eqn:Hg.
  - destruct (grid_counts ps Hg) as (cx & cy & -> & ->). reflexivity.
  - destruct (cell_count L s) as [cx|ex] eqn:Hx; [|reflexivity].
    destruct (cell_count W s) as [cy|ey] eqn:Hy; [|reflexivity].
    rewrite (grid_product cx cy Hx Hy) in Hg. discriminate.
Qed.

Lemma length_range (n : Z) : length (range n) = Z.to_nat n.
Proof. unfold range. now rewrite length_map, length_seq. Qed.

End Products.

Section Arithmetic.

Lemma SFmul_comm (x y : spec_float) :
  SFmul prec emax x y = SFmul prec emax y x.
Proof.
  destruct x as [bx|bx| |bx mx ex], y as [by_|by_| |by_ my ey];
    cbn [SFmul]; try reflexivity; try (now rewrite xorb_comm).
  now rewrite xorb_comm, Pos.mul_comm, Z.add_comm.
Qed.

Lemma float_mul_comm (x y : float) : (x * y = y * x)%float.
Proof.
  apply Prim2SF_inj. rewrite !mul_spec. unfold SF64mul. apply SFmul_comm.
Qed.

Lemma float_square_opp (x : float) : (- x * - x = x * x)%float.
Proof.
  apply Prim2SF_inj. rewrite !mul_spec, opp_spec. unfold SF64mul.
  destruct (Prim2SF x) as [b|b| |b m e]; cbn [SFopp SFmul];
    try reflexivity; now destruct b.
Qed.

Lemma ltb_0_r (x : float) :
  (x <? 0)%float =
  match Prim2SF x with
  | S754_infinity true | S754_finite true _ _ => true
  | _ => false
  end.
Proof.
  rewrite FloatAxioms.ltb_spec. change (Prim2SF 0) with (S754_zero false).
  destruct (Prim2SF x) as [b|b| |b m e]; try destruct b; reflexivity.
Qed.

(** A column exists only when the spacing has the sign of the room
    dimension: with a positive dimension, a count of 1 or more needs a
    positive spacing. *)
Lemma count_needs_positive_spacing (d s : float) (c : Z) :
  (0 <? d)%float = true -> cell_count d s = Ok c -> 1 <= c ->
  (0 <? s)%float = true.
Proof.
  rewrite !ltb_0_l. unfold cell_count, truediv. rewrite eqb_0_r.
  intros Hd Hc Hc1.
  destruct (Prim2SF s) as [bs|bs| |bs ms es] eqn:HS; [discriminate| | |];
    cbn [bind] in Hc; unfold ceil in Hc; rewrite div_spec, HS in Hc;
    unfold SF64div in Hc;
    destruct (Prim2SF d) as [bd|bd| |bd md ed]; try destruct bd;
    try discriminate; cbn [SFdiv] in Hc; try discriminate;
    try (injection Hc as <-; lia).
  destruct bs; [|reflexivity]. exfalso.
  pose proof (SFdiv_core_binary_nonneg md ms ed es) as Hq.
  destruct (SFdiv_core_binary prec emax (Z.pos md) ed (Z.pos ms) es)
    as [[mz ez] lz]. cbn [fst xorb] in *.
  pose proof (binary_round_aux_sign true mz ez lz Hq) as Hsign.
  destruct (binary_round_aux prec emax true mz ez lz) as [b|b| |b m e];
    try discriminate.
  - injection Hc as <-. lia.
  - destruct b; [|discriminate]. injection Hc as <-.
    pose proof (Zceil_scaled_nonpos (cond_Zopp true (Z.pos m)) e) as Hn.
    cbn [cond_Zopp] in Hn. lia.
Qed.

End Arithmetic.

Section Inside.

Variables L W : float.

(** A returned position comes from a cell, so both counts are 1 or more. *)
Lemma grid_member_counts (s : float) (ps : list position) (p : position) :
  generate_detector_grid L W s = Ok ps -> In p ps ->
  exists cx cy,
    cell_count L s = Ok cx /\ cell_count W s = Ok cy /\ 1 <= cx /\ 1 <= cy.
Proof.
  intros Hg Hin.
  destruct (grid_member _ _ _ _ _ Hg Hin)
    as (_ & qx & cx & qy & cy & i & j & Hqx & Hcx & Hqy & Hcy & Hi & Hj & _).
  exists cx, cy. unfold cell_count. rewrite Hqx, Hqy. cbn [bind].
  repeat split; auto; lia.
Qed.

Lemma grid_member_positive_spacing (s : float) (ps : list position) (p : position) :
  (0 <? L)%float || (0 <? W)%float = true ->
  generate_detector_grid L W s = Ok ps -> In p ps ->
  (0 <? s)%float = true.
Proof.
  intros Hdim Hg Hin.
  destruct (grid_member_counts s ps p Hg Hin) as (cx & cy & Hx & Hy & Hx1 & Hy1).
  apply orb_prop in Hdim as [HL|HW].
  - exact (count_needs_positive_spacing L s cx HL Hx Hx1).
  - exact (count_needs_positive_spacing W s cy HW Hy Hy1).
Qed.

Lemma grid_member_bounds (s : float) (ps : list position) (p : position) :
  (0 <? s)%float = true ->
  generate_detector_grid L W s = Ok ps -> In p ps ->
  (0 <=? fst p)%float = true /\ (fst p <=? L)%float = true /\
  (0 <=? snd p)%float = true /\ (snd p <=? W)%float = true.
Proof.
  intros Hs Hgrid Hin.
  destruct (grid_member _ _ _ _ _ Hgrid Hin)
    as (Hroom & qx & cx & qy & cy & i & j & Hqx & Hcx & _ & _ & Hi & Hj & Hc).
  unfold in_room in Hroom. apply andb_prop in Hroom as [Hx Hy].
  assert (Hcx1 : 1 <= cx) by lia.
  destruct (positive_spacing_finite _ _ _ _ Hs Hqx Hcx Hcx1) as (m & e & Hm).
  destruct (candidate_nonneg _ _ _ i j p Hm) as [H0x H0y];
    [lia | lia | exact Hc |].
  auto.
Qed.

Lemma map_result_grids_In (spacings : list float) (grids : list (list position))
    (p : position) :
  map_result (generate_detector_grid L W) spacings = Ok grids ->
  In p (concat grids) ->
  exists s ps, generate_detector_grid L W s = Ok ps /\ In p ps.
Proof.
  intros Hm Hin. apply in_concat in Hin as (ps & Hps & Hin).
  destruct (map_result_In _ _ _ _ Hm Hps) as (s & _ & Hs). eauto.
Qed.

End Inside.

(** With a positive spacing, a returned position has the centre of the first
    cell inside the room. *)
Lemma grid_member_first_centre
    (L W s : float) (ps : list position) (p : position) :
  (0 <? s)%float = true ->
  generate_detector_grid L W s = Ok ps -> In p ps ->
  (0.5 * s <=? L)%float = true /\ (0.5 * s <=? W)%float = true.
Proof.
  intros Hs Hg Hin.
  destruct (grid_member _ _ _ _ p Hg Hin)
    as (Hroom & qx & cx & qy & cy & i & j
        & Hqx & Hcx & Hqy & Hcy & Hi & Hj & Hc).
  assert (Hcx1 : 1 <= cx) by lia.
  destruct (positive_spacing_finite _ _ _ _ Hs Hqx Hcx Hcx1) as (ms & es & Hm).
  unfold candidate in Hc.
  destruct (int_add_float i 0.5) as [a|ea] eqn:Ha; cbn [bind] in Hc;
    [|discriminate].
  destruct (int_add_float j 0.5) as [b|eb] eqn:Hb; cbn [bind] in Hc;
    [|discriminate].
  injection Hc as <-. unfold in_room in Hroom. cbn [fst snd] in Hroom.
  apply andb_prop in Hroom as [Hx Hy]. split.
  - apply (first_centre_least s a L ms es i); auto; lia.
  - apply (first_centre_least s b W ms es j); auto; lia.
Qed.

(** ** The shape of the grid *)

(** X7: the grid is the product of the columns kept by [x <= roomLength] and
    the rows kept by [y <= roomWidth]: a coordinate is kept or dropped for a
    whole column or row, so the number of positions is the number of kept
    columns times the number of kept rows, neither above its count. *)
Theorem grid_is_product_of_columns_and_rows
    (L W s : float) (cx cy : Z) :
  cell_count L s = Ok cx -> cell_count W s = Ok cy ->
  let xs := List.filter (fun x => (x <=? L)%float)
              (map (coordinate s) (range cx)) in
  let ys := List.filter (fun y => (y <=? W)%float)
              (map (coordinate s) (range cy)) in
  generate_detector_grid L W s = Ok (list_prod xs ys) /\
  length (list_prod xs ys) = (length xs * length ys)%nat /\
  (length xs <= Z.to_nat cx)%nat /\ (length ys <= Z.to_nat cy)%nat.
Proof.
  intros Hx Hy xs ys. split; [exact (grid_product L W s cx cy Hx Hy)|].
  split; [apply length_prod|].
  split; subst xs ys.
  - etransitivity; [apply filter_length_le|].
    rewrite length_map, length_range. lia.
  - etransitivity; [apply filter_length_le|].
    rewrite length_map, length_range. lia.
Qed.

Lemma grid_is_product_of_columns_and_rows_witness :
  generate_detector_grid 20 10 f9_1 =
    Ok (list_prod
          (List.filter (fun x => (x <=? 20)%float)
             (map (coordinate f9_1) (range 3)))
          (List.filter (fun y => (y <=? 10)%float)
             (map (coordinate f9_1) (range 2)))) /\
  List.filter (fun x => (x <=? 20)%float) (map (coordinate f9_1) (range 3)) =
    [ f4_55; f13_65 ] /\
  List.filter (fun y => (y <=? 10)%float) (map (coordinate f9_1) (range 2)) =
    [ f4_55 ].
Proof.
  split; [|split; vm_compute; reflexivity].
  apply (grid_is_product_of_columns_and_rows 20 10 f9_1 3 2);
    vm_compute; reflexivity.
Defined.

(** X8: exchanging the length and the width of the room leaves the quantity
    as it is and mirrors the grid: it is returned for the one room exactly
    when it is for the other, with as many positions, and [(x, y)] is a
    position of the one exactly when [(y, x)] is a position of the other. *)
Theorem exchanged_room_dimensions (L W s : float) :
  calculate_detector_quantity W L s = calculate_detector_quantity L W s /\
  is_ok (generate_detector_grid W L s) = is_ok (generate_detector_grid L W s) /\
  forall ps ps' : list position,
    generate_detector_grid L W s = Ok ps ->
    generate_detector_grid W L s = Ok ps' ->
    length ps' = length ps /\
    forall x y : float, In (x, y) ps <-> In (y, x) ps'.
Proof.
  split; [|split].
  - unfold calculate_detector_quantity. now rewrite (float_mul_comm W L).
  - rewrite !grid_is_ok. apply andb_comm.
  - intros ps ps' Hg Hg'.
    destruct (grid_counts L W s ps Hg) as (cx & cy & Hx & Hy).
    rewrite (grid_product L W s cx cy Hx Hy) in Hg.
    rewrite (grid_product W L s cy cx Hy Hx) in Hg'.
    injection Hg as <-. injection Hg' as <-. split.
    + etransitivity; [apply length_prod|]. symmetry.
      etransitivity; [apply length_prod|]. apply Nat.mul_comm.
    + intros x y. rewrite !in_prod_iff. tauto.
Qed.

Lemma exchanged_room_dimensions_witness :
  length [ (f4_55, f4_55); (f4_55, f13_65) ] =
    length [ (f4_55, f4_55); (f13_65, f4_55) ] /\
  forall x y : float,
    In (x, y) [ (f4_55, f4_55); (f13_65, f4_55) ] <->
    In (y, x) [ (f4_55, f4_55); (f4_55, f13_65) ].
Proof.
  apply (proj2 (proj2 (exchanged_room_dimensions 20 10 f9_1)));
    vm_compute; reflexivity.
Defined.

(** X9: when the room has a positive length or a positive width, every circle
    of a completed run has its centre inside the room outline, whatever the
    ledger holds, negative spacings included.  Every circle has radius
    0.2. *)
Theorem drawn_centres_inside_the_outline
    (L W : float) (items items' : list entry) (o : outputs) :
  (0 <? L)%float || (0 <? W)%float = true ->
  generate_outputs L W items = (items', Ok o) ->
  Forall
    (fun c : position * float =>
       (0 <=? fst (fst c))%float = true /\ (fst (fst c) <=? L)%float = true /\
       (0 <=? snd (fst c))%float = true /\ (snd (fst c) <=? W)%float = true /\
       snd c = circle_radius)
    (circles (layout o)).
Proof.
  intros Hdim H. destruct (generate_outputs_Ok L W _ _ _ H) as (ps & Hw & ->).
  destruct (walk_grids L W _ _ _ Hw) as (grids & Hg & ->).
  cbn [layout circles generate_dxf].
  apply List.Forall_forall. intros c Hc.
  apply in_map_iff in Hc as (p & <- & Hp). cbn [fst snd].
  destruct (map_result_grids_In L W _ _ _ Hg Hp) as (s & g & Hgs & Hin).
  pose proof (grid_member_positive_spacing L W s g p Hdim Hgs Hin) as Hs.
  destruct (grid_member_bounds L W s g p Hs Hgs Hin) as (H1 & H2 & H3 & H4).
  auto.
Qed.

Lemma drawn_centres_inside_the_outline_witness :
  Forall
    (fun c : position * float =>
       (0 <=? fst (fst c))%float = true /\ (fst (fst c) <=? 20)%float = true /\
       (0 <=? snd (fst c))%float = true /\ (snd (fst c) <=? 10)%float = true /\
       snd c = circle_radius)
    [ ((f4_55, f4_55), circle_radius); ((f13_65, f4_55), circle_radius) ].
Proof.
  apply (drawn_centres_inside_the_outline 20 10
           [ {| name := "Point Smoke Detector"; quantity := 1;
                nfpa := "NFPA 72"; spacing := Some f9_1 |};
             {| name := "Probe"; quantity := 1; nfpa := "NFPA 72";
                spacing := Some (-5)%float |} ]
           [ {| name := "Point Smoke Detector"; quantity := 3;
                nfpa := "NFPA 72"; spacing := Some f9_1 |};
             {| name := "Probe"; quantity := 8; nfpa := "NFPA 72";
                spacing := Some (-5)%float |} ]
           {| boq := [ ("Point Smoke Detector", 3, "NFPA 72");
                       ("Probe", 8, "NFPA 72") ];
              layout := generate_dxf 20 10
                          [ (f4_55, f4_55); (f13_65, f4_55) ] |});
    vm_compute; reflexivity.
Defined.

(** X10: with a positive spacing, the first position of a grid that is not
    empty is the centre of the first cell, half a spacing from the origin in
    both directions. *)
Theorem first_position_is_first_centre
    (L W s : float) (p : position) (ps : list position) :
  (0 <? s)%float = true ->
  generate_detector_grid L W s = Ok (p :: ps) ->
  p = (0.5 * s, 0.5 * s)%float.
Proof.
  intros Hs Hg.
  destruct (grid_member_first_centre L W s _ p Hs Hg (or_introl eq_refl))
    as [Hx0 Hy0].
  destruct (grid_member_counts L W s _ p Hg (or_introl eq_refl))
    as (cx & cy & Hx & Hy & Hcx1 & Hcy1).
  rewrite (generate_detector_grid_returns L W s cx cy Hx Hy) in Hg.
  destruct (cells_head cx cy Hcx1 Hcy1) as [tl Hcells].
  rewrite Hcells in Hg. cbn [map List.filter] in Hg.
  change (centre s (0, 0)) with (0.5 * s, 0.5 * s)%float in Hg.
  unfold in_room at 1 in Hg. cbn [fst snd] in Hg.
  rewrite Hx0, Hy0 in Hg. cbn [andb] in Hg.
  now injection Hg as <- _.
Qed.

Lemma first_position_is_first_centre_witness :
  (f4_55, f4_55) = (0.5 * f9_1, 0.5 * f9_1)%float.
Proof.
  apply (first_position_is_first_centre 20 10 f9_1 (f4_55, f4_55)
           [ (f13_65, f4_55) ]);
    vm_compute; reflexivity.
Defined.

(** ** Spacings and rooms outside the intended range *)

(** X11: the spacing rule does not see the sign of the spacing: the quantity
    for [-spacing] is the quantity for [spacing].  The grid does: when the
    room has a positive length or a positive width, a negative spacing gives
    an empty grid whenever the grid is returned. *)
Theorem negative_spacing (L W s : float) :
  calculate_detector_quantity L W (- s) = calculate_detector_quantity L W s /\
  ((0 <? L)%float || (0 <? W)%float = true -> (s <? 0)%float = true ->
   forall ps : list position,
     generate_detector_grid L W s = Ok ps -> ps = []).
Proof.
  split.
  - unfold calculate_detector_quantity. now rewrite float_square_opp.
  - intros Hdim Hneg ps Hg. destruct ps as [|p ps]; [reflexivity|]. exfalso.
    pose proof (grid_member_positive_spacing L W s _ p Hdim Hg
                  (or_introl eq_refl)) as Hs.
    rewrite ltb_0_l in Hs. rewrite ltb_0_r in Hneg.
    destruct (Prim2SF s) as [b|b| |b m e]; try destruct b; discriminate.
Qed.

Lemma negative_spacing_witness :
  calculate_detector_quantity 20 10 (- 5) = calculate_detector_quantity 20 10 5 /\
  calculate_detector_quantity 20 10 (- 5) = Ok 8 /\
  ([] : list position) = [].
Proof.
  split; [apply (proj1 (negative_spacing 20 10 5))|].
  split; [vm_compute; reflexivity|].
  apply (proj2 (negative_spacing 20 10 (-5)%float)); vm_compute; reflexivity.
Defined.

(** ** Runs that complete *)

Section Completion.

Variables L W : float.

Lemma same_but_detector_quantity_refl (it : entry) :
  same_but_detector_quantity it it.
Proof. unfold same_but_detector_quantity. auto. Qed.

Lemma visit_falsy (it : entry) :
  truthy (spacing it) = false -> visit L W it = Ok (it, []).
Proof.
  unfold visit. destruct (spacing it) as [s|]; [|reflexivity].
  now intros ->.
Qed.

Lemma walk_all_falsy (l : list entry) (pos : list position) :
  Forall (fun it => truthy (spacing it) = false) l ->
  walk L W l pos = (l, Ok pos).
Proof.
  intros HF. revert pos. induction HF as [|it l Hit HF IH]; intros pos.
  - reflexivity.
  - rewrite walk_cons, (visit_falsy it Hit), app_nil_r, IH. reflexivity.
Qed.

Hypothesis HL : ordinary L = true.
Hypothesis HW : ordinary W = true.

Lemma visit_ordinary (it : entry) :
  spacing_false_or_ordinary it ->
  exists it' g, visit L W it = Ok (it', g) /\ exported it it'.
Proof using HL HW.
  intros [Hf|(s & Hsp & Hs)].
  - exists it, []. split; [now apply visit_falsy|]. split.
    + apply same_but_detector_quantity_refl.
    + rewrite Hf. discriminate.
  - unfold visit. rewrite Hsp.
    destruct (truthy (Some s)) eqn:Ht.
    + destruct (generate_detector_grid_ordinary L W s HL HW Hs) as (g & ->).
      destruct (quantity_ordinary L W s HL HW Hs) as (n & -> & Hn).
      cbn [bind]. exists (set_quantity n it), g. split; [reflexivity|].
      split; [|intros _; exact Hn].
      unfold same_but_detector_quantity. cbn [set_quantity name nfpa spacing].
      rewrite Hsp, Ht. repeat split; auto. discriminate.
    + exists it, []. split; [reflexivity|]. split.
      * apply same_but_detector_quantity_refl.
      * rewrite Hsp, Ht. discriminate.
Qed.

Lemma walk_ordinary (l : list entry) (pos : list position) :
  Forall spacing_false_or_ordinary l ->
  exists l' ps, walk L W l pos = (l', Ok ps) /\ Forall2 exported l l'.
Proof using HL HW.
  intros HF. revert pos. induction HF as [|it l Hit HF IH]; intros pos.
  - exists [], pos. split; [reflexivity | constructor].
  - rewrite walk_cons.
    destruct (visit_ordinary it Hit) as (it' & g & -> & He).
    destruct (IH (pos ++ g)) as (l' & ps & -> & HF2).
    exists (it' :: l'), ps. split; [reflexivity | now constructor].
Qed.

End Completion.

Section Library.

Lemma add_items_new_entries (choices : list item) (l : list entry) :
  add_items choices l = l ++ map new_entry choices.
Proof.
  revert l. induction choices as [|it choices IH]; intros l.
  - simpl. now rewrite app_nil_r.
  - cbn [add_items fold_left map]. fold (add_items choices (add_item it l)).
    rewrite IH. unfold add_item. fold (new_entry it).
    now rewrite <- app_assoc.
Qed.

Lemma dropdown_spacings :
  Forall (fun it => spacing_false_or_ordinary (new_entry it)) dropdown.
Proof.
  unfold dropdown. cbn [flat_map equipment_library items app].
  repeat (apply List.Forall_cons;
          [ first [ left; reflexivity
                  | right; eexists; split;
                    [reflexivity | vm_compute; reflexivity] ] | ]).
  apply List.Forall_nil.
Qed.

Lemma chosen_entries_rows
    (P : item -> boq_row -> Prop) (choices : list item) (l' : list entry) :
  (forall it e', exported (new_entry it) e' ->
                 P it (name e', quantity e', nfpa e')) ->
  Forall2 exported (map new_entry choices) l' ->
  Forall2 P choices (generate_boq l').
Proof.
  intros HP. revert l'. induction choices as [|it choices IH]; intros l' HF;
    inversion HF; subst; cbn [generate_boq map]; constructor; auto.
Qed.

End Library.

(** X12: in a room of ordinary size (both dimensions between [2^-250] and
    [2^250]) a run completes on every ledger whose true spacings are of
    ordinary size: both files are produced, every entry with a true spacing
    ends with a quantity of 1 or more, and the other entries are as they
    were. *)
Theorem ordinary_run_completes (L W : float) (items : list entry) :
  ordinary L = true -> ordinary W = true ->
  Forall spacing_false_or_ordinary items ->
  exists (items' : list entry) (o : outputs),
    generate_outputs L W items = (items', Ok o) /\
    Forall2 exported items items'.
Proof.
  intros HL HW HF.
  destruct (walk_ordinary L W HL HW items [] HF) as (l' & ps & Hw & HF2).
  exists l'. eexists. split; [|exact HF2].
  exact (generate_outputs_of_walk L W items l' ps Hw).
Qed.

Lemma ordinary_run_completes_witness :
  exists (items' : list entry) (o : outputs),
    generate_outputs 20 10 (add_item sounder (add_item point_smoke_detector [])) =
      (items', Ok o) /\
    Forall2 exported (add_item sounder (add_item point_smoke_detector []))
      items'.
Proof.
  apply (ordinary_run_completes 20 10
           (add_item sounder (add_item point_smoke_detector [])));
    [reflexivity | reflexivity |].
  apply List.Forall_cons;
    [right; exists f9_1; split; [reflexivity | vm_compute; reflexivity]|].
  apply List.Forall_cons; [left; reflexivity|]. apply List.Forall_nil.
Defined.

(** X13: whatever is chosen in the dropdown, in whatever order and however
    often, a run in a room of ordinary size completes, and the BOQ lists the
    choices in the order they were made, each under its name and reference
    and with a quantity of 1 or more.  An item without [default_spacing_m]
    (the flame detectors, the manual call point, the sounder and the strobe)
    is listed with the quantity 1: its [coverage_m2] or
    [max_travel_distance_m] is never used. *)
Theorem library_choices_export (L W : float) (choices : list item) :
  ordinary L = true -> ordinary W = true ->
  Forall (fun it => In it dropdown) choices ->
  exists (items' : list entry) (o : outputs),
    generate_outputs L W (add_items choices []) = (items', Ok o) /\
    Forall2
      (fun (it : item) (row : boq_row) =>
         fst (fst row) = item_name it /\ snd row = item_nfpa it /\
         1 <= snd (fst row) /\
         (default_spacing_m it = None -> snd (fst row) = 1))
      choices (boq o).
Proof.
  intros HL HW Hin. rewrite add_items_new_entries. cbn [app].
  assert (HF : Forall spacing_false_or_ordinary (map new_entry choices)).
  { apply List.Forall_forall. intros e He.
    apply in_map_iff in He as (it & <- & Hit).
    pose proof dropdown_spacings as Hd.
    rewrite List.Forall_forall in Hd, Hin. auto. }
  destruct (walk_ordinary L W HL HW _ [] HF) as (l' & ps & Hw & HF2).
  exists l'. eexists. split;
    [exact (generate_outputs_of_walk L W _ l' ps Hw)|].
  cbn [boq]. apply chosen_entries_rows; [|exact HF2].
  intros it e' [(Hn & Hr & Hsp & Hq) H1]. cbn [fst snd new_entry name nfpa spacing quantity] in *.
  repeat split; auto.
  - destruct (truthy (default_spacing_m it)) eqn:Ht; [auto|].
    rewrite <- (Hq eq_refl). lia.
  - intros Hnone. rewrite Hnone in Hq. symmetry. now apply Hq.
Qed.

Lemma library_choices_export_witness :
  exists (items' : list entry) (o : outputs),
    generate_outputs 20 10
      (add_items [ point_smoke_detector; sounder; point_smoke_detector ] []) =
      (items', Ok o) /\
    Forall2
      (fun (it : item) (row : boq_row) =>
         fst (fst row) = item_name it /\ snd row = item_nfpa it /\
         1 <= snd (fst row) /\
         (default_spacing_m it = None -> snd (fst row) = 1))
      [ point_smoke_detector; sounder; point_smoke_detector ] (boq o).
Proof.
  apply (library_choices_export 20 10
           [ point_smoke_detector; sounder; point_smoke_detector ]);
    [reflexivity | reflexivity |].
  repeat (apply List.Forall_cons; [vm_compute; tauto|]). apply List.Forall_nil.
Defined.

(** X14: when no entry of the ledger has a true spacing, the room is never
    looked at: for every pair of dimensions, NaN and negative ones included,
    the run completes, leaves the ledger as it is, writes the BOQ of the
    ledger and draws the outline alone. *)
Theorem run_without_detectors (L W : float) (items : list entry) :
  Forall (fun it => truthy (spacing it) = false) items ->
  generate_outputs L W items =
    (items, Ok {| boq := generate_boq items; layout := generate_dxf L W [] |}).
Proof.
  intros HF. apply generate_outputs_of_walk. now apply walk_all_falsy.
Qed.

Lemma run_without_detectors_witness :
  generate_outputs nan (-1) (add_item sounder []) =
    (add_item sounder [],
     Ok {| boq := [ ("Sounder", 1, "NFPA 72") ];
           layout := generate_dxf nan (-1) [] |}).
Proof.
  apply (run_without_detectors nan (-1) (add_item sounder [])).
  repeat constructor.
Defined.

(** ** A room without area *)

Section ZeroArea.

Lemma zero_quotient (a c : float) (n : Z) :
  match Prim2SF a with S754_zero _ | S754_nan => True | _ => False end ->
  ceil (a / c) = Ok n -> n = 0.
Proof.
  unfold ceil. rewrite div_spec. unfold SF64div.
  destruct (Prim2SF a) as [ba|ba| |ba ma ea]; try contradiction; intros _;
    destruct (Prim2SF c) as [bc|bc| |bc mc ec]; cbn [SFdiv];
    intros H; try discriminate; now injection H.
Qed.

Lemma zero_area (L W : float) :
  (L =? 0)%float || (W =? 0)%float = true ->
  match Prim2SF (L * W) with S754_zero _ | S754_nan => True | _ => False end.
Proof.
  rewrite !eqb_0_r, mul_spec. unfold SF64mul.
  destruct (Prim2SF L) as [bl|bl| |bl ml el],
           (Prim2SF W) as [bw|bw| |bw mw ew];
    cbn [SFmul orb]; try discriminate; auto.
Qed.

Lemma count_zero (d s : float) (c : Z) :
  (d =? 0)%float = true -> cell_count d s = Ok c -> c = 0.
Proof.
  intros Hd. unfold cell_count, truediv.
  destruct (s =? 0)%float; cbn [bind]; [discriminate|].
  apply zero_quotient. rewrite eqb_0_r in Hd.
  now destruct (Prim2SF d).
Qed.

End ZeroArea.

(** X15: a room with a zero length or a zero width is computed with like any
    other.  Whenever the spacing rule returns, it returns 0, and whenever the
    grid is returned, it is empty, for every spacing.  The spacing rule does
    return, for every spacing of ordinary size, when the other dimension is
    finite. *)
Theorem room_with_a_zero_dimension (L W s : float) :
  (L =? 0)%float || (W =? 0)%float = true ->
  (forall n : Z, calculate_detector_quantity L W s = Ok n -> n = 0) /\
  (forall ps : list position,
     generate_detector_grid L W s = Ok ps -> ps = []) /\
  (sf_finite (Prim2SF L) = true -> sf_finite (Prim2SF W) = true ->
   ordinary s = true ->
   calculate_detector_quantity L W s = Ok 0).
Proof.
  intros Hdim. split; [|split].
  - intros n. unfold calculate_detector_quantity, truediv.
    destruct (s * s =? 0)%float; cbn [bind]; [discriminate|].
    apply zero_quotient, zero_area, Hdim.
  - intros ps Hg.
    destruct (grid_counts L W s ps Hg) as (cx & cy & Hx & Hy).
    rewrite (grid_product L W s cx cy Hx Hy) in Hg. injection Hg as <-.
    apply orb_prop in Hdim as [H0|H0].
    + rewrite (count_zero L s cx H0 Hx). reflexivity.
    + rewrite (count_zero W s cy H0 Hy). cbn [range Z.to_nat seq map List.filter].
      apply length_zero_iff_nil.
      etransitivity; [apply length_prod|]. apply Nat.mul_0_r.
  - intros HfL HfW Hs.
    destruct (mul_ordinary s s Hs Hs) as (m & e & Hc & _).
    unfold calculate_detector_quantity, truediv. rewrite eqb_0_r, Hc.
    cbn [bind]. unfold ceil. rewrite div_spec, Hc, mul_spec.
    unfold SF64div, SF64mul. rewrite !eqb_0_r in Hdim.
    destruct (Prim2SF L) as [bl|bl| |bl ml el]; try discriminate;
      destruct (Prim2SF W) as [bw|bw| |bw mw ew]; try discriminate;
      try (cbn in Hdim; discriminate); reflexivity.
Qed.

Lemma room_with_a_zero_dimension_witness :
  (forall n : Z, calculate_detector_quantity 0 10 f9_1 = Ok n -> n = 0) /\
  (forall ps : list position,
     generate_detector_grid 0 10 f9_1 = Ok ps -> ps = []) /\
  calculate_detector_quantity 0 10 f9_1 = Ok 0.
Proof.
  destruct (room_with_a_zero_dimension 0 10 f9_1 eq_refl) as (H1 & H2 & H3).
  split; [exact H1|]. split; [exact H2|]. apply H3; reflexivity.
Defined.

(** ** A room of one cell *)

Section OneCell.

Lemma SFdiv_core_self (m : positive) (e : Z) :
  SFdiv_core_binary prec emax (Z.pos m) e (Z.pos m) e =
    (2 ^ 53, -53, loc_Exact).
Proof.
  unfold SFdiv_core_binary.
  replace (Zdigits2 (Z.pos m) + e - (Zdigits2 (Z.pos m) + e)) with 0 by lia.
  replace (e - e) with 0 by lia.
  change (Z.min (fexp prec emax 0) 0) with (-53).
  change (0 - -53) with 53. cbv zeta. cbv iota.
  rewrite Z.shiftl_mul_pow2 by lia.
  destruct (Z.div_eucl (Z.pos m * 2 ^ 53) (Z.pos m)) as [q r] eqn:Hd.
  assert (Hq : q = Z.pos m * 2 ^ 53 / Z.pos m)
    by (unfold Z.div; now rewrite Hd).
  assert (Hr : r = (Z.pos m * 2 ^ 53) mod Z.pos m)
    by (unfold Z.modulo; now rewrite Hd).
  rewrite Z.mul_comm, Z.div_mul in Hq by lia.
  rewrite Z.mul_comm, Z.mod_mul in Hr by lia.
  subst q r. unfold new_location, new_location_even, new_location_odd.
  now destruct (Z.even (Z.pos m)).
Qed.

(** A finite float that is not zero, divided by itself, gives 1. *)
Lemma float_div_self (x : float) (b : bool) (m : positive) (e : Z) :
  Prim2SF x = S754_finite b m e -> (x / x)%float = 1%float.
Proof.
  intros H. apply Prim2SF_inj. rewrite div_spec, H. unfold SF64div.
  cbn [SFdiv]. rewrite SFdiv_core_self, xorb_nilpotent.
  vm_compute. reflexivity.
Qed.

End OneCell.

(** X16: a square room as long and as wide as the spacing, of ordinary size,
    needs exactly one detector, and the grid is the one position in the
    centre of the room. *)
Theorem square_room_of_one_spacing (s : float) :
  ordinary s = true ->
  calculate_detector_quantity s s s = Ok 1 /\
  generate_detector_grid s s s = Ok [ (0.5 * s, 0.5 * s)%float ].
Proof.
  intros Hs.
  destruct (mul_ordinary s s Hs Hs) as (m & e & Hc & _).
  destruct (ordinary_magnitude s Hs) as (ms & es & HS & _).
  split.
  - unfold calculate_detector_quantity, truediv. rewrite eqb_0_r, Hc.
    cbn [bind]. rewrite (float_div_self _ _ _ _ Hc). reflexivity.
  - assert (Hcount : cell_count s s = Ok 1).
    { unfold cell_count, truediv. rewrite eqb_0_r, HS. cbn [bind].
      rewrite (float_div_self _ _ _ _ HS). reflexivity. }
    rewrite (generate_detector_grid_returns s s s 1 1 Hcount Hcount).
    change (cells 1 1) with [ (0, 0) ]. cbn [map List.filter].
    change (centre s (0, 0)) with (0.5 * s, 0.5 * s)%float.
    unfold in_room. cbn [fst snd].
    assert (Hle : (0.5 * s <=? s)%float = true).
    { rewrite FloatAxioms.leb_spec, HS. apply sf_below_leb, half_mul_below, HS. }
    rewrite Hle. reflexivity.
Qed.

Lemma square_room_of_one_spacing_witness :
  calculate_detector_quantity f9_1 f9_1 f9_1 = Ok 1 /\
  generate_detector_grid f9_1 f9_1 f9_1 = Ok [ (0.5 * f9_1, 0.5 * f9_1)%float ].
Proof.
  apply (square_room_of_one_spacing f9_1). reflexivity.
Defined.

(** ** Quantity against positions *)

(** X17: the BOQ can count detectors the drawing does not place.  For a room
    and a spacing of ordinary size, when half the spacing exceeds the length
    or the width of the room, the spacing rule still asks for one detector
    or more, while the grid is returned empty. *)
Theorem quantity_without_position (L W s : float) :
  ordinary L = true -> ordinary W = true -> ordinary s = true ->
  (0.5 * s <=? L)%float && (0.5 * s <=? W)%float = false ->
  (exists n : Z, calculate_detector_quantity L W s = Ok n /\ 1 <= n) /\
  generate_detector_grid L W s = Ok [].
Proof.
  intros HL HW Hs Hout. split; [now apply quantity_ordinary|].
  destruct (generate_detector_grid_ordinary L W s HL HW Hs) as (ps & Hg).
  rewrite Hg. destruct ps as [|p ps]; [reflexivity|]. exfalso.
  assert (Hpos : (0 <? s)%float = true).
  { destruct (ordinary_magnitude s Hs) as (ms & es & HS & _).
    now rewrite ltb_0_l, HS. }
  destruct (grid_member_first_centre L W s _ p Hpos Hg (or_introl eq_refl))
    as [Hx Hy].
  rewrite Hx, Hy in Hout. discriminate.
Qed.

Lemma quantity_without_position_witness :
  (exists n : Z, calculate_detector_quantity 1 1 3 = Ok n /\ 1 <= n) /\
  generate_detector_grid 1 1 3 = Ok [].
Proof.
  apply (quantity_without_position 1 1 3); reflexivity.
Defined.
